(** * istoki-catalog: the workbook-to-JSON build step, verified

    A shallow embedding of [scripts/build_catalog.py].  The script reads a
    workbook with the sheets [meta], [songs], [versions] and [glossary],
    validates and cross-references the rows, serialises the catalog to
    canonical JSON bytes, runs the strict versioning gate against the
    previously published files and writes [songs.json] and [latest.json]
    to [dist/] and [docs/].

    Conventions of the embedding.
    - A Python [str] is a [string] holding its UTF-8 bytes; [bytes] are a
      [string] as well, so [.encode("utf-8")] and [.decode("utf-8")] of
      well-formed text are the identity.
    - A Python [int] is a [Z].
    - A [dict] whose iteration order reaches the output (a song, a version,
      a glossary item, the warning table) is an association list in
      insertion order; a [dict] or [set] that is only looked up is a
      [gmap] or a [gset].
    - Raising is a result in [pyexn + A]; the part of [main] that touches the
      file system and the console threads a [world].
    - A Python [float], which reaches the script only through the JSON
      decoder, is a sign, a mantissa and a binary exponent, or one of the
      special values.
    - Library code that is not part of the repository (SHA-256, the JSON
      decoder, [int] of a string, Unicode lower-casing, [repr], the text of
      library exceptions) is the interface [PyRuntime].
    - Outside the model: float and date cells, text that is not well-formed
      UTF-8, a workbook file that exists and does not load, and errors of
      the operating system while reading or writing files.  Paths are POSIX
      paths. *)

From stdpp Require Import gmap strings list fin_maps pretty sorting.
From Stdlib Require Import ZArith Ascii String.

Set Warnings "-register-all".

Open Scope Z_scope.
Open Scope string_scope.

(** ** Strings *)

Module Str.

Definition nl : string := String (ascii_of_nat 10) EmptyString.

Definition in_range (lo hi : nat) (c : ascii) : bool :=
  let n := nat_of_ascii c in (lo <=? n)%nat && (n <=? hi)%nat.

Definition is_byte (n : nat) (c : ascii) : bool := (nat_of_ascii c =? n)%nat.

(** [str.isspace] on the code points below 128: TAB..CR, FS..US and SPACE. *)
Definition space1 (c : ascii) : bool := in_range 9 13 c || in_range 28 32 c.

(** U+0085 and U+00A0, as UTF-8. *)
Definition space2 (c d : ascii) : bool :=
  is_byte 194 c && (is_byte 133 d || is_byte 160 d).

(** U+1680, U+2000..U+200A, U+2028, U+2029, U+202F, U+205F and U+3000. *)
Definition space3 (c d e : ascii) : bool :=
  (is_byte 225 c && is_byte 154 d && is_byte 128 e)
  || (is_byte 226 c && is_byte 128 d
      && (in_range 128 138 e || is_byte 168 e || is_byte 169 e || is_byte 175 e))
  || (is_byte 226 c && is_byte 129 d && is_byte 159 e)
  || (is_byte 227 c && is_byte 128 d && is_byte 128 e).

(** [s.lstrip()] *)
Fixpoint lstrip (s : string) : string :=
  match s with
  | EmptyString => s
  | String c s1 =>
    if space1 c then lstrip s1 else
    match s1 with
    | EmptyString => s
    | String d s2 =>
      if space2 c d then lstrip s2 else
      match s2 with
      | EmptyString => s
      | String e s3 => if space3 c d e then lstrip s3 else s
      end
    end
  end.

(** [lstrip] on the reversed string: the bytes of a character come last
    byte first. *)
Fixpoint lstrip_rev (s : string) : string :=
  match s with
  | EmptyString => s
  | String c s1 =>
    if space1 c then lstrip_rev s1 else
    match s1 with
    | EmptyString => s
    | String d s2 =>
      if space2 d c then lstrip_rev s2 else
      match s2 with
      | EmptyString => s
      | String e s3 => if space3 e d c then lstrip_rev s3 else s
      end
    end
  end.

Definition rstrip (s : string) : string := String.rev (lstrip_rev (String.rev s)).

(** [s.strip()] *)
Definition strip (s : string) : string := rstrip (lstrip s).

(** [bool(s)] for a string: non-empty. *)
Definition nonempty (s : string) : bool :=
  match s with EmptyString => false | _ => true end.

(** [sep.join(l)] *)
Fixpoint join (sep : string) (l : list string) : string :=
  match l with
  | [] => ""
  | [x] => x
  | x :: l' => x +:+ sep +:+ join sep l'
  end.

(** [s.split(sep)] for a one-byte separator. *)
Fixpoint split (sep : ascii) (s : string) : list string :=
  match s with
  | EmptyString => [""]
  | String c s' =>
    if Ascii.eqb c sep then "" :: split sep s'
    else match split sep s' with
         | [] => [String c ""]
         | p :: ps => String c p :: ps
         end
  end.

(** [s.replace(old, new)] for a non-empty [old]: occurrences are replaced
    from the left and do not overlap.  [skip] counts the bytes of a matched
    occurrence that are still to be dropped. *)
Fixpoint replace_go (old new : string) (skip : nat) (s : string) : string :=
  match s with
  | EmptyString => ""
  | String c s' =>
    match skip with
    | S k => replace_go old new k s'
    | O =>
      if String.prefix old s
      then new +:+ replace_go old new (String.length old - 1) s'
      else String c (replace_go old new 0 s')
    end
  end.

Definition replace (old new s : string) : string := replace_go old new 0 s.

(** A UTF-8 continuation byte, [10xxxxxx]. *)
Definition continuation (c : ascii) : bool := in_range 128 191 c.

(** [s[:n]]: the first [n] characters (code points, not bytes). *)
Fixpoint take_chars (n : nat) (s : string) : string :=
  match s with
  | EmptyString => ""
  | String c s' =>
    if continuation c then String c (take_chars n s')
    else match n with
         | O => ""
         | S n' => String c (take_chars n' s')
         end
  end.

(** [s.lower()] on the letters A..Z only. *)
Definition lower_byte (c : ascii) : ascii :=
  if in_range 65 90 c then ascii_of_nat (nat_of_ascii c + 32) else c.

Fixpoint ascii_lower (s : string) : string :=
  match s with
  | EmptyString => ""
  | String c s' => String (lower_byte c) (ascii_lower s')
  end.

(** [str(n)] for an int. *)
Definition of_Z (n : Z) : string := pretty n.

(** [f"{n:0<w>d}"] for a non-negative int: zero-padded to [w] digits. *)
Definition zero_pad (w : nat) (n : Z) : string :=
  let d := of_Z n in
  String.concat "" (replicate (w - String.length d) "0") +:+ d.

Definition digit_val (c : ascii) : option Z :=
  if in_range 48 57 c then Some (Z.of_nat (nat_of_ascii c - 48)) else None.

(** The digits of an int literal: single underscores may separate digits.
    [acc] is the value read so far, [us] tells that the last byte was an
    underscore. *)
Fixpoint digits (acc : Z) (us : bool) (s : string) : option Z :=
  match s with
  | EmptyString => if us then None else Some acc
  | String c s' =>
    match digit_val c with
    | Some d => digits (10 * acc + d) false s'
    | None => if is_byte 95 c && negb us then digits acc true s' else None
    end
  end.

Definition unsigned (s : string) : option Z :=
  match s with
  | EmptyString => None
  | String c _ =>
    match digit_val c with
    | Some _ => digits 0 false s
    | None => None
    end
  end.

(** The white space [int] skips around an ASCII literal: TAB..CR and
    SPACE, not FS..US. *)
Definition int_space (c : ascii) : bool := in_range 9 13 c || is_byte 32 c.

Fixpoint skip_spaces (s : string) : string :=
  match s with
  | EmptyString => s
  | String c s' => if int_space c then skip_spaces s' else s
  end.

(** A reader of decimal literals in ASCII text: surrounding white space, an
    optional sign, digits.  It is the [int] of the example runtime below,
    which the examples apply to ASCII text only: text with other characters
    it refuses, where [int] also reads the decimal digits and skips the white
    space of Unicode.  The script's own [int] is a member of [PyRuntime]. *)
Definition ascii_int (s : string) : option Z :=
  match String.rev (skip_spaces (String.rev (skip_spaces s))) with
  | String "+" s' => unsigned s'
  | String "-" s' => Z.opp <$> unsigned s'
  | s' => unsigned s'
  end.

End Str.

(** ** Python values and JSON *)

(** A Python [float]: [FFinite neg m e] is the number [m * 2^e], negated
    when [neg] is set.  The doubles are among these values. *)
Inductive pyfloat : Type :=
| FNan
| FInf (neg : bool)
| FZero (neg : bool)
| FFinite (neg : bool) (m : positive) (e : Z).

(** [int(f)]: the integer part, rounded towards zero.  [None] for nan, where
    [int] raises [ValueError], and for the infinities, where it raises
    [OverflowError]. *)
Definition float_trunc (f : pyfloat) : option Z :=
  match f with
  | FNan | FInf _ => None
  | FZero _ => Some 0
  | FFinite neg m e =>
    let a := Z.shiftl (Z.pos m) e in
    Some (if neg then - a else a)
  end.

(** The Python objects the script builds and serialises, which are also the
    documents [json.loads] returns: [None], [bool], [int], [float], [str],
    [list] and [dict] with string keys in insertion order.  A JSON number
    without fraction and exponent decodes to an [int], every other number and
    the constants NaN and Infinity to a [float]. *)
Inductive json : Type :=
| JNull
| JBool (b : bool)
| JInt (n : Z)
| JFloat (f : pyfloat)
| JStr (s : string)
| JArr (l : list json)
| JObj (o : list (string * json)).

Abbreviation pydict := (list (string * json)).

Module Dict.

(** [d.get(k)] *)
Fixpoint get (k : string) (d : pydict) : option json :=
  match d with
  | [] => None
  | (k', v) :: d' => if String.eqb k' k then Some v else get k d'
  end.

(** [d[k] = v]: an existing key keeps its position, a new key goes last. *)
Fixpoint set (k : string) (v : json) (d : pydict) : pydict :=
  match d with
  | [] => [(k, v)]
  | (k', v') :: d' =>
    if String.eqb k' k then (k', v) :: d' else (k', v') :: set k v d'
  end.

Definition keys (d : pydict) : list string := d.*1.

End Dict.

(** ** Exceptions and the error monad *)

Inductive pyexn : Type :=
| SystemExit (msg : string)              (* raised by [_fail] *)
| StopIteration                          (* [next] on an exhausted iterator *)
| IndexError                             (* [row[0]] on an empty row *)
| KeyError (key : string)                (* [d[key]] on a missing key *)
| AttributeError (v : json) (attr : string) (* [v.attr] on a value without it *)
| IntError (v : json)     (* [int(v)]: ValueError, TypeError or OverflowError *)
| DecodeError (data : string)            (* [data.decode] or [json.loads] rejects [data] *)
| FileNotFoundError (path : string).

(** [SystemExit] derives from [BaseException]; the others from [Exception]. *)
Definition is_Exception (e : pyexn) : bool :=
  match e with SystemExit _ => false | _ => true end.

Definition res (A : Type) : Type := pyexn + A.

Definition ret {A} (a : A) : res A := inr a.
Definition raise {A} (e : pyexn) : res A := inl e.

Definition bind {A B} (m : res A) (k : A -> res B) : res B :=
  match m with
  | inl e => inl e
  | inr a => k a
  end.

Notation "x <- m ;; k" := (bind m (fun x => k))
  (at level 100, m at next level, right associativity).

(** [try: m  except Exception as e: h(e)] *)
Definition try_except {A} (m : res A) (h : pyexn -> res A) : res A :=
  match m with
  | inl e => if is_Exception e then h e else inl e
  | inr a => inr a
  end.

(** The part of the Python library the script calls and the repository does
    not contain. *)
Class PyRuntime : Type := {
  (** [hashlib.sha256(data).hexdigest()] *)
  sha256_hexdigest : string -> string;
  (** [json.loads(data.decode("utf-8"))]; [None] when either step raises *)
  json_loads : string -> option json;
  (** [int(s)] for a string [s]; [None] when it raises, which for a string
      is always [ValueError] *)
  int_of_str : string -> option Z;
  (** [s.lower()], with the Unicode case mapping *)
  str_lower : string -> string;
  (** [repr(v)] *)
  py_repr : json -> string;
  (** [str(e)] for an exception raised by the library *)
  exn_str : pyexn -> string;
}.

Module Json.

Definition dq : string := String (ascii_of_nat 34) EmptyString.

Definition hex_digit (n : nat) : string :=
  String.substring n 1 "0123456789abcdef".

(** One character of a string literal, as [json.dumps(ensure_ascii=False)]
    writes it: the quote, the backslash and the control characters are
    escaped, every other byte is copied. *)
Definition escape (c : ascii) : string :=
  let n := nat_of_ascii c in
  if (n =? 34)%nat then "\" +:+ dq
  else if (n =? 92)%nat then "\\"
  else if (n =? 10)%nat then "\n"
  else if (n =? 13)%nat then "\r"
  else if (n =? 9)%nat then "\t"
  else if (n =? 8)%nat then "\b"
  else if (n =? 12)%nat then "\f"
  else if (n <? 32)%nat then "\u00" +:+ hex_digit (n / 16) +:+ hex_digit (n mod 16)
  else String c EmptyString.

Fixpoint escape_all (s : string) : string :=
  match s with
  | EmptyString => ""
  | String c s' => escape c +:+ escape_all s'
  end.

Definition quote (s : string) : string := dq +:+ escape_all s +:+ dq.

(** A line break followed by the indentation of nesting depth [lvl]. *)
Definition newline_indent (lvl : nat) : string :=
  Str.nl +:+ String.concat "" (replicate lvl "  ").

(** [json.dumps(v, ensure_ascii=False, indent=2)] at nesting depth [lvl].
    A float is written with [float.__repr__], here [repr], except for the
    three special values. *)
Fixpoint dumps_at (repr : json -> string) (lvl : nat) (v : json) : string :=
  match v with
  | JNull => "null"
  | JBool b => if b then "true" else "false"
  | JInt n => Str.of_Z n
  | JFloat f =>
    match f with
    | FNan => "NaN"
    | FInf neg => if neg then "-Infinity" else "Infinity"
    | _ => repr v
    end
  | JStr s => quote s
  | JArr l =>
    match l with
    | [] => "[]"
    | _ =>
      "[" +:+ newline_indent (S lvl)
      +:+ Str.join ("," +:+ newline_indent (S lvl)) (map (dumps_at repr (S lvl)) l)
      +:+ newline_indent lvl +:+ "]"
    end
  | JObj o =>
    match o with
    | [] => "{}"
    | _ =>
      "{" +:+ newline_indent (S lvl)
      +:+ Str.join ("," +:+ newline_indent (S lvl))
            (map (fun kv => quote (fst kv) +:+ ": " +:+ dumps_at repr (S lvl) (snd kv)) o)
      +:+ newline_indent lvl +:+ "}"
    end
  end.

(** [json.dumps(v, ensure_ascii=False, indent=2).encode("utf-8")] *)
Definition dumps `{PyRuntime} (v : json) : string := dumps_at py_repr 0 v.

End Json.

(** [str(v)] *)
Definition py_str `{PyRuntime} (v : json) : string :=
  match v with
  | JNull => "None"
  | JBool b => if b then "True" else "False"
  | JInt n => Str.of_Z n
  | JStr s => s
  | _ => py_repr v
  end.

(** [int(v)]: an [int] is itself, a [bool] is 0 or 1, a [float] is cut to
    its integer part, a string is read as a literal; [None], a [list] and a
    [dict] raise [TypeError]. *)
Definition py_int `{PyRuntime} (v : json) : res Z :=
  match v with
  | JInt n => ret n
  | JBool b => ret (if b then 1 else 0)
  | JFloat f =>
    match float_trunc f with Some n => ret n | None => raise (IntError v) end
  | JStr s =>
    match int_of_str s with Some n => ret n | None => raise (IntError v) end
  | JNull | JArr _ | JObj _ => raise (IntError v)
  end.

(** [v.get(k, dflt)]: only a dict has the method. *)
Definition py_get (v : json) (k : string) (dflt : json) : res json :=
  match v with
  | JObj o => ret (default dflt (Dict.get k o))
  | _ => raise (AttributeError v "get")
  end.

(** [d[k]] where the script goes on with the value as a string.  The dicts it
    is applied to are built two lines earlier with a string under [k], so
    only the first case arises; the other two make the function total. *)
Definition str_item (d : pydict) (k : string) : res string :=
  match Dict.get k d with
  | Some (JStr s) => ret s
  | Some v => raise (AttributeError v "strip")
  | None => raise (KeyError k)
  end.

(** [d[k].append(v)] *)
Definition list_append (d : pydict) (k : string) (v : json) : res pydict :=
  match Dict.get k d with
  | Some (JArr l) => ret (Dict.set k (JArr (l ++ [v])%list) d)
  | Some w => raise (AttributeError w "append")
  | None => raise (KeyError k)
  end.

(** ** The workbook *)

(** A cell value as [openpyxl] returns it with [values_only=True]. Float and
    date cells are outside the model. *)
Inductive cell : Type :=
| CNone
| CStr (s : string)
| CInt (n : Z)
| CBool (b : bool).

(** A sheet is its rows from row 1 on; a workbook lists its sheets by name. *)
Abbreviation sheet := (list (list cell)).
Abbreviation workbook := (list (string * sheet)).

(** [ws.iter_rows(min_row=n, values_only=True)] *)
Definition iter_rows (min_row : nat) (ws : sheet) : sheet := drop (min_row - 1) ws.

(** [name in wb.sheetnames] *)
Definition has_sheet (wb : workbook) (name : string) : bool :=
  bool_decide (name ∈ wb.*1).

(** [wb[name]] *)
Fixpoint get_sheet (wb : workbook) (name : string) : res sheet :=
  match wb with
  | [] => raise (KeyError name)
  | (n, ws) :: wb' => if String.eqb n name then ret ws else get_sheet wb' name
  end.

(** ** Constants *)

Definition INPUT_XLSX : string := "input/istoki.xlsx".
Definition DIST_DIR : string := "dist".
Definition DOCS_DIR : string := "docs".
Definition SONGS_JSON_NAME : string := "songs.json".
Definition LATEST_JSON_NAME : string := "latest.json".
Definition PAGES_BASE : string := "https://aleyakim.github.io/istoki-catalog/".
Definition SONGS_URL : string := PAGES_BASE +:+ SONGS_JSON_NAME.

(** [os.path.join(a, b)] for a relative [b], on POSIX. *)
Definition path_join (a b : string) : string := a +:+ "/" +:+ b.

(** ** Cell helpers *)

Definition cell_str (v : cell) : string :=
  match v with
  | CNone => "None"
  | CStr s => s
  | CInt n => Str.of_Z n
  | CBool b => if b then "True" else "False"
  end.

(** Cell value -> trimmed string, None -> ''. *)
Definition _s (v : cell) : string :=
  match v with
  | CNone => ""
  | _ => Str.strip (cell_str v)
  end.

(** Split by ';' into trimmed non-empty items. *)
Definition _split_list (c : cell) : list string :=
  let raw := _s c in
  if negb (Str.nonempty raw) then []
  else
    let parts := map Str.strip (Str.split ";" raw) in
    filter (fun p => Str.nonempty p = true) parts.

(** Optional string: '' -> None *)
Definition _opt (c : cell) : option string :=
  let t := _s c in
  if Str.nonempty t then Some t else None.

Definition _fail {A} (msg : string) : res A :=
  raise (SystemExit ("ERROR: " +:+ msg)).

Definition _sha256_bytes `{PyRuntime} (data : string) : string :=
  sha256_hexdigest data.

(** [a or b] on strings *)
Definition str_or (a b : string) : string := if Str.nonempty a then a else b.

(** ** Reading the sheets *)

(** One turn of the loop of [read_meta]. *)
Definition read_meta_row (meta : gmap string string) (row : list cell)
  : res (gmap string string) :=
  match row with
  | [] => raise IndexError
  | c0 :: rest =>
    let key := _s c0 in
    let val := match rest with c1 :: _ => _s c1 | [] => "" end in
    ret (if Str.nonempty key then <[key := val]> meta else meta)
  end.

Fixpoint read_meta_rows (meta : gmap string string) (rows : sheet)
  : res (gmap string string) :=
  match rows with
  | [] => ret meta
  | row :: rows' =>
    meta' <- read_meta_row meta row ;;
    read_meta_rows meta' rows'
  end.

Definition read_meta (ws : sheet) : res (gmap string string) :=
  read_meta_rows ∅ (iter_rows 1 ws).

(** The loop of [sheet_headers] over [enumerate(first)]. *)
Fixpoint headers_of (idx : nat) (first : list cell) (headers : gmap string nat)
  : gmap string nat :=
  match first with
  | [] => headers
  | c :: first' =>
    let name := _s c in
    headers_of (S idx) first'
      (if Str.nonempty name then <[name := idx]> headers else headers)
  end.

Definition sheet_headers (ws : sheet) : res (gmap string nat) :=
  match iter_rows 1 ws with
  | [] => raise StopIteration
  | first :: _ => ret (headers_of 0 first ∅)
  end.

Definition get_cell (row : list cell) (headers : gmap string nat) (name : string)
  : cell :=
  match headers !! name with
  | None => CNone
  | Some idx => default CNone (row !! idx)
  end.

(** ** Row validators *)

Definition build_song_dict (row : list cell) (h : gmap string nat) : res pydict :=
  let song_id := _s (get_cell row h "id") in
  let title := _s (get_cell row h "title") in
  let hub := _s (get_cell row h "hub") in
  let lyrics := _s (get_cell row h "lyrics") in
  if negb (Str.nonempty song_id) then _fail "songs: empty id"
  else if negb (Str.nonempty title) then
    _fail ("songs: empty title for id=" +:+ song_id)
  else if negb (Str.nonempty hub) then
    _fail ("songs: empty hub for id=" +:+ song_id)
  else if negb (Str.nonempty lyrics) then
    _fail ("songs: empty lyrics for id=" +:+ song_id)
  else
    ret [ ("id", JStr song_id);
          ("title", JStr title);
          ("altTitles", JStr (_s (get_cell row h "altTitles")));
          ("hub", JStr hub);
          ("regionDetail", JStr (_s (get_cell row h "regionDetail")));
          ("genre", JStr (_s (get_cell row h "genre")));
          ("themes", JArr (JStr <$> _split_list (get_cell row h "themes")));
          ("cossackHost", JStr (_s (get_cell row h "cossackHost")));
          ("languageTag", JStr (str_or (_s (get_cell row h "languageTag")) "русский"));
          ("contextShort", JStr (_s (get_cell row h "contextShort")));
          ("lyrics", JStr lyrics);
          ("glossary", JArr []);
          ("sourceNote", JStr (_s (get_cell row h "sourceNote")));
          ("audioUrl", JStr (_s (get_cell row h "audioUrl")));
          ("minusUrl", JStr (_s (get_cell row h "minusUrl")));
          ("videoUrl", JStr (_s (get_cell row h "videoUrl")));
          ("rightsStatus", JStr (str_or (_s (get_cell row h "rightsStatus")) "NONE"));
          ("externalLinks", JArr (JStr <$> _split_list (get_cell row h "externalLinks")));
          ("versions", JArr []) ].

(** The keys of the nullable fields of a version, in the order of the loop. *)
Definition version_optional_keys : list string :=
  ["title"; "lyrics"; "sourceNote"; "audioUrl"; "minusUrl"; "videoUrl"].

(** One turn of [for k in [...]] in [build_version_dict]. *)
Definition version_put (row : list cell) (h : gmap string nat)
    (ver : pydict) (k : string) : pydict :=
  match _opt (get_cell row h k) with
  | Some v => Dict.set k (JStr v) ver
  | None => ver
  end.

Definition build_version_dict (row : list cell) (h : gmap string nat)
  : res (string * pydict) :=
  let song_id := _s (get_cell row h "songId") in
  let ver_id := _s (get_cell row h "id") in
  if negb (Str.nonempty song_id) then _fail "versions: empty songId"
  else if negb (Str.nonempty ver_id) then
    _fail ("versions: empty id for songId=" +:+ song_id)
  else
    let ver := [("id", JStr ver_id)] in
    let ver := fold_left (version_put row h) version_optional_keys ver in
    ret (song_id, ver).

Definition build_glossary_item (row : list cell) (h : gmap string nat)
  : res (string * pydict) :=
  let song_id := _s (get_cell row h "songId") in
  let term := _s (get_cell row h "term") in
  let definition := _s (get_cell row h "definition") in
  if negb (Str.nonempty song_id) then _fail "glossary: empty songId"
  else if negb (Str.nonempty term) then
    _fail ("glossary: empty term for songId=" +:+ song_id)
  else if negb (Str.nonempty definition) then
    _fail ("glossary: empty definition for songId=" +:+ song_id +:+ ", term=" +:+ term)
  else
    ret (song_id, [("term", JStr term); ("definition", JStr definition)]).

(** ** The loops of [main] over the data sheets *)

(** [all((_s(c) == "" for c in row))] *)
Definition blank_row (row : list cell) : bool :=
  forallb (fun c => String.eqb (_s c) "") row.

(** [for row_idx, row in enumerate(rows, start=row_idx): if blank: continue; body] *)
Fixpoint for_rows {S : Type} (body : Z -> list cell -> S -> res S)
    (row_idx : Z) (rows : sheet) (st : S) : res S :=
  match rows with
  | [] => ret st
  | row :: rows' =>
    st' <- (if blank_row row then ret st else body row_idx row st) ;;
    for_rows body (row_idx + 1) rows' st'
  end.

(** [for x in l: f(x)] *)
Fixpoint for_each {A : Type} (f : A -> res unit) (l : list A) : res unit :=
  match l with
  | [] => ret tt
  | x :: l' => _ <- f x ;; for_each f l'
  end.

Definition row_suffix (row_idx : Z) : string :=
  " (row " +:+ Str.of_Z row_idx +:+ ")".

(** The body of the loop over the songs sheet. *)
Definition song_step (hs : gmap string nat) (row_idx : Z) (row : list cell)
    (songs_by_id : gmap string pydict) : res (gmap string pydict) :=
  song <- build_song_dict row hs ;;
  song_id <- str_item song "id" ;;
  match songs_by_id !! song_id with
  | Some _ => _fail ("songs: duplicate id '" +:+ song_id +:+ "'" +:+ row_suffix row_idx)
  | None => ret (<[song_id := song]> songs_by_id)
  end.

(** The state of the loop over the versions sheet. *)
Record versions_state : Type := {
  vs_songs : gmap string pydict;
  version_ids_per_song : gmap string (gset string);
}.

Definition version_step (hv : gmap string nat) (row_idx : Z) (row : list cell)
    (st : versions_state) : res versions_state :=
  p <- build_version_dict row hv ;;
  let song_id := fst p in
  let ver := snd p in
  match vs_songs st !! song_id with
  | None => _fail ("versions: unknown songId '" +:+ song_id +:+ "'" +:+ row_suffix row_idx)
  | Some song =>
    let seen := default ∅ (version_ids_per_song st !! song_id) in
    ver_id <- str_item ver "id" ;;
    if bool_decide (ver_id ∈ seen) then
      _fail ("versions: duplicate version id '" +:+ ver_id +:+ "' for songId="
             +:+ song_id +:+ row_suffix row_idx)
    else
      song' <- list_append song "versions" (JObj ver) ;;
      ret {| vs_songs := <[song_id := song']> (vs_songs st);
             version_ids_per_song :=
               <[song_id := seen ∪ {[ver_id]}]> (version_ids_per_song st) |}
  end.

(** [d.setdefault(k, dflt)] followed by an update of the value in place, on
    a dict in insertion order. *)
Fixpoint setdefault_update {V : Type} (k : string) (dflt : V) (f : V -> V)
    (d : list (string * V)) : list (string * V) :=
  match d with
  | [] => [(k, f dflt)]
  | (k', v) :: d' =>
    if String.eqb k' k then (k', f v) :: d'
    else (k', v) :: setdefault_update k dflt f d'
  end.

(** The state of the loop over the glossary sheet. *)
Record glossary_state : Type := {
  gs_songs : gmap string pydict;
  terms_per_song : gmap string (gset string);
  term_defs_global : list (string * list (string * list string));
}.

Definition glossary_step `{PyRuntime} (hg : gmap string nat) (row_idx : Z)
    (row : list cell) (st : glossary_state) : res glossary_state :=
  p <- build_glossary_item row hg ;;
  let song_id := fst p in
  let item := snd p in
  match gs_songs st !! song_id with
  | None => _fail ("glossary: unknown songId '" +:+ song_id +:+ "'" +:+ row_suffix row_idx)
  | Some song =>
    term <- str_item item "term" ;;
    definition <- str_item item "definition" ;;
    let seen_terms := default ∅ (terms_per_song st !! song_id) in
    let term_norm := str_lower (Str.strip term) in
    if bool_decide (term_norm ∈ seen_terms) then
      _fail ("glossary: duplicate term '" +:+ term +:+ "' within songId="
             +:+ song_id +:+ row_suffix row_idx)
    else
      song' <- list_append song "glossary" (JObj item) ;;
      let def_norm := Str.strip definition in
      ret {| gs_songs := <[song_id := song']> (gs_songs st);
             terms_per_song := <[song_id := seen_terms ∪ {[term_norm]}]> (terms_per_song st);
             term_defs_global :=
               setdefault_update term_norm []
                 (setdefault_update def_norm [] (fun ids => (ids ++ [song_id])%list))
                 (term_defs_global st) |}
  end.

(** ** Sorting *)

Definition str_le (a b : string) : Prop := String.leb a b = true.

#[global] Instance str_le_dec : RelDecision str_le.
Proof. intros a b. unfold str_le. apply _. Defined.

(** [sorted(l)] for a list of strings. *)
Definition sorted (l : list string) : list string := merge_sort str_le l.

(** [sorted(set(l))] *)
Definition sorted_set (l : list string) : list string := sorted (remove_dups l).

(** [sorted(m.keys())] *)
Definition sorted_keys {V : Type} (m : gmap string V) : list string :=
  sorted (map_to_list m).*1.

(** ** The warning pass *)

(** The lines of the inner loop, for one term: who uses which definition. *)
Definition definition_warnings `{PyRuntime} (defs_map : list (string * list string))
  : list string :=
  map (fun d =>
         let preview := Str.take_chars 120 (Str.replace Str.nl " " (fst d)) in
         "  used in " +:+ py_repr (JArr (JStr <$> sorted_set (snd d))) +:+ ": " +:+ preview)
      defs_map.

(** The messages handed to [_warn], in order. *)
Definition term_warnings `{PyRuntime}
    (term_defs : list (string * list (string * list string))) : list string :=
  flat_map (fun t =>
              let term_norm := fst t in
              let defs_map := snd t in
              if (1 <? List.length defs_map)%nat then
                ("term '" +:+ term_norm +:+ "' has " +:+ Str.of_Z (Z.of_nat (List.length defs_map))
                 +:+ " different definitions across songs:")
                :: definition_warnings defs_map
              else [])
           term_defs.

(** ** Reading and validating the workbook: [main] up to the warning pass *)

Record catalog : Type := {
  catalog_version : Z;
  base_media_url : string;
  songs_by_id : gmap string pydict;
  warning_table : list (string * list (string * list string));
}.

Definition check_sheet (wb : workbook) (sheet : string) : res unit :=
  if has_sheet wb sheet then ret tt
  else _fail ("Missing sheet '" +:+ sheet +:+ "' in " +:+ INPUT_XLSX).

Definition check_column (sheet : string) (h : gmap string nat) (col : string)
  : res unit :=
  match h !! col with
  | Some _ => ret tt
  | None => _fail (sheet +:+ ": missing required column '" +:+ col +:+ "'")
  end.

Definition read_catalog_version `{PyRuntime} (meta : gmap string string)
  : res Z :=
  match meta !! "catalogVersion" with
  | None => _fail "meta: missing catalogVersion"
  | Some v =>
    match int_of_str v with
    | Some n => ret n
    | None => _fail ("meta: catalogVersion is not int: " +:+ v)
    end
  end.

Definition read_songs (ws_songs : sheet) : res (gmap string pydict) :=
  hs <- sheet_headers ws_songs ;;
  _ <- for_each (check_column "songs" hs) ["id"; "title"; "hub"; "lyrics"] ;;
  songs_by_id <- for_rows (song_step hs) 2 (iter_rows 2 ws_songs) ∅ ;;
  if bool_decide (songs_by_id = ∅) then _fail "songs: no songs found"
  else ret songs_by_id.

Definition read_versions (ws_versions : sheet) (songs_by_id : gmap string pydict)
  : res (gmap string pydict) :=
  hv <- sheet_headers ws_versions ;;
  _ <- (match hv !! "songId", hv !! "id" with
        | Some _, Some _ => ret tt
        | _, _ => _fail "versions: required columns are 'songId' and 'id'"
        end) ;;
  st <- for_rows (version_step hv) 2 (iter_rows 2 ws_versions)
          {| vs_songs := songs_by_id; version_ids_per_song := ∅ |} ;;
  ret (vs_songs st).

Definition read_glossary `{PyRuntime} (ws_glossary : sheet)
    (songs_by_id : gmap string pydict) : res glossary_state :=
  hg <- sheet_headers ws_glossary ;;
  _ <- for_each (check_column "glossary" hg) ["songId"; "term"; "definition"] ;;
  for_rows (glossary_step hg) 2 (iter_rows 2 ws_glossary)
    {| gs_songs := songs_by_id; terms_per_song := ∅; term_defs_global := [] |}.

Definition read_catalog `{PyRuntime} (wb : workbook) : res catalog :=
  _ <- for_each (check_sheet wb) ["meta"; "songs"; "versions"; "glossary"] ;;
  ws_meta <- get_sheet wb "meta" ;;
  meta <- read_meta ws_meta ;;
  version <- read_catalog_version meta ;;
  let base := Str.strip (default "" (meta !! "baseMediaUrl")) in
  ws_songs <- get_sheet wb "songs" ;;
  songs <- read_songs ws_songs ;;
  ws_versions <- get_sheet wb "versions" ;;
  songs <- read_versions ws_versions songs ;;
  ws_glossary <- get_sheet wb "glossary" ;;
  st <- read_glossary ws_glossary songs ;;
  ret {| catalog_version := version;
         base_media_url := base;
         songs_by_id := gs_songs st;
         warning_table := term_defs_global st |}.

(** [[songs_by_id[k] for k in sorted(songs_by_id.keys())]]; every key is in
    the map, so no lookup fails. *)
Definition songs_list (songs_by_id : gmap string pydict) : list pydict :=
  omap (fun k => songs_by_id !! k) (sorted_keys songs_by_id).

(** The canonical bytes of [songs.json]. *)
Definition songs_json_bytes `{PyRuntime} (songs : list pydict) : string :=
  Json.dumps (JArr (JObj <$> songs)).

(** ** The strict versioning gate *)

(** [json.loads(data.decode("utf-8"))] *)
Definition loads `{PyRuntime} (data : string) : res json :=
  match json_loads data with
  | Some v => ret v
  | None => raise (DecodeError data)
  end.

(** The first [try] block of the gate: the version and the trimmed
    base-media-url of the published manifest. *)
Definition parse_old_manifest `{PyRuntime} (old_latest_bytes : string)
  : res (Z * string) :=
  try_except
    (old_manifest <- loads old_latest_bytes ;;
     v <- py_get old_manifest "catalogVersion" (JInt 0) ;;
     old_version <- py_int v ;;
     u <- py_get old_manifest "baseMediaUrl" (JStr "") ;;
     ret (old_version, Str.strip (py_str u)))
    (fun e => _fail ("STRICT_VERSIONING: cannot parse existing docs/latest.json: "
                     +:+ exn_str e)).

(** The second [try] block: [songs_changed]. *)
Definition songs_changed_of `{PyRuntime} (old_songs_bytes : option string)
    (new_songs_json_bytes : string) : res bool :=
  match old_songs_bytes with
  | None => ret false
  | Some b =>
    try_except
      (old_obj <- loads b ;;
       let old_norm_bytes := Json.dumps old_obj in
       ret (negb (String.eqb (_sha256_bytes old_norm_bytes)
                             (_sha256_bytes new_songs_json_bytes))))
      (fun e => _fail ("STRICT_VERSIONING: cannot parse existing docs/songs.json: "
                       +:+ exn_str e))
  end.

Definition gate_details (songs_changed base_media_changed : bool)
    (old_base_media_url base_media_url : string) : list string :=
  ((if songs_changed then ["songs.json changed"] else [])
   ++ (if base_media_changed
       then ["baseMediaUrl changed ('" +:+ old_base_media_url +:+ "' -> '"
             +:+ Str.strip base_media_url +:+ "')"]
       else []))%list.

Definition gate_message (old_version catalog_version : Z) (details : list string)
  : string :=
  "STRICT_VERSIONING: content changed but catalogVersion was not bumped. "
  +:+ "old=" +:+ Str.of_Z old_version +:+ ", new=" +:+ Str.of_Z catalog_version
  +:+ ". Причина: " +:+ Str.join ", " details +:+ ". "
  +:+ "Открой input/istoki.xlsx → sheet meta → catalogVersion и увеличь (например +1), затем commit/push.".

(** The body of [if strict and old_latest_bytes is not None]. *)
Definition versioning_gate `{PyRuntime} (old_latest_bytes : string)
    (old_songs_bytes : option string) (new_songs_json_bytes : string)
    (catalog_version : Z) (base_media_url : string) : res unit :=
  old <- parse_old_manifest old_latest_bytes ;;
  let old_version := fst old in
  let old_base_media_url := snd old in
  songs_changed <- songs_changed_of old_songs_bytes new_songs_json_bytes ;;
  let base_media_changed :=
    negb (String.eqb old_base_media_url (Str.strip base_media_url)) in
  if (songs_changed || base_media_changed) && (catalog_version <=? old_version)%Z then
    _fail (gate_message old_version catalog_version
             (gate_details songs_changed base_media_changed
                old_base_media_url base_media_url))
  else ret tt.

(** [value.strip().lower() in ("1", "true", "yes", "on")] *)
Definition is_strict `{PyRuntime} (value : string) : bool :=
  bool_decide (str_lower (Str.strip value) ∈ ["1"; "true"; "yes"; "on"]).

(** ** The world: file system, environment, clock and console *)

Record datetime : Type := {
  year : Z; month : Z; day : Z; hour : Z; minute : Z; second : Z;
}.

Record world : Type := {
  input_xlsx : option workbook;   (* the workbook at [INPUT_XLSX], if the file exists *)
  files : gmap string string;     (* the other files: path -> bytes *)
  dirs : gset string;             (* the directories created so far *)
  environ : gmap string string;
  clock : datetime;               (* the UTC time, microseconds dropped *)
  stdout : list string;           (* the lines printed *)
}.

Definition M (A : Type) : Type := world -> res A * world.

Definition mret {A} (a : A) : M A := fun w => (ret a, w).

Definition mbind {A B} (m : M A) (k : A -> M B) : M B :=
  fun w =>
    match m w with
    | (inl e, w') => (inl e, w')
    | (inr a, w') => k a w'
    end.

Notation "x <~ m ;; k" := (mbind m (fun x => k))
  (at level 100, m at next level, right associativity).

(** A computation that does not touch the world. *)
Definition lift {A} (m : res A) : M A := fun w => (m, w).

(** [if not os.path.exists(INPUT_XLSX): _fail(...)] and [load_workbook]. *)
Definition load_input : M workbook :=
  fun w =>
    match input_xlsx w with
    | None => (_fail ("Input file not found: " +:+ INPUT_XLSX), w)
    | Some wb => (ret wb, w)
    end.

(** [os.getenv(name, dflt)] *)
Definition getenv (name dflt : string) : M string :=
  fun w => (ret (default dflt (environ w !! name)), w).

Definition _read_file_bytes (path : string) : M (option string) :=
  fun w => (ret (files w !! path), w).

Definition with_files (w : world) (fs : gmap string string) : world :=
  {| input_xlsx := input_xlsx w; files := fs; dirs := dirs w;
     environ := environ w; clock := clock w; stdout := stdout w |}.

Definition with_dirs (w : world) (ds : gset string) : world :=
  {| input_xlsx := input_xlsx w; files := files w; dirs := ds;
     environ := environ w; clock := clock w; stdout := stdout w |}.

Definition with_stdout (w : world) (out : list string) : world :=
  {| input_xlsx := input_xlsx w; files := files w; dirs := dirs w;
     environ := environ w; clock := clock w; stdout := out |}.

(** [os.makedirs(path, exist_ok=True)] *)
Definition makedirs (path : string) : M unit :=
  fun w => (ret tt, with_dirs w ({[path]} ∪ dirs w)).

(** [with open(path, "wb") as f: f.write(data)] *)
Definition write_file (path data : string) : M unit :=
  fun w => (ret tt, with_files w (<[path := data]> (files w))).

(** [shutil.copyfile(src, dst)] *)
Definition copyfile (src dst : string) : M unit :=
  fun w =>
    match files w !! src with
    | None => (raise (FileNotFoundError src), w)
    | Some data => write_file dst data w
    end.

Definition print (line : string) : M unit :=
  fun w => (ret tt, with_stdout w (stdout w ++ [line])%list).

Definition _warn (msg : string) : M unit := print ("WARNING: " +:+ msg).

Fixpoint for_each_M {A : Type} (f : A -> M unit) (l : list A) : M unit :=
  match l with
  | [] => mret tt
  | x :: l' => _ <~ f x ;; for_each_M f l'
  end.

(** [dt.isoformat()] for a UTC time without microseconds. *)
Definition isoformat (dt : datetime) : string :=
  Str.zero_pad 4 (year dt) +:+ "-" +:+ Str.zero_pad 2 (month dt) +:+ "-"
  +:+ Str.zero_pad 2 (day dt) +:+ "T" +:+ Str.zero_pad 2 (hour dt) +:+ ":"
  +:+ Str.zero_pad 2 (minute dt) +:+ ":" +:+ Str.zero_pad 2 (second dt) +:+ "+00:00".

Definition _now_iso_utc : M string :=
  fun w => (ret (Str.replace "+00:00" "Z" (isoformat (clock w))), w).

(** ** [main] *)

Definition manifest_of (catalog_version : Z) (published_at base_media_url : string)
  : pydict :=
  [ ("catalogVersion", JInt catalog_version);
    ("publishedAt", JStr published_at);
    ("songsUrl", JStr SONGS_URL);
    ("baseMediaUrl", JStr base_media_url) ].

(** The end of [main], from [os.makedirs] on. *)
Definition publish `{PyRuntime} (songs : list pydict)
    (new_songs_json_bytes : string) (catalog_version : Z)
    (base_media_url : string) : M unit :=
  _ <~ makedirs DIST_DIR ;;
  _ <~ makedirs DOCS_DIR ;;
  let songs_path_dist := path_join DIST_DIR SONGS_JSON_NAME in
  let latest_path_dist := path_join DIST_DIR LATEST_JSON_NAME in
  _ <~ write_file songs_path_dist new_songs_json_bytes ;;
  now <~ _now_iso_utc ;;
  let manifest := manifest_of catalog_version now base_media_url in
  _ <~ write_file latest_path_dist (Json.dumps (JObj manifest)) ;;
  _ <~ copyfile songs_path_dist (path_join DOCS_DIR SONGS_JSON_NAME) ;;
  _ <~ copyfile latest_path_dist (path_join DOCS_DIR LATEST_JSON_NAME) ;;
  _ <~ print "OK: generated:" ;;
  _ <~ print ("  " +:+ path_join DOCS_DIR SONGS_JSON_NAME +:+ "  (songs: "
              +:+ Str.of_Z (Z.of_nat (List.length songs)) +:+ ")") ;;
  _ <~ print ("  " +:+ path_join DOCS_DIR LATEST_JSON_NAME +:+ "  (catalogVersion: "
              +:+ Str.of_Z catalog_version +:+ ")") ;;
  if Str.nonempty base_media_url then print ("  baseMediaUrl: " +:+ base_media_url)
  else _warn "baseMediaUrl is empty in meta sheet".

Definition main `{PyRuntime} : M unit :=
  wb <~ load_input ;;
  cat <~ lift (read_catalog wb) ;;
  _ <~ for_each_M _warn (term_warnings (warning_table cat)) ;;
  let songs := songs_list (songs_by_id cat) in
  let new_songs_json_bytes := songs_json_bytes songs in
  env <~ getenv "STRICT_VERSIONING" "" ;;
  let strict := is_strict env in
  old_latest_bytes <~ _read_file_bytes (path_join DOCS_DIR LATEST_JSON_NAME) ;;
  old_songs_bytes <~ _read_file_bytes (path_join DOCS_DIR SONGS_JSON_NAME) ;;
  _ <~ lift (match strict, old_latest_bytes with
             | true, Some b =>
               versioning_gate b old_songs_bytes new_songs_json_bytes
                 (catalog_version cat) (base_media_url cat)
             | _, _ => ret tt
             end) ;;
  publish songs new_songs_json_bytes (catalog_version cat) (base_media_url cat).

(** The exit status of the process: [SystemExit] with a message and an
    uncaught exception both end it with status 1. *)
Definition exit_status (r : res unit) : Z :=
  match r with
  | inr _ => 0
  | inl _ => 1
  end.

(** ** Views of the input and of the run used in the statements *)

(** The keys of a song record, in the order of the dict literal. *)
Definition song_keys : list string :=
  [ "id"; "title"; "altTitles"; "hub"; "regionDetail"; "genre"; "themes";
    "cossackHost"; "languageTag"; "contextShort"; "lyrics"; "glossary";
    "sourceNote"; "audioUrl"; "minusUrl"; "videoUrl"; "rightsStatus";
    "externalLinks"; "versions" ].

(** The keys of a song record that hold a string. *)
Definition song_scalar_keys : list string :=
  [ "id"; "title"; "altTitles"; "hub"; "regionDetail"; "genre"; "cossackHost";
    "languageTag"; "contextShort"; "lyrics"; "sourceNote"; "audioUrl";
    "minusUrl"; "videoUrl"; "rightsStatus" ].

(** The ids of the non-blank rows of the songs sheet, in sheet order. *)
Definition song_row_ids (hs : gmap string nat) (rows : sheet) : list string :=
  omap (fun row => if blank_row row then None
                   else Some (_s (get_cell row hs "id"))) rows.

(** The records of the non-blank rows [rows] that [build] accepts for the
    song [k], in sheet order. *)
Definition rows_of (build : list cell -> res (string * pydict)) (k : string)
    (rows : sheet) : list json :=
  omap (fun row =>
          if blank_row row then None
          else match build row with
               | inr (song_id, record) =>
                 if String.eqb song_id k then Some (JObj record) else None
               | inl _ => None
               end) rows.

(** The song [song] with [extra] appended to the list under [key]. *)
Definition extend_list (key : string) (extra : list json) (song : pydict) : pydict :=
  match Dict.get key song with
  | Some (JArr l) => Dict.set key (JArr (l ++ extra)%list) song
  | _ => song
  end.

(** The time stamp [_now_iso_utc] returns in the world [w]. *)
Definition now_of (w : world) : string :=
  Str.replace "+00:00" "Z" (isoformat (clock w)).

(** The decision of the versioning gate for the catalog [cat] in the world
    [w]: the toggle, the two published files and the gate itself. *)
Definition gate_of `{PyRuntime} (w : world) (cat : catalog) : res unit :=
  match is_strict (default "" (environ w !! "STRICT_VERSIONING")),
        files w !! path_join DOCS_DIR LATEST_JSON_NAME with
  | true, Some b =>
    versioning_gate b (files w !! path_join DOCS_DIR SONGS_JSON_NAME)
      (songs_json_bytes (songs_list (songs_by_id cat)))
      (catalog_version cat) (base_media_url cat)
  | _, _ => ret tt
  end.

(** The files after a run that published [songs] and [latest]. *)
Definition published_files (fs : gmap string string) (songs latest : string)
  : gmap string string :=
  <[path_join DOCS_DIR LATEST_JSON_NAME := latest]>
    (<[path_join DOCS_DIR SONGS_JSON_NAME := songs]>
       (<[path_join DIST_DIR LATEST_JSON_NAME := latest]>
          (<[path_join DIST_DIR SONGS_JSON_NAME := songs]> fs))).


(** ** A runtime and inputs for evaluating the script on examples *)

(** The digits [s] without the zeros in front, one digit at least. *)
Fixpoint drop_zeros (s : string) : string :=
  match s with
  | String a (String _ _ as s') => if Ascii.eqb a "0" then drop_zeros s' else s
  | _ => s
  end.

(** The digits [s] without the zeros at the end, one digit at least. *)
Definition strip_zeros (s : string) : string :=
  String.rev (drop_zeros (String.rev s)).

(** [repr] of a float of moderate size whose decimal expansion is finite and
    short, such as 3.5 or -0.25: the expansion. *)
Definition short_float_repr (f : pyfloat) : string :=
  match f with
  | FNan => "nan"
  | FInf neg => if neg then "-inf" else "inf"
  | FZero neg => if neg then "-0.0" else "0.0"
  | FFinite neg m e =>
    let k := Z.to_nat (- e) in
    let n := if (0 <=? e)%Z then Z.pos m * 2 ^ e else Z.pos m * 5 ^ (- e) in
    (if neg then "-" else "") +:+ Str.of_Z (n / 10 ^ Z.of_nat k) +:+ "."
    +:+ strip_zeros (Str.zero_pad (Nat.max k 1) (n mod 10 ^ Z.of_nat k))
  end.

(** [repr] for text without quotes, backslashes or control characters. *)
Fixpoint simple_repr (v : json) : string :=
  match v with
  | JNull => "None"
  | JBool b => if b then "True" else "False"
  | JInt n => Str.of_Z n
  | JFloat f => short_float_repr f
  | JStr s => "'" +:+ s +:+ "'"
  | JArr l => "[" +:+ Str.join ", " (map simple_repr l) +:+ "]"
  | JObj o =>
    "{" +:+ Str.join ", "
              (map (fun kv => "'" +:+ fst kv +:+ "': " +:+ simple_repr (snd kv)) o)
    +:+ "}"
  end.

(** A runtime whose decoder knows the canonical text of the documents
    [docs] and rejects every other input, whose digest is the data itself
    (so it has no collisions), whose [int] reads ASCII literals and whose
    case mapping is the ASCII one. *)
Definition table_runtime (docs : list json) : PyRuntime := {|
  sha256_hexdigest := fun data => data;
  json_loads := fun data =>
    find (fun v => String.eqb (Json.dumps_at simple_repr 0 v) data) docs;
  int_of_str := Str.ascii_int;
  str_lower := Str.ascii_lower;
  py_repr := simple_repr;
  exn_str := fun _ => "invalid";
|}.

Definition noon : datetime :=
  {| year := 2026; month := 2; day := 9; hour := 12; minute := 34; second := 56 |}.

Definition midnight : datetime :=
  {| year := 2026; month := 2; day := 10; hour := 0; minute := 0; second := 0 |}.

(** The world of a run: the workbook, the published files, the strictness
    toggle and the time. *)
Definition world_of (wb : option workbook) (published : list (string * string))
    (strict : string) (now : datetime) : world :=
  {| input_xlsx := wb;
     files := list_to_map published;
     dirs := ∅;
     environ := {[ "STRICT_VERSIONING" := strict ]};
     clock := now;
     stdout := [] |}.

Definition songs_header : list cell :=
  [CStr "id"; CStr "title"; CStr "hub"; CStr "lyrics"; CStr "themes"].

Definition versions_header : list cell :=
  [CStr "songId"; CStr "id"; CStr "audioUrl"; CStr "title"].

Definition glossary_header : list cell :=
  [CStr "songId"; CStr "term"; CStr "definition"].

Definition book (version : Z) (base : string) (songs versions glossary : sheet)
  : workbook :=
  [ ("meta", [[CStr "catalogVersion"; CInt version]; [CStr "baseMediaUrl"; CStr base]]);
    ("songs", songs_header :: songs);
    ("versions", versions_header :: versions);
    ("glossary", glossary_header :: glossary) ].

Definition song_row (id title : string) : list cell :=
  [CStr id; CStr title; CStr "don"; CStr "la la"; CStr "x; y;;"].

(** Two songs in the order b, a, with a blank row between them. *)
Definition demo_songs : sheet :=
  [ song_row "b" "B"; [CNone; CStr " "; CNone; CNone; CNone]; song_row "a" "A" ].

Definition demo_versions : sheet :=
  [ [CStr "b"; CStr "v1"; CStr "u1"; CNone];
    [CStr "a"; CStr "v1"; CStr " "; CStr "T"];
    [CStr "b"; CStr "v2"; CNone; CNone] ].

Definition demo_glossary : sheet :=
  [ [CStr "b"; CStr "kuren"; CStr "d1"];
    [CStr "a"; CStr "Kuren"; CStr "d2"];
    [CStr "b"; CStr "baz"; CStr "d3"] ].

Definition demo_book (version : Z) (base : string) : workbook :=
  book version base demo_songs demo_versions demo_glossary.

(** The catalog of a workbook that reads, for use in examples. *)
Definition catalog_or_empty (r : res catalog) : catalog :=
  match r with
  | inr cat => cat
  | inl _ =>
    {| catalog_version := 0; base_media_url := ""; songs_by_id := ∅;
       warning_table := [] |}
  end.

(** The prefix of the message of an unreadable manifest. *)
Definition cannot_parse_latest : string :=
  "ERROR: STRICT_VERSIONING: cannot parse existing docs/latest.json: ".

(** ** Further views of the input used in the statements *)

(** The last element of [l] that satisfies [P], with its index. *)
Fixpoint last_match {A : Type} (P : A -> bool) (l : list A) : option (nat * A) :=
  match l with
  | [] => None
  | x :: l' =>
    match last_match P l' with
    | Some (j, y) => Some (S j, y)
    | None => if P x then Some (O, x) else None
    end
  end.

(** The key and the value of a row of the meta sheet. *)
Definition meta_key (row : list cell) : string :=
  match row with
  | c0 :: _ => _s c0
  | [] => ""
  end.

Definition meta_value (row : list cell) : string :=
  match row with
  | _ :: c1 :: _ => _s c1
  | _ => ""
  end.

(** The rows of the songs sheet the validator accepts. *)
Definition song_row_valid (hs : gmap string nat) (row : list cell) : Prop :=
  blank_row row = false ->
  _s (get_cell row hs "id") <> "" /\ _s (get_cell row hs "title") <> "" /\
  _s (get_cell row hs "hub") <> "" /\ _s (get_cell row hs "lyrics") <> "".


(** The version ids, and the normalised glossary terms, of the non-blank
    rows whose songId is [k], in sheet order. *)
Definition version_row_ids (hv : gmap string nat) (k : string) (rows : sheet)
  : list string :=
  omap (fun row =>
          if blank_row row then None
          else if String.eqb (_s (get_cell row hv "songId")) k
               then Some (_s (get_cell row hv "id")) else None) rows.

Definition glossary_row_terms `{PyRuntime} (hg : gmap string nat) (k : string)
    (rows : sheet) : list string :=
  omap (fun row =>
          if blank_row row then None
          else if String.eqb (_s (get_cell row hg "songId")) k
               then Some (str_lower (Str.strip (_s (get_cell row hg "term"))))
               else None) rows.

(** The rows of the versions and of the glossary sheet that pass the checks
    made on one row, for the songs [songs]. *)
Definition version_row_valid (hv : gmap string nat) (songs : gmap string pydict)
    (row : list cell) : Prop :=
  blank_row row = false ->
  _s (get_cell row hv "songId") <> "" /\ _s (get_cell row hv "id") <> "" /\
  is_Some (songs !! _s (get_cell row hv "songId")).

Definition glossary_row_valid (hg : gmap string nat) (songs : gmap string pydict)
    (row : list cell) : Prop :=
  blank_row row = false ->
  _s (get_cell row hg "songId") <> "" /\ _s (get_cell row hg "term") <> "" /\
  _s (get_cell row hg "definition") <> "" /\
  is_Some (songs !! _s (get_cell row hg "songId")).

(** A song record with a list under [key]. *)
Definition has_list (key : string) (song : pydict) : Prop :=
  exists l, Dict.get key song = Some (JArr l).

(** The rows as [openpyxl] yields them: every sheet has a first row and
    every row has a cell; a sheet without data yields one row of one empty
    cell. *)
Definition rows_as_read (wb : workbook) : Prop :=
  forall name ws, get_sheet wb name = inr ws -> ws <> [] /\ [] ∉ ws.

(** An exit through [_fail]. *)
Definition is_fail (e : pyexn) : Prop :=
  exists msg, e = SystemExit ("ERROR: " +:+ msg).

(** [d.get(k)] on a dict in insertion order, for any type of values. *)
Fixpoint alist_get {V : Type} (k : string) (d : list (string * V)) : option V :=
  match d with
  | [] => None
  | (k', v) :: d' => if String.eqb k' k then Some v else alist_get k d'
  end.

(** What the glossary loop hands to the warning table for the non-blank
    rows: the normalised term, the trimmed definition and the songId. *)
Definition glossary_triples `{PyRuntime} (hg : gmap string nat) (rows : sheet)
  : list (string * string * string) :=
  omap (fun row =>
          if blank_row row then None
          else Some (str_lower (Str.strip (_s (get_cell row hg "term"))),
                     Str.strip (_s (get_cell row hg "definition")),
                     _s (get_cell row hg "songId"))) rows.

(** One turn of the loop on the warning table. *)
Definition table_add (tbl : list (string * list (string * list string)))
    (x : string * string * string) : list (string * list (string * list string)) :=
  setdefault_update (fst (fst x)) []
    (setdefault_update (snd (fst x)) [] (fun ids => ids ++ [snd x])%list) tbl.

(** What the table holds after adding the triples [ts] to a table that
    holds the triples [seen]. *)
Definition table_holds (tbl : list (string * list (string * list string)))
    (seen : list (string * string * string)) : Prop :=
  NoDup tbl.*1 /\
  (forall t d s, (t, d, s) ∈ seen -> is_Some (alist_get t tbl)) /\
  forall t defs, alist_get t tbl = Some defs ->
    NoDup defs.*1 /\ forall d, d ∈ defs.*1 <-> exists s, (t, d, s) ∈ seen.


(** The first of [names] that [present] does not hold for. *)
Definition first_missing (present : string -> bool) (names : list string)
  : option string :=
  List.find (fun name => negb (present name)) names.

Definition has_column (h : gmap string nat) (col : string) : bool :=
  bool_decide (is_Some (h !! col)).

(** * Properties *)

Open Scope list_scope.

(** ** Dictionaries in insertion order *)

Lemma eqb_false_ne (a b : string) : a ≠ b → String.eqb a b = false.
Proof. intros Hne. by apply String.eqb_neq. Qed.

Lemma dict_get_set_eq k v d : Dict.get k (Dict.set k v d) = Some v.
Proof.
  induction d as [|[k' v'] d IH]; simpl.
  - by rewrite String.eqb_refl.
  - destruct (String.eqb k' k) eqn:E; simpl; rewrite E; auto.
Qed.

Lemma dict_get_set_ne k k' v d :
  k ≠ k' → Dict.get k' (Dict.set k v d) = Dict.get k' d.
Proof.
  intros Hne. induction d as [|[k0 v0] d IH]; simpl.
  - by rewrite eqb_false_ne.
  - destruct (String.eqb k0 k) eqn:E; simpl.
    + apply String.eqb_eq in E as ->. by rewrite eqb_false_ne.
    + by rewrite IH.
Qed.

Lemma dict_set_set k v1 v2 d : Dict.set k v2 (Dict.set k v1 d) = Dict.set k v2 d.
Proof.
  induction d as [|[k0 v0] d IH]; simpl.
  - by rewrite String.eqb_refl.
  - destruct (String.eqb k0 k) eqn:E; simpl; rewrite E; congruence.
Qed.

Lemma dict_set_id k v d : Dict.get k d = Some v → Dict.set k v d = d.
Proof.
  induction d as [|[k0 v0] d IH]; simpl; [done|].
  destruct (String.eqb k0 k); [by intros [= ->] | intros ?; by rewrite IH].
Qed.

Lemma dict_get_None k d : Dict.get k d = None ↔ k ∉ Dict.keys d.
Proof.
  unfold Dict.keys. induction d as [|[k0 v0] d IH]; simpl.
  - split; [intros _; apply not_elem_of_nil | done].
  - rewrite not_elem_of_cons. destruct (String.eqb_spec k0 k) as [->|Hne].
    + split; [done | intros [? _]; done].
    + rewrite IH. split; [intros ?; split; [congruence | done] | intros [_ ?]; done].
Qed.

Lemma dict_get_Some_keys k d : is_Some (Dict.get k d) ↔ k ∈ Dict.keys d.
Proof.
  rewrite <- not_eq_None_Some, dict_get_None.
  split; [apply dec_stable | auto].
Qed.

Lemma dict_keys_set_in k v d :
  k ∈ Dict.keys d → Dict.keys (Dict.set k v d) = Dict.keys d.
Proof.
  unfold Dict.keys. induction d as [|[k0 v0] d IH]; simpl.
  - intros H. by apply elem_of_nil in H.
  - intros H. destruct (String.eqb_spec k0 k) as [->|Hne]; simpl; [done|].
    apply elem_of_cons in H as [->|H]; [done|]. f_equal. by apply IH.
Qed.

Lemma dict_keys_set_new k v d :
  k ∉ Dict.keys d → Dict.keys (Dict.set k v d) = (Dict.keys d ++ [k])%list.
Proof.
  unfold Dict.keys. induction d as [|[k0 v0] d IH]; simpl; [done|].
  intros H. apply not_elem_of_cons in H as [Hne H].
  rewrite eqb_false_ne by done. simpl. f_equal. by apply IH.
Qed.

(** ** The error monad *)

Lemma bind_inr {A B} (m : res A) (k : A → res B) b :
  bind m k = inr b → ∃ a, m = inr a ∧ k a = inr b.
Proof. destruct m as [e|a]; simpl; [done | eauto]. Qed.

Lemma bind_inl {A B} (m : res A) (k : A → res B) e :
  bind m k = inl e → m = inl e ∨ ∃ a, m = inr a ∧ k a = inl e.
Proof. destruct m as [e'|a]; simpl; [left; congruence | eauto]. Qed.

(** ** The order on strings *)

Lemma ascii_compare_refl c : Ascii.compare c c = Eq.
Proof. unfold Ascii.compare. apply N.compare_refl. Qed.

Lemma ascii_compare_eq c d : Ascii.compare c d = Eq → c = d.
Proof.
  unfold Ascii.compare. intros H%N.compare_eq.
  rewrite <- (ascii_N_embedding c), <- (ascii_N_embedding d). by rewrite H.
Qed.

Lemma string_compare_trans_le a : ∀ b c,
  String.compare a b ≠ Gt → String.compare b c ≠ Gt → String.compare a c ≠ Gt.
Proof.
  induction a as [|x a IH]; intros [|y b] [|z c]; simpl; try done.
  unfold Ascii.compare.
  destruct (N.compare_spec (N_of_ascii x) (N_of_ascii y)) as [Exy|Lxy|Gxy];
    destruct (N.compare_spec (N_of_ascii y) (N_of_ascii z)) as [Eyz|Lyz|Gyz];
    destruct (N.compare_spec (N_of_ascii x) (N_of_ascii z)) as [Exz|Lxz|Gxz];
    try done; try lia; eauto.
Qed.

#[global] Instance str_le_trans : Transitive str_le.
Proof.
  intros a b c. unfold str_le, String.leb. intros Hab Hbc.
  pose proof (string_compare_trans_le a b c) as H.
  destruct (String.compare a b), (String.compare b c), (String.compare a c);
    try done; exfalso; by apply H.
Qed.

#[global] Instance str_le_total : Total str_le.
Proof. intros a b. apply String.leb_total. Qed.

#[global] Instance str_le_antisym : AntiSymm eq str_le.
Proof. intros a b. apply String.leb_antisym. Qed.

Lemma sorted_strongly (l : list string) : StronglySorted str_le (sorted l).
Proof. apply StronglySorted_merge_sort; apply _. Qed.

Lemma sorted_perm (l : list string) : sorted l ≡ₚ l.
Proof. apply merge_sort_Permutation. Qed.

(** ** Row validators *)

Lemma nonempty_true s : Str.nonempty s = true ↔ s ≠ "".
Proof. destruct s; simpl; split; congruence. Qed.

Lemma nonempty_false s : Str.nonempty s = false ↔ s = "".
Proof. destruct s; simpl; split; congruence. Qed.

Lemma version_put_get_other row h ver k k' :
  k ≠ k' → Dict.get k' (version_put row h ver k) = Dict.get k' ver.
Proof.
  intros Hne. unfold version_put.
  destruct (_opt (get_cell row h k)); [by apply dict_get_set_ne | done].
Qed.

Lemma version_put_get_same row h ver k :
  Dict.get k (version_put row h ver k) =
  match _opt (get_cell row h k) with
  | Some v => Some (JStr v)
  | None => Dict.get k ver
  end.
Proof.
  unfold version_put.
  destruct (_opt (get_cell row h k)); [apply dict_get_set_eq | done].
Qed.

Lemma fold_version_put_other row h ks : ∀ ver k',
  k' ∉ ks →
  Dict.get k' (fold_left (version_put row h) ks ver) = Dict.get k' ver.
Proof.
  induction ks as [|k ks IH]; intros ver k' Hnotin; simpl; [done|].
  apply not_elem_of_cons in Hnotin as [Hne Hnotin].
  rewrite IH by done. by apply version_put_get_other.
Qed.

Lemma fold_version_put_in row h ks : ∀ ver k,
  NoDup ks → k ∈ ks →
  Dict.get k (fold_left (version_put row h) ks ver) =
  match _opt (get_cell row h k) with
  | Some v => Some (JStr v)
  | None => Dict.get k ver
  end.
Proof.
  induction ks as [|k0 ks IH]; intros ver k Hnd Hin; simpl.
  - by apply elem_of_nil in Hin.
  - apply NoDup_cons in Hnd as [Hk0 Hnd].
    apply elem_of_cons in Hin as [->|Hin].
    + rewrite fold_version_put_other by done. apply version_put_get_same.
    + rewrite IH by done.
      destruct (_opt (get_cell row h k)); [done|].
      apply version_put_get_other. intros ->. done.
Qed.

Lemma version_optional_keys_NoDup : NoDup version_optional_keys.
Proof. compute_done. Qed.

(** What [build_version_dict] returns when it returns. *)
Lemma build_version_dict_inr row h song_id ver :
  build_version_dict row h = inr (song_id, ver) →
  song_id = _s (get_cell row h "songId") ∧ song_id ≠ "" ∧
  _s (get_cell row h "id") ≠ "" ∧
  ver = fold_left (version_put row h) version_optional_keys
          [("id", JStr (_s (get_cell row h "id")))].
Proof.
  unfold build_version_dict.
  destruct (Str.nonempty (_s (get_cell row h "songId"))) eqn:E1; simpl; [|done].
  destruct (Str.nonempty (_s (get_cell row h "id"))) eqn:E2; simpl; [|done].
  intros [= <- <-]. by rewrite <- !nonempty_true.
Qed.

Lemma build_version_dict_id row h song_id ver :
  build_version_dict row h = inr (song_id, ver) →
  str_item ver "id" = inr (_s (get_cell row h "id")).
Proof.
  intros (_ & _ & _ & ->)%build_version_dict_inr. unfold str_item.
  rewrite fold_version_put_other; [done|].
  compute_done.
Qed.

Lemma build_glossary_item_inr row h song_id item :
  build_glossary_item row h = inr (song_id, item) →
  song_id = _s (get_cell row h "songId") ∧ song_id ≠ "" ∧
  item = [("term", JStr (_s (get_cell row h "term")));
          ("definition", JStr (_s (get_cell row h "definition")))].
Proof.
  unfold build_glossary_item.
  destruct (Str.nonempty (_s (get_cell row h "songId"))) eqn:E1; simpl; [|done].
  destruct (Str.nonempty (_s (get_cell row h "term"))) eqn:E2; simpl; [|done].
  destruct (Str.nonempty (_s (get_cell row h "definition"))) eqn:E3; simpl; [|done].
  intros [= <- <-]. by rewrite <- !nonempty_true.
Qed.

(** What [build_song_dict] returns when it returns: the dict literal. *)
Lemma build_song_dict_inr row h song :
  build_song_dict row h = inr song →
  _s (get_cell row h "id") ≠ "" ∧
  Dict.keys song = song_keys ∧
  Dict.get "glossary" song = Some (JArr []) ∧
  Dict.get "versions" song = Some (JArr []) ∧
  ∀ k, k ∈ song_scalar_keys →
    Dict.get k song =
    Some (JStr (if decide (k = "languageTag")
                then str_or (_s (get_cell row h k)) "русский"
                else if decide (k = "rightsStatus")
                then str_or (_s (get_cell row h k)) "NONE"
                else _s (get_cell row h k))).
Proof.
  unfold build_song_dict.
  destruct (Str.nonempty (_s (get_cell row h "id"))) eqn:E1; simpl; [|done].
  destruct (Str.nonempty (_s (get_cell row h "title"))) eqn:E2; simpl; [|done].
  destruct (Str.nonempty (_s (get_cell row h "hub"))) eqn:E3; simpl; [|done].
  destruct (Str.nonempty (_s (get_cell row h "lyrics"))) eqn:E4; simpl; [|done].
  intros [= <-]. split; [by apply nonempty_true|].
  split; [done|]. split; [done|]. split; [done|].
  intros k Hk. unfold song_scalar_keys in Hk.
  repeat (apply elem_of_cons in Hk as [->|Hk]; [reflexivity|]).
  by apply elem_of_nil in Hk.
Qed.

Lemma build_song_dict_id row h song :
  build_song_dict row h = inr song →
  str_item song "id" = inr (_s (get_cell row h "id")).
Proof.
  intros (_ & _ & _ & _ & Hget)%build_song_dict_inr. unfold str_item.
  rewrite (Hget "id"); [done|]. compute_done.
Qed.

(** ** The loops over the data sheets *)

Lemma for_rows_app {S} (body : Z → list cell → S → res S) pre : ∀ rows i st,
  for_rows body i (pre ++ rows) st =
  bind (for_rows body i pre st)
       (for_rows body (i + Z.of_nat (List.length pre)) rows).
Proof.
  induction pre as [|row pre IH]; intros rows i st; simpl.
  - by rewrite Z.add_0_r.
  - destruct (if blank_row row then ret st else body i row st) as [e|st']; simpl;
      [done|].
    rewrite IH. do 2 f_equal. lia.
Qed.

(** A loop that raises does so in the body, at the first row that fails. *)
Lemma for_rows_inl {S} (body : Z → list cell → S → res S) rows : ∀ i st e,
  for_rows body i rows st = inl e →
  ∃ pre row post st',
    rows = pre ++ row :: post ∧ for_rows body i pre st = inr st' ∧
    blank_row row = false ∧
    body (i + Z.of_nat (List.length pre)) row st' = inl e.
Proof.
  induction rows as [|row rows IH]; intros i st e; simpl; [done|].
  intros [Hrow|(st1 & Hrow & Hrun)]%bind_inl.
  - destruct (blank_row row) eqn:Hnb; [done|].
    exists [], row, rows, st. simpl. rewrite Z.add_0_r. done.
  - destruct (IH _ _ _ Hrun) as (pre & r & post & st' & -> & Hpre & Hnb & Hbody).
    exists (row :: pre), r, post, st'. simpl. rewrite Hrow. simpl.
    repeat split; [done..|].
    rewrite <- Hbody. f_equal. lia.
Qed.

Lemma for_each_inl {A} (f : A → res unit) l e :
  for_each f l = inl e → ∃ x, x ∈ l ∧ f x = inl e.
Proof.
  induction l as [|x l IH]; simpl; [done|].
  intros [Hx|(u & _ & Hl)]%bind_inl.
  - exists x. split; [apply list_elem_of_here | done].
  - destruct (IH Hl) as (y & Hy & Hfy). exists y.
    split; [by apply list_elem_of_further | done].
Qed.


Lemma list_append_inr song key v song' :
  list_append song key v = inr song' →
  ∃ l, Dict.get key song = Some (JArr l) ∧
       song' = Dict.set key (JArr (l ++ [v])) song.
Proof.
  unfold list_append. destruct (Dict.get key song) as [[]|]; try done.
  intros [= <-]. eauto.
Qed.

(** Appending [v] and then [extra] is appending [v :: extra]. *)
Lemma extend_list_append song key v song' extra :
  list_append song key v = inr song' →
  extend_list key extra song' = extend_list key (v :: extra) song.
Proof.
  intros (l & Hl & ->)%list_append_inr. unfold extend_list.
  rewrite dict_get_set_eq, Hl, dict_set_set. by rewrite <- app_assoc.
Qed.

Lemma rows_of_cons build k row rows :
  rows_of build k (row :: rows) =
  (if blank_row row then []
   else match build row with
        | inr (song_id, record) =>
          if String.eqb song_id k then [JObj record] else []
        | inl _ => []
        end) ++ rows_of build k rows.
Proof.
  unfold rows_of. simpl. destruct (blank_row row); [done|].
  destruct (build row) as [e|[sid rec]]; [done|].
  by destruct (String.eqb sid k).
Qed.

(** The songs loop keeps what the map held, adds the songs of the rows
    under their ids, and its keys are the ids of the rows. *)
Lemma songs_loop_spec hs rows : ∀ i m0 m,
  for_rows (song_step hs) i rows m0 = inr m →
  (map_to_list m).*1 ≡ₚ (song_row_ids hs rows ++ (map_to_list m0).*1)%list ∧
  ∀ k song, m !! k = Some song →
    m0 !! k = Some song ∨
    ∃ row, row ∈ rows ∧ blank_row row = false ∧
           build_song_dict row hs = inr song ∧ _s (get_cell row hs "id") = k.
Proof.
  induction rows as [|row rows IH]; intros i m0 m; simpl.
  - intros [= <-]. split; [done | auto].
  - unfold song_row_ids. simpl. fold (song_row_ids hs rows).
    destruct (blank_row row) eqn:Hblank; simpl.
    + intros H. destruct (IH _ _ _ H) as [Hperm Hlook]. split; [done|].
      intros k song Hk. destruct (Hlook k song Hk) as [?|(r & ? & ?)]; [by left|].
      right. exists r. split; [by apply list_elem_of_further | done].
    + intros H. apply bind_inr in H as (m1 & Hstep & H).
      unfold song_step in Hstep.
      apply bind_inr in Hstep as (song1 & Hbuild & Hstep).
      rewrite (build_song_dict_id _ _ _ Hbuild) in Hstep. simpl in Hstep.
      destruct (m0 !! _s (get_cell row hs "id")) eqn:Hfresh; [done|].
      injection Hstep as <-.
      destruct (IH _ _ _ H) as [Hperm Hlook]. split.
      * rewrite Hperm, map_to_list_insert by done. simpl.
        by rewrite Permutation_middle.
      * intros k song Hk. destruct (Hlook k song Hk) as [Hk1|(r & ? & ?)].
        -- destruct (decide (_s (get_cell row hs "id") = k)) as [<-|Hne].
           ++ rewrite lookup_insert_eq in Hk1. injection Hk1 as <-.
              right. exists row. split; [apply list_elem_of_here | done].
           ++ rewrite lookup_insert_ne in Hk1 by done. by left.
        -- right. exists r. split; [by apply list_elem_of_further | done].
Qed.

(** The versions loop appends to each song the version records of its rows,
    in sheet order, and touches nothing else. *)
Lemma extend_list_none key song : extend_list key [] song = song.
Proof.
  unfold extend_list. destruct (Dict.get key song) as [[]|] eqn:E; try done.
  rewrite app_nil_r. by apply dict_set_id.
Qed.

Lemma versions_loop_spec hv rows : ∀ i st0 st,
  for_rows (version_step hv) i rows st0 = inr st →
  ∀ k, vs_songs st !! k =
       extend_list "versions" (rows_of (fun r => build_version_dict r hv) k rows)
         <$> vs_songs st0 !! k.
Proof.
  induction rows as [|row rows IH]; intros i st0 st H k.
  - injection H as <-. destruct (vs_songs st0 !! k) as [song|]; simpl; [|done].
    f_equal. symmetry. apply extend_list_none.
  - rewrite rows_of_cons. simpl in H.
    destruct (blank_row row) eqn:Hblank; simpl in *; [by eapply IH|].
    apply bind_inr in H as (st1 & Hstep & H).
    rewrite (IH _ _ _ H k). clear IH H.
    unfold version_step in Hstep.
    apply bind_inr in Hstep as ([sid ver] & Hbuild & Hstep). simpl in Hstep.
    rewrite Hbuild.
    destruct (vs_songs st0 !! sid) as [song|] eqn:Hsong; [|done].
    rewrite (build_version_dict_id _ _ _ _ Hbuild) in Hstep. simpl in Hstep.
    case_bool_decide; [done|].
    apply bind_inr in Hstep as (song' & Happ & [= <-]). simpl.
    destruct (String.eqb_spec sid k) as [<-|Hne].
    + rewrite lookup_insert_eq, Hsong. simpl. f_equal.
      by apply extend_list_append.
    + by rewrite lookup_insert_ne.
Qed.

Lemma glossary_loop_spec `{PyRuntime} hg rows : ∀ i st0 st,
  for_rows (glossary_step hg) i rows st0 = inr st →
  ∀ k, gs_songs st !! k =
       extend_list "glossary" (rows_of (fun r => build_glossary_item r hg) k rows)
         <$> gs_songs st0 !! k.
Proof.
  induction rows as [|row rows IH]; intros i st0 st Hrun k.
  - injection Hrun as <-. destruct (gs_songs st0 !! k) as [song|]; simpl; [|done].
    f_equal. symmetry. apply extend_list_none.
  - rewrite rows_of_cons. simpl in Hrun.
    destruct (blank_row row) eqn:Hblank; simpl in *; [by eapply IH|].
    apply bind_inr in Hrun as (st1 & Hstep & Hrun).
    rewrite (IH _ _ _ Hrun k). clear IH Hrun.
    unfold glossary_step in Hstep.
    apply bind_inr in Hstep as ([sid item] & Hbuild & Hstep). simpl in Hstep.
    rewrite Hbuild.
    destruct (gs_songs st0 !! sid) as [song|] eqn:Hsong; [|done].
    apply bind_inr in Hstep as (term & _ & Hstep).
    apply bind_inr in Hstep as (defn & _ & Hstep).
    case_bool_decide; [done|].
    apply bind_inr in Hstep as (song' & Happ & [= <-]). simpl.
    destruct (String.eqb_spec sid k) as [<-|Hne].
    + rewrite lookup_insert_eq, Hsong. simpl. f_equal.
      by apply extend_list_append.
    + by rewrite lookup_insert_ne.
Qed.

(** A loop that returns has found the song of every non-blank row. *)
Lemma versions_loop_known hv rows : ∀ i st0 st,
  for_rows (version_step hv) i rows st0 = inr st →
  ∀ row, row ∈ rows → blank_row row = false →
    is_Some (vs_songs st0 !! _s (get_cell row hv "songId")).
Proof.
  induction rows as [|row0 rows IH]; intros i st0 st Hrun row Hin Hnb.
  - by apply elem_of_nil in Hin.
  - simpl in Hrun. apply bind_inr in Hrun as (st1 & Hstep & Hrun).
    assert (∀ k, is_Some (vs_songs st1 !! k) → is_Some (vs_songs st0 !! k)) as Hdom.
    { intros k. pose proof (versions_loop_spec hv [row0] i st0 st1) as Hs.
      simpl in Hs. rewrite Hstep in Hs. rewrite (Hs eq_refl k).
      by rewrite fmap_is_Some. }
    apply elem_of_cons in Hin as [->|Hin]; [|by eauto].
    rewrite Hnb in Hstep. unfold version_step in Hstep.
    apply bind_inr in Hstep as ([sid ver] & Hbuild & Hstep). simpl in Hstep.
    apply build_version_dict_inr in Hbuild as (<- & _).
    destruct (vs_songs st0 !! sid); [eauto | done].
Qed.

Lemma glossary_loop_known `{PyRuntime} hg rows : ∀ i st0 st,
  for_rows (glossary_step hg) i rows st0 = inr st →
  ∀ row, row ∈ rows → blank_row row = false →
    is_Some (gs_songs st0 !! _s (get_cell row hg "songId")).
Proof.
  induction rows as [|row0 rows IH]; intros i st0 st Hrun row Hin Hnb.
  - by apply elem_of_nil in Hin.
  - simpl in Hrun. apply bind_inr in Hrun as (st1 & Hstep & Hrun).
    assert (∀ k, is_Some (gs_songs st1 !! k) → is_Some (gs_songs st0 !! k)) as Hdom.
    { intros k. pose proof (glossary_loop_spec hg [row0] i st0 st1) as Hs.
      simpl in Hs. rewrite Hstep in Hs. rewrite (Hs eq_refl k).
      by rewrite fmap_is_Some. }
    apply elem_of_cons in Hin as [->|Hin]; [|by eauto].
    rewrite Hnb in Hstep. unfold glossary_step in Hstep.
    apply bind_inr in Hstep as ([sid item] & Hbuild & Hstep). simpl in Hstep.
    apply build_glossary_item_inr in Hbuild as (<- & _).
    destruct (gs_songs st0 !! sid); [eauto | done].
Qed.

(** ** The console and the file system *)

Lemma for_each_warn lines : ∀ w,
  for_each_M _warn lines w =
  (inr tt, with_stdout w (stdout w ++ (String.append "WARNING: " <$> lines))).
Proof.
  induction lines as [|line lines IH]; intros w; simpl.
  - unfold mret, with_stdout. rewrite app_nil_r. by destruct w.
  - unfold mbind, _warn, print. simpl. rewrite IH. unfold with_stdout. simpl.
    by rewrite <- app_assoc.
Qed.

Lemma mbind_run {A B} (m : M A) (k : A → M B) w a w' :
  m w = (inr a, w') → mbind m k w = k a w'.
Proof. unfold mbind. by intros ->. Qed.

Lemma mbind_raise {A B} (m : M A) (k : A → M B) w e w' :
  m w = (inl e, w') → mbind m k w = (inl e, w').
Proof. unfold mbind. by intros ->. Qed.

Lemma copyfile_found src dst data w :
  files w !! src = Some data →
  copyfile src dst w = (inr tt, with_files w (<[dst := data]> (files w))).
Proof. unfold copyfile, write_file. by intros ->. Qed.

(** [publish] never raises: it writes the four files and prints. *)
Lemma publish_spec `{PyRuntime} songs new_bytes version base w :
  ∃ out,
    publish songs new_bytes version base w =
    (inr tt,
     with_stdout
       (with_dirs
          (with_files w
             (published_files (files w) new_bytes
                (Json.dumps (JObj (manifest_of version (now_of w) base)))))
          ({[DOCS_DIR]} ∪ ({[DIST_DIR]} ∪ dirs w)))
       out).
Proof.
  unfold publish.
  rewrite (mbind_run (makedirs _) _ _ tt _ eq_refl).
  rewrite (mbind_run (makedirs _) _ _ tt _ eq_refl).
  rewrite (mbind_run (write_file _ _) _ _ tt _ eq_refl).
  rewrite (mbind_run _now_iso_utc _ _ _ _ eq_refl).
  rewrite (mbind_run (write_file _ _) _ _ tt _ eq_refl).
  erewrite (mbind_run (copyfile _ _));
    [|apply copyfile_found; simpl; rewrite lookup_insert_ne by done;
      apply lookup_insert_eq].
  erewrite (mbind_run (copyfile _ _));
    [|apply copyfile_found; simpl; rewrite lookup_insert_ne by done;
      apply lookup_insert_eq].
  rewrite (mbind_run (print _) _ _ tt _ eq_refl).
  rewrite (mbind_run (print _) _ _ tt _ eq_refl).
  rewrite (mbind_run (print _) _ _ tt _ eq_refl).
  unfold _warn, print, published_files, now_of.
  destruct (Str.nonempty base); eexists; reflexivity.
Qed.

(** ** [main], stage by stage *)

Lemma main_no_input `{PyRuntime} w :
  input_xlsx w = None →
  main w = (_fail ("Input file not found: " +:+ INPUT_XLSX), w).
Proof. intros Hin. unfold main, mbind, load_input. by rewrite Hin. Qed.

Lemma main_read_fails `{PyRuntime} w wb e :
  input_xlsx w = Some wb → read_catalog wb = inl e → main w = (inl e, w).
Proof.
  intros Hin Hread. unfold main, mbind, load_input, lift. rewrite Hin. simpl.
  by rewrite Hread.
Qed.

(** After the workbook is read, [main] prints the warnings, asks the gate
    and publishes. *)
Lemma main_run `{PyRuntime} w wb cat :
  input_xlsx w = Some wb → read_catalog wb = inr cat →
  main w =
  let w1 := with_stdout w (stdout w ++ (String.append "WARNING: "
                                          <$> term_warnings (warning_table cat))) in
  match gate_of w cat with
  | inl e => (inl e, w1)
  | inr _ =>
    publish (songs_list (songs_by_id cat))
      (songs_json_bytes (songs_list (songs_by_id cat)))
      (catalog_version cat) (base_media_url cat) w1
  end.
Proof.
  intros Hin Hread. unfold main.
  rewrite (mbind_run load_input _ w wb w) by (unfold load_input; by rewrite Hin).
  rewrite (mbind_run (lift _) _ w cat w) by (unfold lift; by rewrite Hread).
  rewrite (mbind_run (for_each_M _ _) _ _ _ _ (for_each_warn _ _)).
  rewrite (mbind_run (getenv _ _) _ _ _ _ eq_refl).
  rewrite (mbind_run (_read_file_bytes _) _ _ _ _ eq_refl).
  rewrite (mbind_run (_read_file_bytes _) _ _ _ _ eq_refl).
  unfold gate_of, mbind, lift. cbn [environ files with_stdout].
  destruct (is_strict (default "" (environ w !! "STRICT_VERSIONING")));
    [|done].
  destruct (files w !! path_join DOCS_DIR LATEST_JSON_NAME); [|done].
  by destruct (versioning_gate _ _ _ _ _).
Qed.

(** A run that returns has read the workbook, passed the gate and
    published. *)
Lemma main_returns `{PyRuntime} w w' :
  main w = (inr tt, w') →
  ∃ wb cat,
    input_xlsx w = Some wb ∧ read_catalog wb = inr cat ∧
    gate_of w cat = inr tt ∧
    files w' =
    published_files (files w) (songs_json_bytes (songs_list (songs_by_id cat)))
      (Json.dumps (JObj (manifest_of (catalog_version cat) (now_of w)
                                     (base_media_url cat)))).
Proof.
  intros Hmain. destruct (input_xlsx w) as [wb|] eqn:Hin;
    [|by rewrite main_no_input in Hmain].
  destruct (read_catalog wb) as [e|cat] eqn:Hread;
    [by rewrite (main_read_fails w wb e) in Hmain|].
  rewrite (main_run w wb cat Hin Hread) in Hmain. cbv zeta in Hmain.
  destruct (gate_of w cat) as [e|[]] eqn:Hgate; [done|].
  destruct (publish_spec (songs_list (songs_by_id cat))
              (songs_json_bytes (songs_list (songs_by_id cat)))
              (catalog_version cat) (base_media_url cat)
              (with_stdout w (stdout w ++ (String.append "WARNING: "
                 <$> term_warnings (warning_table cat))))) as [out Hpub].
  rewrite Hpub in Hmain. injection Hmain as <-.
  exists wb, cat. by repeat split.
Qed.

(** C2: whenever the run ends by raising, through [_fail] for any of the
    fatal conditions or through an exception nobody catches, the exit status
    is not zero and no file and no directory has been written: the files and
    directories are those the run started with. *)
Theorem main_abort_writes_nothing `{PyRuntime} (w w' : world) (e : pyexn) :
  main w = (inl e, w') →
  exit_status (inl e) ≠ 0 ∧ files w' = files w ∧ dirs w' = dirs w.
Proof.
  intros Hmain. split; [done|].
  destruct (input_xlsx w) as [wb|] eqn:Hin.
  - destruct (read_catalog wb) as [e'|cat] eqn:Hread.
    + rewrite (main_read_fails w wb e') in Hmain by done.
      by injection Hmain as _ <-.
    + rewrite (main_run w wb cat Hin Hread) in Hmain. cbv zeta in Hmain.
      destruct (gate_of w cat) as [e'|[]].
      * by injection Hmain as _ <-.
      * destruct (publish_spec (songs_list (songs_by_id cat))
              (songs_json_bytes (songs_list (songs_by_id cat)))
              (catalog_version cat) (base_media_url cat)
              (with_stdout w (stdout w ++ (String.append "WARNING: "
                 <$> term_warnings (warning_table cat))))) as [out Hpub].
        by rewrite Hpub in Hmain.
  - rewrite main_no_input in Hmain by done. by injection Hmain as _ <-.
Qed.

(** The gate stops a strict run of the demo workbook whose content differs
    from the published one under the same version. *)
Lemma main_abort_writes_nothing_witness :
  let RT := table_runtime [JObj (manifest_of 3 "2026-01-01T00:00:00Z" "https://m/")] in
  let w := world_of (Some (demo_book 3 "https://cdn/"))
             [("docs/latest.json",
               Json.dumps (JObj (manifest_of 3 "2026-01-01T00:00:00Z" "https://m/")))]
             "1" noon in
  exit_status (inl (SystemExit
    ("ERROR: " +:+ gate_message 3 3
       ["baseMediaUrl changed ('https://m/' -> 'https://cdn/')"]))) ≠ 0
  ∧ files (snd (main w)) = files w ∧ dirs (snd (main w)) = dirs w.
Proof.
  intros RT w.
  apply (main_abort_writes_nothing (H := RT) w (snd (main w))).
  vm_compute. reflexivity.
Defined.

(** C3: two runs over the same workbook that both return write the same
    bytes to [songs.json], in [dist/] and in [docs/], whatever the clock, the
    environment and the files present; their manifests are the same record
    up to [publishedAt], which is the time of each run. *)
Theorem songs_json_deterministic `{PyRuntime} (w1 w2 w1' w2' : world) :
  input_xlsx w1 = input_xlsx w2 →
  main w1 = (inr tt, w1') →
  main w2 = (inr tt, w2') →
  ∃ songs version base,
    files w1' !! "dist/songs.json" = Some songs ∧
    files w2' !! "dist/songs.json" = Some songs ∧
    files w1' !! "docs/songs.json" = Some songs ∧
    files w2' !! "docs/songs.json" = Some songs ∧
    files w1' !! "docs/latest.json" =
      Some (Json.dumps (JObj (manifest_of version (now_of w1) base))) ∧
    files w2' !! "docs/latest.json" =
      Some (Json.dumps (JObj (manifest_of version (now_of w2) base))).
Proof.
  intros Hin (wb1 & cat1 & Hin1 & Hread1 & _ & Hf1)%main_returns
             (wb2 & cat2 & Hin2 & Hread2 & _ & Hf2)%main_returns.
  assert (wb1 = wb2) as <- by congruence.
  assert (cat1 = cat2) as <- by congruence.
  exists (songs_json_bytes (songs_list (songs_by_id cat1))),
         (catalog_version cat1), (base_media_url cat1).
  rewrite Hf1, Hf2. unfold published_files.
  cbv [path_join DIST_DIR DOCS_DIR SONGS_JSON_NAME LATEST_JSON_NAME String.append].
  repeat split;
    repeat (first [apply lookup_insert_eq | rewrite lookup_insert_ne by done]).
Qed.

Lemma songs_json_deterministic_witness :
  let RT := table_runtime [] in
  let w1 := world_of (Some (demo_book 3 "https://m/")) [] "" noon in
  let w2 := world_of (Some (demo_book 3 "https://m/"))
              [("docs/songs.json", "[]")] "off" midnight in
  ∃ songs version base,
    files (snd (main w1)) !! "dist/songs.json" = Some songs ∧
    files (snd (main w2)) !! "dist/songs.json" = Some songs ∧
    files (snd (main w1)) !! "docs/songs.json" = Some songs ∧
    files (snd (main w2)) !! "docs/songs.json" = Some songs ∧
    files (snd (main w1)) !! "docs/latest.json" =
      Some (Json.dumps (JObj (manifest_of version (now_of w1) base))) ∧
    files (snd (main w2)) !! "docs/latest.json" =
      Some (Json.dumps (JObj (manifest_of version (now_of w2) base))).
Proof.
  intros RT w1 w2.
  apply (songs_json_deterministic (H := RT) w1 w2 (snd (main w1)) (snd (main w2)));
    vm_compute; reflexivity.
Defined.

(** ** The catalog that [read_catalog] returns *)

Lemma read_catalog_inr `{PyRuntime} wb cat :
  read_catalog wb = inr cat →
  ∃ ws_s ws_v ws_g songs0 songs1 st,
    get_sheet wb "songs" = inr ws_s ∧
    get_sheet wb "versions" = inr ws_v ∧
    get_sheet wb "glossary" = inr ws_g ∧
    read_songs ws_s = inr songs0 ∧
    read_versions ws_v songs0 = inr songs1 ∧
    read_glossary ws_g songs1 = inr st ∧
    songs_by_id cat = gs_songs st.
Proof.
  unfold read_catalog. intros Hread.
  apply bind_inr in Hread as (_ & _ & Hread).
  apply bind_inr in Hread as (ws_meta & _ & Hread).
  apply bind_inr in Hread as (meta & _ & Hread).
  apply bind_inr in Hread as (version & _ & Hread).
  apply bind_inr in Hread as (ws_s & Hs & Hread).
  apply bind_inr in Hread as (songs0 & Hsongs & Hread).
  apply bind_inr in Hread as (ws_v & Hv & Hread).
  apply bind_inr in Hread as (songs1 & Hversions & Hread).
  apply bind_inr in Hread as (ws_g & Hg & Hread).
  apply bind_inr in Hread as (st & Hglossary & [= <-]).
  by exists ws_s, ws_v, ws_g, songs0, songs1, st.
Qed.

Lemma read_songs_inr ws songs hs :
  read_songs ws = inr songs → sheet_headers ws = inr hs →
  for_rows (song_step hs) 2 (iter_rows 2 ws) ∅ = inr songs.
Proof.
  unfold read_songs. intros Hread Hh. rewrite Hh in Hread. simpl in Hread.
  apply bind_inr in Hread as (_ & _ & Hread).
  apply bind_inr in Hread as (m & Hloop & Hread).
  by case_bool_decide; [|injection Hread as <-].
Qed.

Lemma read_versions_inr ws songs0 songs1 hv :
  read_versions ws songs0 = inr songs1 → sheet_headers ws = inr hv →
  ∃ st, for_rows (version_step hv) 2 (iter_rows 2 ws)
          {| vs_songs := songs0; version_ids_per_song := ∅ |} = inr st ∧
        songs1 = vs_songs st.
Proof.
  unfold read_versions. intros Hread Hh. rewrite Hh in Hread. simpl in Hread.
  apply bind_inr in Hread as (_ & _ & Hread).
  apply bind_inr in Hread as (st & Hloop & [= <-]). eauto.
Qed.

Lemma read_glossary_inr `{PyRuntime} ws songs1 st hg :
  read_glossary ws songs1 = inr st → sheet_headers ws = inr hg →
  for_rows (glossary_step hg) 2 (iter_rows 2 ws)
    {| gs_songs := songs1; terms_per_song := ∅; term_defs_global := [] |} = inr st.
Proof.
  unfold read_glossary. intros Hread Hh. rewrite Hh in Hread. simpl in Hread.
  by apply bind_inr in Hread as (_ & _ & Hread).
Qed.

(** The songs of the catalog: one per non-blank row of the songs sheet,
    filed under the id of the row, with the version and glossary records of
    the song in the order of their sheets. *)
Lemma catalog_songs `{PyRuntime} wb cat ws_s ws_v ws_g hs hv hg :
  read_catalog wb = inr cat →
  get_sheet wb "songs" = inr ws_s → sheet_headers ws_s = inr hs →
  get_sheet wb "versions" = inr ws_v → sheet_headers ws_v = inr hv →
  get_sheet wb "glossary" = inr ws_g → sheet_headers ws_g = inr hg →
  (map_to_list (songs_by_id cat)).*1 ≡ₚ song_row_ids hs (iter_rows 2 ws_s) ∧
  ∀ k song, songs_by_id cat !! k = Some song →
    ∃ row song0,
      row ∈ iter_rows 2 ws_s ∧ blank_row row = false ∧
      build_song_dict row hs = inr song0 ∧ _s (get_cell row hs "id") = k ∧
      song =
      Dict.set "glossary"
        (JArr (rows_of (fun r => build_glossary_item r hg) k (iter_rows 2 ws_g)))
        (Dict.set "versions"
           (JArr (rows_of (fun r => build_version_dict r hv) k (iter_rows 2 ws_v)))
           song0).
Proof.
  intros (ws_s' & ws_v' & ws_g' & songs0 & songs1 & st & Hs & Hv & Hg & Hsongs
          & Hversions & Hglossary & Hcat)%read_catalog_inr Hs' Hhs Hv' Hhv Hg' Hhg.
  assert (ws_s' = ws_s) as -> by congruence.
  assert (ws_v' = ws_v) as -> by congruence.
  assert (ws_g' = ws_g) as -> by congruence.
  apply (read_songs_inr _ _ hs) in Hsongs; [|done].
  apply (read_versions_inr _ _ _ hv) in Hversions as (stv & Hversions & ->); [|done].
  apply (read_glossary_inr _ _ _ hg) in Hglossary; [|done].
  apply songs_loop_spec in Hsongs as [Hkeys Hsongs].
  pose proof (versions_loop_spec _ _ _ _ _ Hversions) as Hvs. simpl in Hvs.
  pose proof (glossary_loop_spec _ _ _ _ _ Hglossary) as Hgs. simpl in Hgs.
  rewrite Hcat. split.
  - rewrite map_to_list_empty, app_nil_r in Hkeys. rewrite <- Hkeys.
    apply NoDup_Permutation; [apply NoDup_fst_map_to_list..|].
    intros k. rewrite !list_elem_of_fmap.
    split; intros ([k' song] & -> & Hk%elem_of_map_to_list); simpl in *.
    + rewrite Hgs, Hvs in Hk.
      destruct (songs0 !! k') as [song0|] eqn:Hk0; [|done].
      exists (k', song0). split; [done|]. by apply elem_of_map_to_list.
    + eexists (k', _). split; [done|]. apply elem_of_map_to_list.
      rewrite Hgs, Hvs, Hk. done.
  - intros k song Hk. rewrite Hgs, Hvs in Hk.
    destruct (songs0 !! k) as [song0|] eqn:Hk0; [|done].
    simpl in Hk. injection Hk as <-.
    destruct (Hsongs k song0 Hk0) as [Hempty|(row & Hin & Hnb & Hbuild & Hid)];
      [by rewrite lookup_empty in Hempty|].
    exists row, song0. repeat (split; [done|]).
    apply build_song_dict_inr in Hbuild as (_ & _ & Hgl & Hver & _).
    unfold extend_list at 2. rewrite Hver. simpl.
    unfold extend_list. rewrite dict_get_set_ne by done. rewrite Hgl. done.
Qed.

(** ** The song list *)

Lemma sorted_keys_NoDup {V} (m : gmap string V) : NoDup (sorted_keys m).
Proof.
  unfold sorted_keys. rewrite sorted_perm. apply NoDup_fst_map_to_list.
Qed.

Lemma sorted_keys_lookup {V} (m : gmap string V) k :
  k ∈ sorted_keys m → is_Some (m !! k).
Proof.
  unfold sorted_keys. rewrite sorted_perm.
  intros ([k' v] & -> & Hk%elem_of_map_to_list)%list_elem_of_fmap. eauto.
Qed.

(** The list holds, for each key in sorted order, the song under the key. *)
Lemma songs_list_keys (m : gmap string pydict) :
  Forall2 (fun song k => m !! k = Some song) (songs_list m) (sorted_keys m).
Proof.
  unfold songs_list.
  assert (∀ k, k ∈ sorted_keys m → is_Some (m !! k)) as Hall
    by apply sorted_keys_lookup.
  induction (sorted_keys m) as [|k ks IH]; simpl; [constructor|].
  destruct (Hall k) as [song Hsong]; [apply list_elem_of_here|].
  rewrite Hsong. constructor; [done|].
  apply IH. intros k' Hk'. apply Hall. by apply list_elem_of_further.
Qed.

Lemma read_catalog_headers `{PyRuntime} wb cat :
  read_catalog wb = inr cat →
  ∃ ws_s ws_v ws_g hs hv hg,
    get_sheet wb "songs" = inr ws_s ∧ sheet_headers ws_s = inr hs ∧
    get_sheet wb "versions" = inr ws_v ∧ sheet_headers ws_v = inr hv ∧
    get_sheet wb "glossary" = inr ws_g ∧ sheet_headers ws_g = inr hg.
Proof.
  intros (ws_s & ws_v & ws_g & songs0 & songs1 & st & Hs & Hv & Hg & Hsongs
          & Hversions & Hglossary & _)%read_catalog_inr.
  unfold read_songs in Hsongs. apply bind_inr in Hsongs as (hs & Hhs & _).
  unfold read_versions in Hversions. apply bind_inr in Hversions as (hv & Hhv & _).
  unfold read_glossary in Hglossary. apply bind_inr in Hglossary as (hg & Hhg & _).
  by exists ws_s, ws_v, ws_g, hs, hv, hg.
Qed.

(** C5: the ids of the song list are in non-decreasing lexicographic order
    without repetition, and they are the sorted ids of the non-blank rows of
    the songs sheet, whatever the order of these rows; each song carries
    under [versions] and [glossary] the records of exactly its rows of the
    two sheets, in sheet order. *)
Theorem song_order `{PyRuntime} (wb : workbook) (cat : catalog)
    (ws_s ws_v ws_g : sheet) (hs hv hg : gmap string nat) :
  read_catalog wb = inr cat →
  get_sheet wb "songs" = inr ws_s → sheet_headers ws_s = inr hs →
  get_sheet wb "versions" = inr ws_v → sheet_headers ws_v = inr hv →
  get_sheet wb "glossary" = inr ws_g → sheet_headers ws_g = inr hg →
  ∃ ids,
    Forall2 (fun song k =>
               Dict.get "id" song = Some (JStr k) ∧
               Dict.get "versions" song =
                 Some (JArr (rows_of (fun r => build_version_dict r hv) k
                               (iter_rows 2 ws_v))) ∧
               Dict.get "glossary" song =
                 Some (JArr (rows_of (fun r => build_glossary_item r hg) k
                               (iter_rows 2 ws_g))))
            (songs_list (songs_by_id cat)) ids ∧
    StronglySorted str_le ids ∧ NoDup ids ∧
    ∀ rows', rows' ≡ₚ iter_rows 2 ws_s → ids = sorted (song_row_ids hs rows').
Proof.
  intros Hread Hs Hhs Hv Hhv Hg Hhg.
  destruct (catalog_songs wb cat ws_s ws_v ws_g hs hv hg) as [Hkeys Hsongs];
    try done.
  exists (sorted_keys (songs_by_id cat)). repeat split.
  - eapply Forall2_impl; [apply songs_list_keys|].
    intros song k (row & song0 & _ & _ & Hbuild & Hid & ->)%Hsongs.
    apply build_song_dict_inr in Hbuild as (_ & _ & _ & _ & Hget).
    rewrite dict_get_set_eq. rewrite !dict_get_set_ne by done.
    rewrite dict_get_set_eq. rewrite (Hget "id") by compute_done.
    simpl. by rewrite Hid.
  - apply sorted_strongly.
  - apply sorted_keys_NoDup.
  - intros rows' Hperm. apply (StronglySorted_unique str_le);
      [apply sorted_strongly..|].
    unfold sorted_keys. rewrite !sorted_perm, Hkeys. unfold song_row_ids.
    by rewrite Hperm.
Qed.

Lemma song_order_witness :
  let RT := table_runtime [] in
  let cat := catalog_or_empty (read_catalog (demo_book 3 "https://m/")) in
  let hs := headers_of 0 songs_header ∅ in
  let hv := headers_of 0 versions_header ∅ in
  let hg := headers_of 0 glossary_header ∅ in
  ∃ ids,
    Forall2 (fun song k =>
               Dict.get "id" song = Some (JStr k) ∧
               Dict.get "versions" song =
                 Some (JArr (rows_of (fun r => build_version_dict r hv) k
                               (iter_rows 2 (versions_header :: demo_versions)))) ∧
               Dict.get "glossary" song =
                 Some (JArr (rows_of (fun r => build_glossary_item r hg) k
                               (iter_rows 2 (glossary_header :: demo_glossary)))))
            (songs_list (songs_by_id cat)) ids ∧
    StronglySorted str_le ids ∧ NoDup ids ∧
    ∀ rows', rows' ≡ₚ iter_rows 2 (songs_header :: demo_songs) →
             ids = sorted (song_row_ids hs rows').
Proof.
  intros RT cat hs hv hg.
  apply (song_order (H := RT) (demo_book 3 "https://m/") cat
           (songs_header :: demo_songs) (versions_header :: demo_versions)
           (glossary_header :: demo_glossary));
    vm_compute; reflexivity.
Defined.

Lemma str_or_blank a b : str_or a b = if decide (a = "") then b else a.
Proof. by destruct a. Qed.

(** C9: every song of the list has exactly the keys of the dict literal, in
    its order, and comes from a non-blank row of the songs sheet; under each
    of the fifteen scalar keys it holds a string.  When the trimmed cell is
    not empty the string is the trimmed cell; when the cell is blank or
    absent it is the fixed locale name for [languageTag], NONE for
    [rightsStatus] and the empty string for every other key.  No key is left
    out. *)
Theorem song_record_keys `{PyRuntime} (wb : workbook) (cat : catalog)
    (ws_s : sheet) (hs : gmap string nat) :
  read_catalog wb = inr cat →
  get_sheet wb "songs" = inr ws_s → sheet_headers ws_s = inr hs →
  ∀ song, song ∈ songs_list (songs_by_id cat) →
    Dict.keys song = song_keys ∧
    ∃ row, row ∈ iter_rows 2 ws_s ∧ blank_row row = false ∧
      ∀ k, k ∈ song_scalar_keys →
        let text := _s (get_cell row hs k) in
        Dict.get k song =
        Some (JStr (if decide (text = "")
                    then (if decide (k = "languageTag") then "русский"
                          else if decide (k = "rightsStatus") then "NONE"
                          else "")
                    else text)).
Proof.
  intros Hread Hs Hhs song Hin.
  destruct (read_catalog_headers wb cat Hread)
    as (ws_s' & ws_v & ws_g & hs' & hv & hg & Hs' & Hhs' & Hv & Hhv & Hg & Hhg).
  assert (ws_s' = ws_s) as -> by congruence.
  assert (hs' = hs) as -> by congruence.
  destruct (catalog_songs wb cat ws_s ws_v ws_g hs hv hg) as [_ Hsongs];
    try done.
  pose proof (songs_list_keys (songs_by_id cat)) as Hall.
  apply list_elem_of_lookup in Hin as [i Hi].
  destruct (Forall2_lookup_l _ _ _ _ _ Hall Hi) as (k & _ & Hk).
  apply Hsongs in Hk as (row & song0 & Hrow & Hnb & Hbuild & _ & ->).
  apply build_song_dict_inr in Hbuild as (_ & Hkeys & Hgl & Hver & Hget).
  split.
  - rewrite !dict_keys_set_in; [done|..].
    + rewrite Hkeys. compute_done.
    + rewrite dict_keys_set_in; rewrite Hkeys; compute_done.
  - exists row. repeat (split; [done|]). intros k' Hk'. cbv zeta.
    rewrite !dict_get_set_ne; [|intros <-; revert Hk'; compute_done..].
    rewrite (Hget k' Hk'). do 2 f_equal.
    destruct (decide (k' = "languageTag"));
      [|destruct (decide (k' = "rightsStatus"))];
      rewrite ?str_or_blank; by destruct (decide (_ = "")).
Qed.

(** The first song of the demo catalog: its row has neither a languageTag
    nor a rightsStatus nor an altTitles cell. *)
Lemma song_record_keys_witness :
  let RT := table_runtime [] in
  let cat := catalog_or_empty (read_catalog (demo_book 3 "https://m/")) in
  let hs := headers_of 0 songs_header ∅ in
  let song := default [] (head (songs_list (songs_by_id cat))) in
  (Dict.keys song = song_keys ∧
   ∃ row, row ∈ iter_rows 2 (songs_header :: demo_songs) ∧ blank_row row = false ∧
     ∀ k, k ∈ song_scalar_keys →
       let text := _s (get_cell row hs k) in
       Dict.get k song =
       Some (JStr (if decide (text = "")
                   then (if decide (k = "languageTag") then "русский"
                         else if decide (k = "rightsStatus") then "NONE"
                         else "")
                   else text))) ∧
  Dict.get "languageTag" song = Some (JStr "русский") ∧
  Dict.get "rightsStatus" song = Some (JStr "NONE") ∧
  Dict.get "altTitles" song = Some (JStr "") ∧
  Dict.get "title" song = Some (JStr "A").
Proof.
  intros RT cat hs song. split; [|vm_compute; done].
  apply (song_record_keys (H := RT) (demo_book 3 "https://m/") cat
           (songs_header :: demo_songs) hs);
    try (vm_compute; reflexivity).
  vm_compute. apply list_elem_of_here.
Defined.

(** C4: in the record [build_version_dict] returns, each of the six
    override keys is present exactly when the trimmed cell is not empty, and
    then holds the trimmed cell; for a blank cell the key is absent, so the
    record holds neither [None] nor the empty string under it. *)
Theorem version_optional_fields (row : list cell) (h : gmap string nat)
    (song_id : string) (ver : pydict) :
  build_version_dict row h = inr (song_id, ver) →
  ∀ k, k ∈ version_optional_keys →
    (k ∈ Dict.keys ver ↔ _s (get_cell row h k) ≠ "") ∧
    Dict.get k ver =
      (if Str.nonempty (_s (get_cell row h k))
       then Some (JStr (_s (get_cell row h k))) else None) ∧
    Dict.get k ver ≠ Some JNull ∧
    Dict.get k ver ≠ Some (JStr "").
Proof.
  intros (_ & _ & _ & ->)%build_version_dict_inr k Hk.
  assert (Dict.get k (fold_left (version_put row h) version_optional_keys
                        [("id", JStr (_s (get_cell row h "id")))]) =
          (if Str.nonempty (_s (get_cell row h k))
           then Some (JStr (_s (get_cell row h k))) else None)) as Hget.
  { rewrite fold_version_put_in by (done || apply version_optional_keys_NoDup).
    unfold _opt. destruct (Str.nonempty (_s (get_cell row h k))); [done|].
    apply dict_get_None. unfold Dict.keys. simpl.
    intros ->%list_elem_of_singleton. revert Hk. compute_done. }
  split; [|split; [done|]].
  - rewrite <- dict_get_Some_keys, Hget, <- nonempty_true.
    destruct (Str.nonempty (_s (get_cell row h k))); split; try done;
      first [by intros _; eexists | by intros [? ?]].
  - rewrite Hget. destruct (Str.nonempty (_s (get_cell row h k))) eqn:E;
      split; try done.
    intros [= Heq]. rewrite Heq in E. done.
Qed.

(** A version row with a blank [audioUrl] and a title. *)
Lemma version_optional_fields_witness :
  let h := headers_of 0 versions_header ∅ in
  let row := [CStr "a"; CStr "v1"; CStr " "; CStr "T"] in
  let ver := [("id", JStr "v1"); ("title", JStr "T")] in
  ((("audioUrl" ∈ Dict.keys ver ↔ _s (get_cell row h "audioUrl") ≠ "") ∧
    Dict.get "audioUrl" ver =
      (if Str.nonempty (_s (get_cell row h "audioUrl"))
       then Some (JStr (_s (get_cell row h "audioUrl"))) else None) ∧
    Dict.get "audioUrl" ver ≠ Some JNull ∧
    Dict.get "audioUrl" ver ≠ Some (JStr "")) ∧
   Dict.get "audioUrl" ver = None) ∧
  ((("title" ∈ Dict.keys ver ↔ _s (get_cell row h "title") ≠ "") ∧
    Dict.get "title" ver =
      (if Str.nonempty (_s (get_cell row h "title"))
       then Some (JStr (_s (get_cell row h "title"))) else None) ∧
    Dict.get "title" ver ≠ Some JNull ∧
    Dict.get "title" ver ≠ Some (JStr "")) ∧
   Dict.get "title" ver = Some (JStr "T")).
Proof.
  intros h row ver. split; (split; [|reflexivity]).
  - apply (version_optional_fields row h "a" ver); [vm_compute; reflexivity|].
    compute_done.
  - apply (version_optional_fields row h "a" ver); [vm_compute; reflexivity|].
    compute_done.
Defined.

(** ** The messages of the row checks *)

Lemma build_song_dict_inl row h e :
  build_song_dict row h = inl e →
  let id := _s (get_cell row h "id") in
  (id = "" ∧ e = SystemExit "ERROR: songs: empty id") ∨
  (id ≠ "" ∧ ∃ field, field ∈ ["title"; "hub"; "lyrics"] ∧
     e = SystemExit ("ERROR: songs: empty " +:+ field +:+ " for id=" +:+ id)).
Proof.
  unfold build_song_dict.
  destruct (Str.nonempty (_s (get_cell row h "id"))) eqn:E1; simpl.
  2:{ intros [= <-]. left. by apply nonempty_false in E1. }
  apply nonempty_true in E1.
  destruct (Str.nonempty (_s (get_cell row h "title"))); simpl.
  2:{ intros [= <-]. right. split; [done|]. exists "title". split; [compute_done|done]. }
  destruct (Str.nonempty (_s (get_cell row h "hub"))); simpl.
  2:{ intros [= <-]. right. split; [done|]. exists "hub". split; [compute_done|done]. }
  destruct (Str.nonempty (_s (get_cell row h "lyrics"))); simpl; [done|].
  intros [= <-]. right. split; [done|]. exists "lyrics". split; [compute_done|done].
Qed.

Lemma build_version_dict_inl row h e :
  build_version_dict row h = inl e →
  let song_id := _s (get_cell row h "songId") in
  (song_id = "" ∧ e = SystemExit "ERROR: versions: empty songId") ∨
  (song_id ≠ "" ∧
   e = SystemExit ("ERROR: versions: empty id for songId=" +:+ song_id)).
Proof.
  unfold build_version_dict.
  destruct (Str.nonempty (_s (get_cell row h "songId"))) eqn:E1; simpl.
  2:{ intros [= <-]. left. by apply nonempty_false in E1. }
  apply nonempty_true in E1.
  destruct (Str.nonempty (_s (get_cell row h "id"))); simpl; [done|].
  intros [= <-]. by right.
Qed.

Lemma build_glossary_item_inl row h e :
  build_glossary_item row h = inl e →
  let song_id := _s (get_cell row h "songId") in
  let term := _s (get_cell row h "term") in
  (song_id = "" ∧ e = SystemExit "ERROR: glossary: empty songId") ∨
  (song_id ≠ "" ∧ term = "" ∧
   e = SystemExit ("ERROR: glossary: empty term for songId=" +:+ song_id)) ∨
  (song_id ≠ "" ∧ term ≠ "" ∧
   e = SystemExit ("ERROR: glossary: empty definition for songId=" +:+ song_id
                   +:+ ", term=" +:+ term)).
Proof.
  unfold build_glossary_item.
  destruct (Str.nonempty (_s (get_cell row h "songId"))) eqn:E1; simpl.
  2:{ intros [= <-]. left. by apply nonempty_false in E1. }
  apply nonempty_true in E1.
  destruct (Str.nonempty (_s (get_cell row h "term"))) eqn:E2; simpl.
  2:{ intros [= <-]. right. left. by apply nonempty_false in E2. }
  apply nonempty_true in E2.
  destruct (Str.nonempty (_s (get_cell row h "definition"))); simpl; [done|].
  intros [= <-]. right. by right.
Qed.








(** ** Unknown references *)

Lemma get_cell_header row h name :
  _s (get_cell row h name) ≠ "" → is_Some (h !! name).
Proof. unfold get_cell. destruct (h !! name); [eauto | done]. Qed.

Lemma versions_loop_unknown hv pre row post i st0 st1 song_id ver :
  for_rows (version_step hv) i pre st0 = inr st1 →
  blank_row row = false →
  build_version_dict row hv = inr (song_id, ver) →
  vs_songs st0 !! song_id = None →
  for_rows (version_step hv) i (pre ++ row :: post) st0 =
  inl (SystemExit ("ERROR: versions: unknown songId '" +:+ song_id +:+ "' (row "
                   +:+ Str.of_Z (i + Z.of_nat (List.length pre)) +:+ ")")).
Proof.
  intros Hpre Hnb Hbuild Hnone. rewrite for_rows_app, Hpre. simpl.
  rewrite Hnb. unfold version_step. rewrite Hbuild. simpl.
  rewrite (versions_loop_spec _ _ _ _ _ Hpre), Hnone. done.
Qed.

Lemma glossary_loop_unknown `{PyRuntime} hg pre row post i st0 st1 song_id item :
  for_rows (glossary_step hg) i pre st0 = inr st1 →
  blank_row row = false →
  build_glossary_item row hg = inr (song_id, item) →
  gs_songs st0 !! song_id = None →
  for_rows (glossary_step hg) i (pre ++ row :: post) st0 =
  inl (SystemExit ("ERROR: glossary: unknown songId '" +:+ song_id +:+ "' (row "
                   +:+ Str.of_Z (i + Z.of_nat (List.length pre)) +:+ ")")).
Proof.
  intros Hpre Hnb Hbuild Hnone. rewrite for_rows_app, Hpre. simpl.
  rewrite Hnb. unfold glossary_step. rewrite Hbuild. simpl.
  rewrite (glossary_loop_spec _ _ _ _ _ Hpre), Hnone. done.
Qed.

(** C6, as the code has it.  A non-blank row of the versions or of the
    glossary sheet whose songId is the id of no song of the songs sheet stops
    the run: [main] ends by raising and leaves the world as it was, so
    nothing is written and the reference is not turned into a warning.  The
    error raised is that of the first check that fails; it is the
    unknown-songId error, with the songId and the 1-based row number, when
    the rows before pass and the validator accepts the row. *)
Theorem unknown_reference_aborts `{PyRuntime} (w : world) (wb : workbook)
    (ws_s ws_v ws_g : sheet) (songs0 : gmap string pydict) :
  input_xlsx w = Some wb →
  get_sheet wb "songs" = inr ws_s → read_songs ws_s = inr songs0 →
  get_sheet wb "versions" = inr ws_v →
  get_sheet wb "glossary" = inr ws_g →
  (∀ hv row,
     sheet_headers ws_v = inr hv → row ∈ iter_rows 2 ws_v →
     blank_row row = false →
     songs0 !! _s (get_cell row hv "songId") = None →
     ∃ e, main w = (inl e, w)) ∧
  (∀ hg row,
     sheet_headers ws_g = inr hg → row ∈ iter_rows 2 ws_g →
     blank_row row = false →
     songs0 !! _s (get_cell row hg "songId") = None →
     ∃ e, main w = (inl e, w)) ∧
  (∀ hv pre row post st1 song_id ver,
     sheet_headers ws_v = inr hv → iter_rows 2 ws_v = pre ++ row :: post →
     for_rows (version_step hv) 2 pre
       {| vs_songs := songs0; version_ids_per_song := ∅ |} = inr st1 →
     blank_row row = false →
     build_version_dict row hv = inr (song_id, ver) →
     songs0 !! song_id = None →
     read_versions ws_v songs0 =
     inl (SystemExit ("ERROR: versions: unknown songId '" +:+ song_id
                      +:+ "' (row " +:+ Str.of_Z (2 + Z.of_nat (List.length pre))
                      +:+ ")"))) ∧
  (∀ hg pre row post songs1 st1 song_id item,
     sheet_headers ws_g = inr hg → iter_rows 2 ws_g = pre ++ row :: post →
     read_versions ws_v songs0 = inr songs1 →
     for_rows (glossary_step hg) 2 pre
       {| gs_songs := songs1; terms_per_song := ∅; term_defs_global := [] |}
       = inr st1 →
     blank_row row = false →
     build_glossary_item row hg = inr (song_id, item) →
     songs0 !! song_id = None →
     read_glossary ws_g songs1 =
     inl (SystemExit ("ERROR: glossary: unknown songId '" +:+ song_id
                      +:+ "' (row " +:+ Str.of_Z (2 + Z.of_nat (List.length pre))
                      +:+ ")"))).
Proof.
  intros Hin Hs Hsongs Hv Hg.
  assert (∀ songs1, read_versions ws_v songs0 = inr songs1 →
            ∀ k, songs0 !! k = None → songs1 !! k = None) as Hkeep.
  { intros songs1 Hversions k Hk. pose proof Hversions as Hversions'.
    unfold read_versions in Hversions'.
    apply bind_inr in Hversions' as (hv & Hhv & _).
    apply (read_versions_inr _ _ _ hv) in Hversions as (st & Hloop & ->); [|done].
    rewrite (versions_loop_spec _ _ _ _ _ Hloop). simpl. by rewrite Hk. }
  split; [|split; [|split]].
  - intros hv row Hhv Hrow Hnb Hnone.
    destruct (read_catalog wb) as [e|cat] eqn:Hread;
      [exists e; by apply (main_read_fails w wb)|].
    exfalso.
    apply read_catalog_inr in Hread
      as (ws_s' & ws_v' & ws_g' & songs0' & songs1 & st & Hs' & Hv' & Hg'
          & Hsongs' & Hversions & _).
    assert (ws_s' = ws_s) as -> by congruence.
    assert (ws_v' = ws_v) as -> by congruence.
    assert (songs0' = songs0) as -> by congruence.
    apply (read_versions_inr _ _ _ hv) in Hversions as (stv & Hloop & _); [|done].
    destruct (versions_loop_known _ _ _ _ _ Hloop row Hrow Hnb) as [song Hsong].
    simpl in Hsong. congruence.
  - intros hg row Hhg Hrow Hnb Hnone.
    destruct (read_catalog wb) as [e|cat] eqn:Hread;
      [exists e; by apply (main_read_fails w wb)|].
    exfalso.
    apply read_catalog_inr in Hread
      as (ws_s' & ws_v' & ws_g' & songs0' & songs1 & st & Hs' & Hv' & Hg'
          & Hsongs' & Hversions & Hglossary & _).
    assert (ws_s' = ws_s) as -> by congruence.
    assert (ws_v' = ws_v) as -> by congruence.
    assert (ws_g' = ws_g) as -> by congruence.
    assert (songs0' = songs0) as -> by congruence.
    apply (read_glossary_inr _ _ _ hg) in Hglossary; [|done].
    destruct (glossary_loop_known _ _ _ _ _ Hglossary row Hrow Hnb) as [song Hsong].
    simpl in Hsong. rewrite (Hkeep songs1 Hversions _ Hnone) in Hsong. done.
  - intros hv pre row post st1 song_id ver Hhv Hrows Hpre Hnb Hbuild Hnone.
    unfold read_versions. rewrite Hhv. simpl.
    pose proof Hbuild as (-> & Hsid & Hvid & _)%build_version_dict_inr.
    destruct (get_cell_header _ _ _ Hsid) as [? ->].
    destruct (get_cell_header _ _ _ Hvid) as [? ->].
    simpl. rewrite Hrows.
    by rewrite (versions_loop_unknown hv pre row post 2 _ st1
                  (_s (get_cell row hv "songId")) ver).
  - intros hg pre row post songs1 st1 song_id item Hhg Hrows Hversions Hpre Hnb
      Hbuild Hnone.
    unfold read_glossary. rewrite Hhg. simpl.
    pose proof Hbuild as (-> & Hsid & _)%build_glossary_item_inr.
    assert (_s (get_cell row hg "term") ≠ "" ∧
            _s (get_cell row hg "definition") ≠ "") as [Hterm Hdef].
    { unfold build_glossary_item in Hbuild.
      destruct (Str.nonempty (_s (get_cell row hg "songId"))); [|done].
      destruct (Str.nonempty (_s (get_cell row hg "term"))) eqn:E1; [|done].
      destruct (Str.nonempty (_s (get_cell row hg "definition"))) eqn:E2; [|done].
      by rewrite <- !nonempty_true. }
    unfold check_column.
    destruct (get_cell_header _ _ _ Hsid) as [? ->].
    destruct (get_cell_header _ _ _ Hterm) as [? ->].
    destruct (get_cell_header _ _ _ Hdef) as [? ->].
    simpl. rewrite Hrows.
    rewrite (glossary_loop_unknown hg pre row post 2 _ st1
               (_s (get_cell row hg "songId")) item); try done.
    simpl. by apply (Hkeep songs1).
Qed.

Lemma unknown_reference_aborts_witness :
  let RT := table_runtime [] in
  let wb := book 3 "" [song_row "a" "A"; song_row "b" "B"]
              [[CStr "a"; CStr "v1"; CNone; CNone];
               [CStr "c"; CStr "v1"; CNone; CNone]] [] in
  let w := world_of (Some wb) [] "" noon in
  ∃ e, main w = (inl e, w).
Proof.
  intros RT wb w.
  refine (proj1 (unknown_reference_aborts (H := RT) w wb
            (songs_header :: [song_row "a" "A"; song_row "b" "B"])
            (versions_header :: [[CStr "a"; CStr "v1"; CNone; CNone];
                                 [CStr "c"; CStr "v1"; CNone; CNone]])
            [glossary_header]
            (songs_by_id (catalog_or_empty (read_catalog
               (book 3 "" [song_row "a" "A"; song_row "b" "B"] [] []))))
            _ _ _ _ _) (headers_of 0 versions_header ∅)
            [CStr "c"; CStr "v1"; CNone; CNone] _ _ _ _);
    vm_compute; try reflexivity.
  apply list_elem_of_further, list_elem_of_here.
Defined.

(** C6 as stated fails: the only version row names the unknown song c and
    has no id; the run stops with the empty-id error of the validator, not
    with the unknown-songId error. *)
Lemma unknown_reference_other_error :
  let RT := table_runtime [] in
  let row := [CStr "c"; CNone; CNone; CStr "T"] in
  let wb := book 3 "" [song_row "a" "A"; song_row "b" "B"] [row] [] in
  let w := world_of (Some wb) [] "" noon in
  blank_row row = false ∧
  _s (get_cell row (headers_of 0 versions_header ∅) "songId") = "c" ∧
  song_row_ids (headers_of 0 songs_header ∅)
    [song_row "a" "A"; song_row "b" "B"] = ["a"; "b"] ∧
  fst (main w) = inl (SystemExit "ERROR: versions: empty id for songId=c") ∧
  fst (main w) ≠ inl (SystemExit "ERROR: versions: unknown songId 'c' (row 2)").
Proof. vm_compute. repeat split; done. Qed.

(** ** The versioning gate *)

(** The first [try] block, case by case. *)
Lemma parse_old_manifest_cases `{PyRuntime} b :
  parse_old_manifest b =
  match json_loads b with
  | None => inl (SystemExit (cannot_parse_latest +:+ exn_str (DecodeError b)))
  | Some (JObj o) =>
    match py_int (default (JInt 0) (Dict.get "catalogVersion" o)) with
    | inr n =>
      inr (n, Str.strip (py_str (default (JStr "") (Dict.get "baseMediaUrl" o))))
    | inl e => inl (SystemExit (cannot_parse_latest +:+ exn_str e))
    end
  | Some v => inl (SystemExit (cannot_parse_latest +:+ exn_str (AttributeError v "get")))
  end.
Proof.
  unfold parse_old_manifest, loads.
  destruct (json_loads b) as [v|]; [|done].
  destruct v; try done. simpl.
  destruct (default (JInt 0) (Dict.get "catalogVersion" o)) as [| | |f|s| |];
    try done.
  - simpl. by destruct (float_trunc f).
  - simpl. by destruct (int_of_str s).
Qed.

Lemma py_int_inl `{PyRuntime} v e : py_int v = inl e → e = IntError v.
Proof.
  destruct v; simpl; try (by intros [= <-]); try done.
  - destruct (float_trunc f); [done | by intros [= <-]].
  - destruct (int_of_str s); [done | by intros [= <-]].
Qed.

Lemma gate_of_strict `{PyRuntime} w cat lb :
  is_strict (default "" (environ w !! "STRICT_VERSIONING")) = true →
  files w !! "docs/latest.json" = Some lb →
  gate_of w cat =
  versioning_gate lb (files w !! "docs/songs.json")
    (songs_json_bytes (songs_list (songs_by_id cat)))
    (catalog_version cat) (base_media_url cat).
Proof.
  intros Hstrict Hlatest. unfold gate_of. rewrite Hstrict.
  change (path_join DOCS_DIR LATEST_JSON_NAME) with "docs/latest.json".
  change (path_join DOCS_DIR SONGS_JSON_NAME) with "docs/songs.json".
  by rewrite Hlatest.
Qed.

Lemma main_gate_passes `{PyRuntime} w wb cat :
  input_xlsx w = Some wb → read_catalog wb = inr cat →
  gate_of w cat = inr tt →
  ∃ w', main w = (inr tt, w') ∧
        files w' !! "docs/songs.json"
        = Some (songs_json_bytes (songs_list (songs_by_id cat))).
Proof.
  intros Hin Hread Hgate. rewrite (main_run w wb cat Hin Hread), Hgate.
  cbv zeta.
  destruct (publish_spec (songs_list (songs_by_id cat))
              (songs_json_bytes (songs_list (songs_by_id cat)))
              (catalog_version cat) (base_media_url cat)
              (with_stdout w (stdout w ++ (String.append "WARNING: "
                 <$> term_warnings (warning_table cat))))) as [out ->].
  eexists. split; [done|]. simpl. unfold published_files.
  change (path_join DOCS_DIR LATEST_JSON_NAME) with "docs/latest.json".
  change (path_join DOCS_DIR SONGS_JSON_NAME) with "docs/songs.json".
  rewrite lookup_insert_ne by done. apply lookup_insert_eq.
Qed.

Lemma main_gate_stops `{PyRuntime} w wb cat e :
  input_xlsx w = Some wb → read_catalog wb = inr cat →
  gate_of w cat = inl e →
  ∃ w', main w = (inl e, w') ∧ files w' = files w ∧ dirs w' = dirs w.
Proof.
  intros Hin Hread Hgate. rewrite (main_run w wb cat Hin Hread), Hgate.
  cbv zeta. eexists. by split.
Qed.


(** C8: in strict mode with a published manifest that parses and no
    published catalog, [songs_changed] is false, and the run is decided by the
    base-media-url alone: it stops exactly when the trimmed url differs and the
    new version is not above the old one, with a message whose only reason is
    the url; otherwise it returns. *)
Theorem missing_catalog_counts_as_unchanged `{PyRuntime} (w : world)
    (wb : workbook) (cat : catalog) (lb : string)
    (old_version : Z) (old_base : string) :
  input_xlsx w = Some wb → read_catalog wb = inr cat →
  is_strict (default "" (environ w !! "STRICT_VERSIONING")) = true →
  files w !! "docs/latest.json" = Some lb →
  parse_old_manifest lb = inr (old_version, old_base) →
  files w !! "docs/songs.json" = None →
  songs_changed_of (files w !! "docs/songs.json")
    (songs_json_bytes (songs_list (songs_by_id cat))) = inr false ∧
  fst (main w) =
  if negb (String.eqb old_base (Str.strip (base_media_url cat)))
     && (catalog_version cat <=? old_version)%Z
  then inl (SystemExit
         ("ERROR: " +:+ gate_message old_version (catalog_version cat)
            ["baseMediaUrl changed ('" +:+ old_base +:+ "' -> '"
             +:+ Str.strip (base_media_url cat) +:+ "')"]))
  else inr tt.
Proof.
  intros Hin Hread Hstrict Hlatest Hparse Hsongs.
  split; [by rewrite Hsongs|].
  pose proof (gate_of_strict w cat lb Hstrict Hlatest) as Hgate.
  unfold versioning_gate in Hgate. rewrite Hparse, Hsongs in Hgate.
  simpl in Hgate.
  destruct (negb (String.eqb old_base (Str.strip (base_media_url cat)))
            && (catalog_version cat <=? old_version)%Z) eqn:E.
  - apply andb_true_iff in E as [E1 E2]. rewrite E1 in Hgate. simpl in Hgate.
    destruct (main_gate_stops w wb cat _ Hin Hread Hgate) as (w' & -> & _).
    done.
  - destruct (main_gate_passes w wb cat Hin Hread Hgate) as (w' & -> & _).
    done.
Qed.

(** C10, as the code has it: a manifest that decodes to an object without
    [catalogVersion] has version 0, and one without [baseMediaUrl] has the
    empty url; the cannot-parse error is raised exactly when decoding fails,
    when the document is not an object, or when the value under
    [catalogVersion] does not convert to an int, and nothing else is raised.
    The values that do not convert are [None], a list, a dict, the floats
    nan and infinity, and a string that [int] refuses; an int, a bool and
    every other float convert. *)
Theorem old_manifest_parsing `{PyRuntime} (b : string) :
  (∀ o, json_loads b = Some (JObj o) → Dict.get "catalogVersion" o = None →
     ∃ url, parse_old_manifest b = inr (0, url)) ∧
  (∀ o n, json_loads b = Some (JObj o) →
     py_int (default (JInt 0) (Dict.get "catalogVersion" o)) = inr n →
     Dict.get "baseMediaUrl" o = None →
     parse_old_manifest b = inr (n, "")) ∧
  ((∃ e, parse_old_manifest b = inl e) ↔
   json_loads b = None ∨
   (∃ v, json_loads b = Some v ∧ ∀ o, v ≠ JObj o) ∨
   (∃ o v, json_loads b = Some (JObj o) ∧
           Dict.get "catalogVersion" o = Some v ∧
           match v with
           | JInt _ | JBool _ => False
           | JFloat f => f = FNan ∨ ∃ neg, f = FInf neg
           | JStr s => int_of_str s = None
           | JNull | JArr _ | JObj _ => True
           end)) ∧
  (∀ e, parse_old_manifest b = inl e →
     ∃ cause, e = SystemExit (cannot_parse_latest +:+ exn_str cause)).
Proof.
  rewrite parse_old_manifest_cases. split; [|split; [|split]].
  - intros o -> ->. simpl. eauto.
  - intros o n -> -> ->. done.
  - split.
    + intros [e He]. destruct (json_loads b) as [v|]; [|by left].
      right. destruct v; try (left; eexists; split; [done|]; by intros ?).
      right. destruct (Dict.get "catalogVersion" o) as [v|] eqn:Hv; [|done].
      exists o, v. split; [done|]. split; [done|]. simpl in He.
      destruct v as [| | |f|s| |]; simpl in He; try done.
      * destruct f; simpl in He; try done; eauto.
      * by destruct (int_of_str s).
    + intros [->|[(v & -> & Hv)|(o & v & -> & Hget & Hbad)]].
      * eauto.
      * destruct v; eauto. by destruct (Hv o).
      * rewrite Hget. simpl. destruct v as [| | |f|s| |]; simpl; try done; eauto.
        -- destruct Hbad as [->|[neg ->]]; simpl; eauto.
        -- rewrite Hbad. eauto.
  - intros e. destruct (json_loads b) as [v|]; [|intros [= <-]; eauto].
    destruct v; try (intros [= <-]; eauto).
    destruct (py_int _); [intros [= <-]; eauto | done].
Qed.


Lemma missing_catalog_counts_as_unchanged_witness :
  let old_manifest := JObj (manifest_of 3 "2026-01-01T00:00:00Z" "https://m/") in
  let RT := table_runtime [old_manifest] in
  let wb := demo_book 3 "https://m/" in
  let cat := catalog_or_empty (read_catalog wb) in
  let w := world_of (Some wb) [("docs/latest.json", Json.dumps old_manifest)]
             "true" noon in
  songs_changed_of (files w !! "docs/songs.json")
    (songs_json_bytes (songs_list (songs_by_id cat))) = inr false ∧
  fst (main w) =
  if negb (String.eqb "https://m/" (Str.strip (base_media_url cat)))
     && (catalog_version cat <=? 3)%Z
  then inl (SystemExit
         ("ERROR: " +:+ gate_message 3 (catalog_version cat)
            ["baseMediaUrl changed ('" +:+ "https://m/" +:+ "' -> '"
             +:+ Str.strip (base_media_url cat) +:+ "')"]))
  else inr tt.
Proof.
  intros old_manifest RT wb cat w.
  apply (missing_catalog_counts_as_unchanged (H := RT) w wb cat
           (Json.dumps old_manifest) 3 "https://m/");
    vm_compute; reflexivity.
Defined.

(** Three manifests: one without the key, one whose version is the float
    3.5, which converts to 3, and one whose version is [null]. *)
Lemma old_manifest_parsing_witness :
  let no_key := JObj [("songsUrl", JStr SONGS_URL)] in
  let fraction := JObj [("catalogVersion", JFloat (FFinite false 7 (-1)))] in
  let null := JObj [("catalogVersion", JNull)] in
  let RT := table_runtime [no_key; fraction; null] in
  (∃ url, parse_old_manifest (Json.dumps no_key) = inr (0, url)) ∧
  parse_old_manifest (Json.dumps fraction) = inr (3, "") ∧
  (∃ e, parse_old_manifest (Json.dumps null) = inl e).
Proof.
  intros no_key fraction null RT. split; [|split].
  - apply (proj1 (old_manifest_parsing (H := RT) (Json.dumps no_key))
                 [("songsUrl", JStr SONGS_URL)]);
      vm_compute; reflexivity.
  - apply (proj1 (proj2 (old_manifest_parsing (H := RT) (Json.dumps fraction)))
                 [("catalogVersion", JFloat (FFinite false 7 (-1)))] 3);
      vm_compute; reflexivity.
  - apply (proj2 (proj1 (proj2 (proj2
             (old_manifest_parsing (H := RT) (Json.dumps null)))))).
    right. right. exists [("catalogVersion", JNull)], JNull.
    split; [vm_compute; reflexivity|]. split; [reflexivity | exact I].
Defined.

(** C10 as stated fails: the published manifest is the JSON text of an empty
    array.  It decodes, it holds no [catalogVersion] at all, and the strict
    run stops with the cannot-parse error. *)
Lemma non_object_manifest_cannot_parse :
  let RT := table_runtime [JArr []] in
  let w := world_of (Some (demo_book 3 "https://m/"))
             [("docs/latest.json", "[]")] "1" noon in
  json_loads "[]" = Some (JArr []) ∧
  parse_old_manifest "[]" = inl (SystemExit (cannot_parse_latest +:+ "invalid")) ∧
  fst (main w) = inl (SystemExit (cannot_parse_latest +:+ "invalid")).
Proof. vm_compute. done. Qed.

(** * Further properties of the script *)

(** ** Reading the sheets *)

Lemma last_match_Some {A} (P : A → bool) (l : list A) i x :
  last_match P l = Some (i, x) ↔
  l !! i = Some x ∧ P x = true ∧ ∀ j y, (i < j)%nat → l !! j = Some y → P y = false.
Proof.
  revert i x. induction l as [|a l IH]; intros i x; simpl.
  - split; [done | by intros [? _]].
  - destruct (last_match P l) as [[j y]|] eqn:Hl.
    + split.
      * intros [= <- <-]. destruct (proj1 (IH j y) eq_refl) as (Hj & HP & Hlast).
        repeat split; [done..|].
        intros [|j'] y' Hlt Hy'; [lia|]. simpl in Hy'. eapply Hlast; [|done]. lia.
      * intros (Hi & HP & Hlast).
        destruct (proj1 (IH j y) eq_refl) as (Hj & HPy & Hlasty).
        destruct i as [|i].
        -- rewrite (Hlast (S j) y) in HPy; [done | lia | done].
        -- simpl in Hi. f_equal.
           destruct (lt_eq_lt_dec i j) as [[Hlt|Heq]|Hgt].
           ++ rewrite (Hlast (S j) y) in HPy; [done | lia | done].
           ++ subst. congruence.
           ++ rewrite (Hlasty i x) in HP; [done | lia | done].
    + assert (∀ j y, l !! j = Some y → P y = false) as Hnone.
      { clear -Hl. induction l as [|a l IH]; intros j y; [done|].
        simpl in Hl. destruct (last_match P l) as [[]|]; [done|].
        destruct (P a) eqn:HPa; [done|].
        destruct j; simpl; [by intros [= <-] | by apply IH]. }
      destruct (P a) eqn:HPa.
      * split.
        -- intros [= <- <-]. repeat split; [done..|].
           intros [|j] y Hlt Hy; [lia|]. by eapply Hnone.
        -- intros (Hi & HP & Hlast). destruct i; simpl in Hi; [congruence|].
           by rewrite (Hnone _ _ Hi) in HP.
      * split; [done|]. intros (Hi & HP & _).
        destruct i; simpl in Hi; [congruence|]. by rewrite (Hnone _ _ Hi) in HP.
Qed.

Lemma last_match_None {A} (P : A → bool) (l : list A) :
  last_match P l = None ↔ ∀ x, x ∈ l → P x = false.
Proof.
  induction l as [|a l IH]; simpl.
  - split; [intros _ x Hx; by apply elem_of_nil in Hx | done].
  - destruct (last_match P l) as [[j y]|] eqn:Hl.
    + split; [done|]. intros Hall.
      apply last_match_Some in Hl as (Hj & HP & _).
      rewrite Hall in HP; [done|]. apply list_elem_of_further.
      by eapply list_elem_of_lookup_2.
    + destruct (P a) eqn:HPa.
      * split; [done|]. intros Hall. rewrite Hall in HPa; [done|].
        apply list_elem_of_here.
      * split; [|done]. intros _ x [->|Hx]%elem_of_cons; [done|].
        by apply (proj1 IH).
Qed.

(** The header map after the loop: the last column of a name wins. *)
Lemma headers_of_lookup first : ∀ idx h name,
  name ≠ "" →
  headers_of idx first h !! name =
  match last_match (fun c => String.eqb (_s c) name) first with
  | Some (j, _) => Some (idx + j)%nat
  | None => h !! name
  end.
Proof.
  induction first as [|c first IH]; intros idx h name Hname; simpl; [done|].
  rewrite IH by done.
  destruct (last_match _ first) as [[j y]|]; [f_equal; lia|].
  destruct (String.eqb_spec (_s c) name) as [Heq|Hne].
  - rewrite Heq. destruct name; [done|]. simpl.
    rewrite lookup_insert_eq. f_equal. lia.
  - destruct (Str.nonempty (_s c)); [by rewrite lookup_insert_ne|done].
Qed.

Lemma headers_of_blank first : ∀ idx h,
  h !! "" = None → headers_of idx first h !! "" = None.
Proof.
  induction first as [|c first IH]; intros idx h Hh; simpl; [done|].
  apply IH. destruct (_s c) eqn:E; simpl; [done|]. by rewrite lookup_insert_ne.
Qed.

(** X1: the header map of a sheet resolves a name to the last column of the
    first row whose trimmed cell is that name, and a blank header cell names
    no column. *)
Theorem header_lookup (ws : sheet) (h : gmap string nat) :
  sheet_headers ws = inr h →
  ∃ first,
    ws !! 0%nat = Some first ∧
    h !! "" = None ∧
    ∀ name i,
      h !! name = Some i ↔
      name ≠ "" ∧ (∃ c, first !! i = Some c ∧ _s c = name) ∧
      ∀ j c, (i < j)%nat → first !! j = Some c → _s c ≠ name.
Proof.
  unfold sheet_headers, iter_rows. simpl. destruct ws as [|first ws]; [done|].
  intros [= <-]. exists first. split; [done|]. split.
  - by apply headers_of_blank.
  - intros name i. destruct (decide (name = "")) as [->|Hname].
    + rewrite headers_of_blank by done. split; [done | by intros [? _]].
    + rewrite headers_of_lookup by done. rewrite lookup_empty. simpl.
      destruct (last_match _ first) as [[j y]|] eqn:Hl.
      * apply last_match_Some in Hl as (Hj & HP%String.eqb_eq & Hlast). split.
        -- intros [= <-]. split; [done|]. split; [eauto|].
           intros j' c Hlt Hc. by apply String.eqb_neq, (Hlast j').
        -- intros (_ & (c & Hc & Hcname) & Hlast'). f_equal.
           destruct (lt_eq_lt_dec i j) as [[Hlt|Heq]|Hgt]; [|done|].
           ++ by destruct (Hlast' j y Hlt Hj).
           ++ apply String.eqb_eq in Hcname. by rewrite (Hlast i c Hgt Hc) in Hcname.
      * split; [done|]. intros (_ & (c & Hc & Hcname) & _).
        apply String.eqb_eq in Hcname.
        rewrite (proj1 (last_match_None _ _) Hl c) in Hcname; [done|].
        by eapply list_elem_of_lookup_2.
Qed.

Lemma header_lookup_witness :
  ∃ first,
    [[CStr "id"; CNone; CStr " id "; CStr "title"]] !! 0%nat = Some first ∧
    headers_of 0 [CStr "id"; CNone; CStr " id "; CStr "title"] ∅ !! "" = None ∧
    ∀ name i,
      headers_of 0 [CStr "id"; CNone; CStr " id "; CStr "title"] ∅ !! name = Some i ↔
      name ≠ "" ∧ (∃ c, first !! i = Some c ∧ _s c = name) ∧
      ∀ j c, (i < j)%nat → first !! j = Some c → _s c ≠ name.
Proof.
  apply (header_lookup [[CStr "id"; CNone; CStr " id "; CStr "title"]]).
  reflexivity.
Defined.

Lemma read_meta_row_inr meta row meta' :
  read_meta_row meta row = inr meta' →
  row ≠ [] ∧
  meta' = if Str.nonempty (meta_key row)
          then <[meta_key row := meta_value row]> meta else meta.
Proof.
  destruct row as [|c0 [|c1 rest]]; simpl; [done|..]; by intros [= <-].
Qed.

Lemma read_meta_rows_lookup rows : ∀ meta meta' key,
  read_meta_rows meta rows = inr meta' →
  meta' !! key =
  match last_match (fun r => String.eqb (meta_key r) key && Str.nonempty key) rows with
  | Some (_, r) => Some (meta_value r)
  | None => meta !! key
  end.
Proof.
  induction rows as [|row rows IH]; intros meta meta' key; simpl.
  - by intros [= <-].
  - intros Hrun. apply bind_inr in Hrun as (meta1 & Hrow & Hrun).
    rewrite (IH _ _ _ Hrun).
    destruct (last_match _ rows) as [[j r]|]; [done|].
    apply read_meta_row_inr in Hrow as [_ ->].
    destruct (String.eqb_spec (meta_key row) key) as [Heq|Hne]; simpl.
    + rewrite Heq. destruct (Str.nonempty key); [by rewrite lookup_insert_eq|done].
    + destruct (Str.nonempty (meta_key row)); [by rewrite lookup_insert_ne|done].
Qed.

Lemma read_meta_rows_inl rows : ∀ meta e,
  read_meta_rows meta rows = inl e → e = IndexError ∧ [] ∈ rows.
Proof.
  induction rows as [|row rows IH]; intros meta e; simpl; [done|].
  intros [Hrow|(meta1 & _ & Hrun)]%bind_inl.
  - destruct row; [|done]. injection Hrow as <-. split; [done|].
    apply list_elem_of_here.
  - destruct (IH _ _ Hrun) as [-> Hin]. split; [done|].
    by apply list_elem_of_further.
Qed.

Lemma read_meta_rows_total rows : ∀ meta,
  [] ∉ rows → ∃ meta', read_meta_rows meta rows = inr meta'.
Proof.
  induction rows as [|row rows IH]; intros meta Hne; simpl; [eauto|].
  apply not_elem_of_cons in Hne as [Hrow Hne].
  destruct row as [|c0 rest]; [done|]. simpl. by apply IH.
Qed.

(** X2: [read_meta] raises only for a row without cells, and then
    [IndexError]; otherwise it returns a map in which each non-blank key has
    the trimmed second cell of the last row with that key (the empty string
    when that row has one cell), and rows with a blank key leave no entry. *)
Theorem read_meta_last_wins (ws : sheet) :
  (∀ e, read_meta ws = inl e → e = IndexError ∧ [] ∈ ws) ∧
  ([] ∉ ws → ∃ meta, read_meta ws = inr meta) ∧
  (∀ meta key v,
     read_meta ws = inr meta →
     (meta !! key = Some v ↔
      key ≠ "" ∧
      ∃ i row, ws !! i = Some row ∧ meta_key row = key ∧ meta_value row = v ∧
               ∀ j row', (i < j)%nat → ws !! j = Some row' → meta_key row' ≠ key)).
Proof.
  unfold read_meta, iter_rows. simpl. rewrite drop_0. split; [|split].
  - intros e. apply read_meta_rows_inl.
  - apply read_meta_rows_total.
  - intros meta key v Hrun.
    rewrite (read_meta_rows_lookup ws ∅ meta key Hrun), lookup_empty.
    destruct (last_match _ ws) as [[i r]|] eqn:Hl.
    + apply last_match_Some in Hl as (Hi & [Hkey%String.eqb_eq Hne%nonempty_true]%andb_true_iff & Hlast).
      split.
      * intros [= <-]. split; [done|]. exists i, r. repeat split; [done..|].
        intros j row' Hlt Hj Hk. specialize (Hlast j row' Hlt Hj).
        rewrite Hk, String.eqb_refl in Hlast. simpl in Hlast.
        by apply nonempty_false in Hlast.
      * intros (_ & i' & row & Hi' & Hk & <- & Hlast'). f_equal.
        destruct (lt_eq_lt_dec i i') as [[Hlt|Heq]|Hgt].
        -- specialize (Hlast i' row Hlt Hi').
           rewrite Hk, String.eqb_refl in Hlast. simpl in Hlast.
           by apply nonempty_false in Hlast.
        -- subst. congruence.
        -- by destruct (Hlast' i r Hgt Hi).
    + split; [done|]. intros (Hne & i & row & Hi & Hk & _).
      pose proof (proj1 (last_match_None _ _) Hl row
                    (list_elem_of_lookup_2 _ _ _ Hi)) as Hrow.
      cbv beta in Hrow. rewrite Hk, String.eqb_refl in Hrow. simpl in Hrow.
      by apply nonempty_false in Hrow.
Qed.

Lemma read_meta_last_wins_witness :
  let ws := [[CStr "catalogVersion"; CInt 1]; [CStr " "; CStr "x"];
             [CStr "catalogVersion"; CInt 2; CStr "y"]; [CStr "baseMediaUrl"]] in
  ∃ meta, read_meta ws = inr meta ∧ meta !! "catalogVersion" = Some "2" ∧
          meta !! "" = None.
Proof.
  intros ws. destruct (read_meta_last_wins ws) as (_ & Htotal & Hlookup).
  destruct Htotal as [meta Hmeta].
  { intros Hin. repeat (apply elem_of_cons in Hin as [Hin|Hin]; [done|]).
    by apply elem_of_nil in Hin. }
  exists meta. split; [done|]. split.
  - apply (Hlookup meta "catalogVersion" "2" Hmeta). split; [done|].
    exists 2%nat, [CStr "catalogVersion"; CInt 2; CStr "y"].
    repeat split; try (vm_compute; reflexivity).
    intros j row' Hlt Hj. destruct j as [|[|[|[|j]]]]; try lia.
    + injection Hj as <-. vm_compute. discriminate.
    + done.
  - destruct (meta !! "") as [v|] eqn:E; [|done].
    by apply (Hlookup meta "" v Hmeta) in E as [? _].
Defined.

(** ** Which sheets the loops accept *)

Lemma build_song_dict_total row h :
  _s (get_cell row h "id") ≠ "" → _s (get_cell row h "title") ≠ "" →
  _s (get_cell row h "hub") ≠ "" → _s (get_cell row h "lyrics") ≠ "" →
  ∃ song, build_song_dict row h = inr song.
Proof.
  intros H1%nonempty_true H2%nonempty_true H3%nonempty_true H4%nonempty_true.
  unfold build_song_dict. rewrite H1, H2, H3, H4. simpl. eauto.
Qed.

Lemma build_song_dict_fields row h song :
  build_song_dict row h = inr song →
  _s (get_cell row h "id") ≠ "" ∧ _s (get_cell row h "title") ≠ "" ∧
  _s (get_cell row h "hub") ≠ "" ∧ _s (get_cell row h "lyrics") ≠ "".
Proof.
  unfold build_song_dict.
  destruct (Str.nonempty (_s (get_cell row h "id"))) eqn:E1; [|done].
  destruct (Str.nonempty (_s (get_cell row h "title"))) eqn:E2; [|done].
  destruct (Str.nonempty (_s (get_cell row h "hub"))) eqn:E3; [|done].
  destruct (Str.nonempty (_s (get_cell row h "lyrics"))) eqn:E4; [|done].
  intros _. by rewrite <- !nonempty_true.
Qed.

Lemma songs_loop_accepts hs rows : ∀ i m0,
  (∃ m, for_rows (song_step hs) i rows m0 = inr m) ↔
  Forall (song_row_valid hs) rows ∧ NoDup (song_row_ids hs rows) ∧
  ∀ k, k ∈ song_row_ids hs rows → m0 !! k = None.
Proof.
  induction rows as [|row rows IH]; intros i m0.
  - simpl. split; [|eauto]. intros _. split; [constructor|]. split; [constructor|].
    intros k Hk. by apply elem_of_nil in Hk.
  - unfold song_row_ids. simpl. fold (song_row_ids hs rows).
    destruct (blank_row row) eqn:Hnb; simpl.
    + assert (song_row_valid hs row) by (intros ?; congruence).
      rewrite IH, Forall_cons. tauto.
    + rewrite Forall_cons, NoDup_cons. split.
      * intros [m Hrun]. apply bind_inr in Hrun as (m1 & Hstep & Hrun).
        unfold song_step in Hstep.
        apply bind_inr in Hstep as (song & Hbuild & Hstep).
        rewrite (build_song_dict_id _ _ _ Hbuild) in Hstep. simpl in Hstep.
        destruct (m0 !! _s (get_cell row hs "id")) eqn:Hfresh; [done|].
        injection Hstep as <-.
        destruct (proj1 (IH _ _) (ex_intro _ m Hrun)) as (Hvalid & Hnd & Hfree).
        split; [split; [|done]|split; [split; [|done]|]].
        -- intros _. by eapply build_song_dict_fields.
        -- intros Hin. specialize (Hfree _ Hin). by rewrite lookup_insert_eq in Hfree.
        -- intros k [->|Hk]%elem_of_cons; [done|]. specialize (Hfree _ Hk).
           apply lookup_insert_None in Hfree as [? _]. done.
      * intros ([Hrow Hvalid] & [Hnotin Hnd] & Hfree).
        destruct (Hrow Hnb) as (H1 & H2 & H3 & H4).
        destruct (build_song_dict_total row hs H1 H2 H3 H4) as [song Hbuild].
        unfold song_step. rewrite Hbuild. simpl.
        rewrite (build_song_dict_id _ _ _ Hbuild). simpl.
        rewrite (Hfree (_s (get_cell row hs "id"))) by apply list_elem_of_here.
        simpl. apply IH. repeat split; [done..|].
        intros k Hk. apply lookup_insert_None. split.
        -- apply Hfree. by apply list_elem_of_further.
        -- intros <-. done.
Qed.

Lemma song_row_ids_In hs rows k :
  k ∈ song_row_ids hs rows ↔
  ∃ row, row ∈ rows ∧ blank_row row = false ∧ _s (get_cell row hs "id") = k.
Proof.
  unfold song_row_ids. rewrite list_elem_of_omap. split.
  - intros (row & Hrow & Hk). exists row. split; [done|].
    destruct (blank_row row); [done|]. by injection Hk as <-.
  - intros (row & Hrow & Hnb & <-). exists row. split; [done|]. by rewrite Hnb.
Qed.

Lemma read_songs_ids_nonempty ws hs songs :
  read_songs ws = inr songs → sheet_headers ws = inr hs →
  song_row_ids hs (iter_rows 2 ws) ≠ [].
Proof.
  intros Hread Hhs. unfold read_songs in Hread. rewrite Hhs in Hread.
  simpl in Hread.
  apply bind_inr in Hread as (u & _ & Hread).
  apply bind_inr in Hread as (m & Hloop & Hread).
  case_bool_decide as Hm; [done|]. intros Hnil.
  apply songs_loop_spec in Hloop as [Hperm _].
  rewrite Hnil, map_to_list_empty in Hperm. simpl in Hperm.
  apply Permutation_nil_r, fmap_nil_inv, map_to_list_empty_iff in Hperm. done.
Qed.

(** X3: a songs sheet with a header row is accepted exactly when every
    non-blank data row has a non-empty id, title, hub and lyrics, no two
    non-blank rows have the same id, and at least one row is not blank. *)
Theorem songs_sheet_accepted (ws : sheet) (hs : gmap string nat) :
  sheet_headers ws = inr hs →
  ((∃ songs, read_songs ws = inr songs) ↔
   Forall (song_row_valid hs) (iter_rows 2 ws) ∧
   NoDup (song_row_ids hs (iter_rows 2 ws)) ∧
   song_row_ids hs (iter_rows 2 ws) ≠ []).
Proof.
  intros Hhs. unfold read_songs. rewrite Hhs. simpl. split.
  - intros [songs Hread].
    apply bind_inr in Hread as (_ & _ & Hread).
    apply bind_inr in Hread as (m & Hloop & Hread).
    case_bool_decide as Hm; [done|].
    destruct (proj1 (songs_loop_accepts hs _ 2 ∅) (ex_intro _ m Hloop))
      as (Hvalid & Hnd & _).
    repeat split; [done..|]. intros Hnil.
    apply songs_loop_spec in Hloop as [Hperm _].
    rewrite Hnil, map_to_list_empty in Hperm. simpl in Hperm.
    apply Permutation_nil_r, fmap_nil_inv, map_to_list_empty_iff in Hperm. done.
  - intros (Hvalid & Hnd & Hne).
    destruct (proj2 (songs_loop_accepts hs (iter_rows 2 ws) 2 ∅)) as [m Hloop].
    { split; [done|]. split; [done|]. intros k _. apply lookup_empty. }
    destruct (song_row_ids hs (iter_rows 2 ws)) as [|k ids] eqn:Hids; [done|].
    assert (k ∈ song_row_ids hs (iter_rows 2 ws)) as Hk
      by (rewrite Hids; apply list_elem_of_here).
    apply song_row_ids_In in Hk as (row & Hrow & Hnb & _).
    rewrite Forall_forall in Hvalid.
    destruct (Hvalid row Hrow Hnb) as (H1 & H2 & H3 & H4).
    unfold check_column.
    destruct (get_cell_header _ _ _ H1) as [? ->].
    destruct (get_cell_header _ _ _ H2) as [? ->].
    destruct (get_cell_header _ _ _ H3) as [? ->].
    destruct (get_cell_header _ _ _ H4) as [? ->].
    simpl. rewrite Hloop. simpl.
    case_bool_decide as Hm; [|eauto]. exfalso.
    apply songs_loop_spec in Hloop as [Hperm _].
    rewrite Hm, Hids, map_to_list_empty in Hperm. simpl in Hperm.
    by apply Permutation_nil_cons in Hperm.
Qed.

Lemma songs_sheet_accepted_witness :
  (∃ songs, read_songs (songs_header :: demo_songs) = inr songs) ↔
  Forall (song_row_valid (headers_of 0 songs_header ∅))
         (iter_rows 2 (songs_header :: demo_songs)) ∧
  NoDup (song_row_ids (headers_of 0 songs_header ∅)
           (iter_rows 2 (songs_header :: demo_songs))) ∧
  song_row_ids (headers_of 0 songs_header ∅)
    (iter_rows 2 (songs_header :: demo_songs)) ≠ [].
Proof.
  apply (songs_sheet_accepted (songs_header :: demo_songs)). reflexivity.
Defined.

Lemma build_version_dict_total row h :
  _s (get_cell row h "songId") ≠ "" → _s (get_cell row h "id") ≠ "" →
  ∃ ver, build_version_dict row h = inr (_s (get_cell row h "songId"), ver).
Proof.
  intros H1%nonempty_true H2%nonempty_true.
  unfold build_version_dict. rewrite H1, H2. simpl. eauto.
Qed.

Lemma build_glossary_item_total row h :
  _s (get_cell row h "songId") ≠ "" → _s (get_cell row h "term") ≠ "" →
  _s (get_cell row h "definition") ≠ "" →
  build_glossary_item row h =
  inr (_s (get_cell row h "songId"),
       [("term", JStr (_s (get_cell row h "term")));
        ("definition", JStr (_s (get_cell row h "definition")))]).
Proof.
  intros H1%nonempty_true H2%nonempty_true H3%nonempty_true.
  unfold build_glossary_item. by rewrite H1, H2, H3.
Qed.

Lemma build_glossary_item_fields row h song_id item :
  build_glossary_item row h = inr (song_id, item) →
  _s (get_cell row h "songId") ≠ "" ∧ _s (get_cell row h "term") ≠ "" ∧
  _s (get_cell row h "definition") ≠ "".
Proof.
  unfold build_glossary_item.
  destruct (Str.nonempty (_s (get_cell row h "songId"))) eqn:E1; [|done].
  destruct (Str.nonempty (_s (get_cell row h "term"))) eqn:E2; [|done].
  destruct (Str.nonempty (_s (get_cell row h "definition"))) eqn:E3; [|done].
  intros _. by rewrite <- !nonempty_true.
Qed.

Lemma has_list_append key song v :
  has_list key song → ∃ song', list_append song key v = inr song'.
Proof. intros [l Hl]. unfold list_append. rewrite Hl. eauto. Qed.

Lemma list_append_has_list key key' song v song' :
  list_append song key v = inr song' → has_list key' song → has_list key' song'.
Proof.
  intros (l & Hl & ->)%list_append_inr [l' Hl'].
  destruct (decide (key = key')) as [<-|Hne].
  - eexists. apply dict_get_set_eq.
  - exists l'. by rewrite dict_get_set_ne.
Qed.

Lemma version_row_ids_cons hv k row rows :
  version_row_ids hv k (row :: rows) =
  (if blank_row row then []
   else if String.eqb (_s (get_cell row hv "songId")) k
        then [_s (get_cell row hv "id")] else [])
  ++ version_row_ids hv k rows.
Proof.
  unfold version_row_ids. simpl. destruct (blank_row row); [done|].
  by destruct (String.eqb _ k).
Qed.

Lemma glossary_row_terms_cons `{PyRuntime} hg k row rows :
  glossary_row_terms hg k (row :: rows) =
  (if blank_row row then []
   else if String.eqb (_s (get_cell row hg "songId")) k
        then [str_lower (Str.strip (_s (get_cell row hg "term")))] else [])
  ++ glossary_row_terms hg k rows.
Proof.
  unfold glossary_row_terms. simpl. destruct (blank_row row); [done|].
  by destruct (String.eqb _ k).
Qed.

Lemma for_rows_cons {S} (body : Z → list cell → S → res S) i row rows st :
  for_rows body i (row :: rows) st =
  bind (if blank_row row then ret st else body i row st)
       (for_rows body (i + 1) rows).
Proof. done. Qed.

(** The versions loop returns exactly when each row passes the checks on one
    row and no version id comes twice for a song, counting the ids seen
    before the loop. *)
Lemma versions_loop_accepts hv rows : ∀ i st0,
  map_Forall (fun _ song => has_list "versions" song) (vs_songs st0) →
  (∃ st, for_rows (version_step hv) i rows st0 = inr st) ↔
  Forall (version_row_valid hv (vs_songs st0)) rows ∧
  ∀ k, NoDup (version_row_ids hv k rows) ∧
       ∀ v, v ∈ version_row_ids hv k rows →
            v ∉ default ∅ (version_ids_per_song st0 !! k).
Proof.
  induction rows as [|row rows IH]; intros i st0 Hok.
  - simpl. split; [|eauto]. intros _. split; [constructor|].
    intros k. split; [constructor|]. intros v Hv. by apply elem_of_nil in Hv.
  - rewrite for_rows_cons, Forall_cons. setoid_rewrite version_row_ids_cons.
    destruct (blank_row row) eqn:Hnb; simpl.
    + assert (version_row_valid hv (vs_songs st0) row) by (intros ?; congruence).
      rewrite (IH _ _ Hok). tauto.
    + 
      set (sid := _s (get_cell row hv "songId")).
      set (vid := _s (get_cell row hv "id")).
      split.
      * intros [st Hrun]. apply bind_inr in Hrun as (st1 & Hstep & Hrun).
        unfold version_step in Hstep.
        apply bind_inr in Hstep as ([sid' ver] & Hbuild & Hstep). simpl in Hstep.
        rewrite (build_version_dict_id _ _ _ _ Hbuild) in Hstep.
        apply build_version_dict_inr in Hbuild as (-> & Hsid & Hvid & _).
        fold sid vid in Hstep, Hsid, Hvid.
        destruct (vs_songs st0 !! sid) as [song|] eqn:Hsong; [|done].
        simpl in Hstep. case_bool_decide as Hseen; [done|].
        apply bind_inr in Hstep as (song' & Happ & [= <-]).
        assert (map_Forall (fun _ s => has_list "versions" s)
                  (<[sid := song']> (vs_songs st0))) as Hok1.
        { apply map_Forall_insert_2; [|done].
          exact (list_append_has_list _ _ _ _ _ Happ (Hok _ _ Hsong)). }
        destruct (proj1 (IH _ (Build_versions_state _ _) Hok1) (ex_intro _ st Hrun))
          as [Hvalid Hids].
        simpl in Hvalid, Hids. split; [split|].
        -- intros _. fold sid vid. repeat split; [done..|]. by rewrite Hsong.
        -- eapply Forall_impl; [done|]. intros r Hr Hrnb.
           destruct (Hr Hrnb) as (? & ? & Hknown). repeat split; [done..|].
           destruct (decide (sid = _s (get_cell r hv "songId"))) as [<-|Hne];
             [by rewrite Hsong|by rewrite lookup_insert_ne in Hknown].
        -- intros k. destruct (Hids k) as [Hnd Hfree].
           destruct (decide (sid = k)) as [<-|Hne].
           ++ rewrite String.eqb_refl. rewrite lookup_insert_eq in Hfree.
              simpl in *. split.
              ** apply NoDup_cons. split; [|done]. intros Hin.
                 apply (Hfree _ Hin), elem_of_union_r. by apply elem_of_singleton.
              ** intros v [->|Hv]%elem_of_cons; [done|].
                 intros Hin. apply (Hfree _ Hv), elem_of_union_l. done.
           ++ rewrite (eqb_false_ne sid k) by done.
              by rewrite lookup_insert_ne in Hfree.
      * intros ([Hrow Hvalid] & Hids).
        destruct (Hrow Hnb) as (Hsid & Hvid & [song Hsong]).
        fold sid vid in Hsid, Hvid, Hsong.
        destruct (build_version_dict_total row hv Hsid Hvid) as [ver Hbuild].
        fold sid in Hbuild.
        unfold version_step. rewrite Hbuild. simpl. rewrite Hsong.
        rewrite (build_version_dict_id _ _ _ _ Hbuild). fold vid. simpl.
        destruct (Hids sid) as [Hnd Hfree]. rewrite String.eqb_refl in Hnd, Hfree.
        simpl in Hnd, Hfree. apply NoDup_cons in Hnd as [Hnotin Hnd].
        rewrite bool_decide_eq_false_2 by (apply Hfree, list_elem_of_here).
        destruct (has_list_append "versions" song (JObj ver) (Hok _ _ Hsong))
          as [song' Happ].
        rewrite Happ. simpl. apply IH; simpl.
        -- apply map_Forall_insert_2; [|done].
           exact (list_append_has_list _ _ _ _ _ Happ (Hok _ _ Hsong)).
        -- split.
           ++ eapply Forall_impl; [done|]. intros r Hr Hrnb.
              destruct (Hr Hrnb) as (? & ? & Hknown). repeat split; [done..|].
              destruct (decide (sid = _s (get_cell r hv "songId"))) as [<-|Hne];
                [by rewrite lookup_insert_eq|by rewrite lookup_insert_ne].
           ++ intros k. destruct (Hids k) as [Hndk Hfreek].
              destruct (decide (sid = k)) as [<-|Hne].
              ** rewrite lookup_insert_eq. simpl. split; [done|].
                 intros v Hv. apply not_elem_of_union. split.
                 --- apply Hfree. by apply list_elem_of_further.
                 --- intros ->%elem_of_singleton. done.
              ** rewrite (eqb_false_ne sid k) in Hndk, Hfreek by done.
                 by rewrite lookup_insert_ne.
Qed.

(** The glossary loop returns exactly when each row passes the checks on one
    row and no normalised term comes twice for a song. *)
Lemma glossary_loop_accepts `{PyRuntime} hg rows : ∀ i st0,
  map_Forall (fun _ song => has_list "glossary" song) (gs_songs st0) →
  (∃ st, for_rows (glossary_step hg) i rows st0 = inr st) ↔
  Forall (glossary_row_valid hg (gs_songs st0)) rows ∧
  ∀ k, NoDup (glossary_row_terms hg k rows) ∧
       ∀ t, t ∈ glossary_row_terms hg k rows →
            t ∉ default ∅ (terms_per_song st0 !! k).
Proof.
  induction rows as [|row rows IH]; intros i st0 Hok.
  - simpl. split; [|eauto]. intros _. split; [constructor|].
    intros k. split; [constructor|]. intros v Hv. by apply elem_of_nil in Hv.
  - rewrite for_rows_cons, Forall_cons. setoid_rewrite glossary_row_terms_cons.
    destruct (blank_row row) eqn:Hnb; simpl.
    + assert (glossary_row_valid hg (gs_songs st0) row) by (intros ?; congruence).
      rewrite (IH _ _ Hok). tauto.
    + set (sid := _s (get_cell row hg "songId")).
      set (term := str_lower (Str.strip (_s (get_cell row hg "term")))).
      split.
      * intros [st Hrun]. apply bind_inr in Hrun as (st1 & Hstep & Hrun).
        unfold glossary_step in Hstep.
        apply bind_inr in Hstep as ([sid' item] & Hbuild & Hstep). simpl in Hstep.
        pose proof (build_glossary_item_fields _ _ _ _ Hbuild) as (Hsid & Hterm & Hdef).
        rewrite (build_glossary_item_total _ _ Hsid Hterm Hdef) in Hbuild.
        injection Hbuild as <- <-. fold sid in Hstep, Hsid.
        destruct (gs_songs st0 !! sid) as [song|] eqn:Hsong; [|done].
        simpl in Hstep. fold term in Hstep.
        case_bool_decide as Hseen; [done|].
        apply bind_inr in Hstep as (song' & Happ & [= <-]).
        assert (map_Forall (fun _ s => has_list "glossary" s)
                  (<[sid := song']> (gs_songs st0))) as Hok1.
        { apply map_Forall_insert_2; [|done].
          exact (list_append_has_list _ _ _ _ _ Happ (Hok _ _ Hsong)). }
        destruct (proj1 (IH _ (Build_glossary_state _ _ _) Hok1)
                    (ex_intro _ st Hrun)) as [Hvalid Hids].
        simpl in Hvalid, Hids. split; [split|].
        -- intros _. fold sid. repeat split; [done..|]. by rewrite Hsong.
        -- eapply Forall_impl; [done|]. intros r Hr Hrnb.
           destruct (Hr Hrnb) as (? & ? & ? & Hknown). repeat split; [done..|].
           destruct (decide (sid = _s (get_cell r hg "songId"))) as [<-|Hne];
             [by rewrite Hsong|by rewrite lookup_insert_ne in Hknown].
        -- intros k. destruct (Hids k) as [Hnd Hfree].
           destruct (decide (sid = k)) as [<-|Hne].
           ++ rewrite String.eqb_refl. rewrite lookup_insert_eq in Hfree.
              simpl in *. split.
              ** apply NoDup_cons. split; [|done]. intros Hin.
                 apply (Hfree _ Hin), elem_of_union_r. by apply elem_of_singleton.
              ** intros v [->|Hv]%elem_of_cons; [done|].
                 intros Hin. apply (Hfree _ Hv), elem_of_union_l. done.
           ++ rewrite (eqb_false_ne sid k) by done.
              by rewrite lookup_insert_ne in Hfree.
      * intros ([Hrow Hvalid] & Hids).
        destruct (Hrow Hnb) as (Hsid & Hterm & Hdef & [song Hsong]).
        unfold glossary_step.
        rewrite (build_glossary_item_total _ _ Hsid Hterm Hdef). simpl.
        fold sid in Hsid, Hsong |- *. rewrite Hsong. simpl. fold term.
        destruct (Hids sid) as [Hnd Hfree]. rewrite String.eqb_refl in Hnd, Hfree.
        simpl in Hnd, Hfree. apply NoDup_cons in Hnd as [Hnotin Hnd].
        rewrite bool_decide_eq_false_2 by (apply Hfree, list_elem_of_here).
        destruct (has_list_append "glossary" song
                    (JObj [("term", JStr (_s (get_cell row hg "term")));
                           ("definition", JStr (_s (get_cell row hg "definition")))])
                    (Hok _ _ Hsong)) as [song' Happ].
        rewrite Happ. simpl. apply IH; simpl.
        -- apply map_Forall_insert_2; [|done].
           exact (list_append_has_list _ _ _ _ _ Happ (Hok _ _ Hsong)).
        -- split.
           ++ eapply Forall_impl; [done|]. intros r Hr Hrnb.
              destruct (Hr Hrnb) as (? & ? & ? & Hknown). repeat split; [done..|].
              destruct (decide (sid = _s (get_cell r hg "songId"))) as [<-|Hne];
                [by rewrite lookup_insert_eq|by rewrite lookup_insert_ne].
           ++ intros k. destruct (Hids k) as [Hndk Hfreek].
              destruct (decide (sid = k)) as [<-|Hne].
              ** rewrite lookup_insert_eq. simpl. split; [done|].
                 intros v Hv. apply not_elem_of_union. split.
                 --- apply Hfree. by apply list_elem_of_further.
                 --- intros ->%elem_of_singleton. done.
              ** rewrite (eqb_false_ne sid k) in Hndk, Hfreek by done.
                 by rewrite lookup_insert_ne.
Qed.

(** ** The shape of the songs between the stages *)

Lemma read_songs_has_lists ws songs :
  read_songs ws = inr songs →
  map_Forall (fun _ song => has_list "versions" song ∧ has_list "glossary" song)
             songs.
Proof.
  intros Hread. pose proof Hread as Hread'. unfold read_songs in Hread'.
  apply bind_inr in Hread' as (hs & Hhs & _).
  apply (read_songs_inr _ _ hs) in Hread; [|done].
  apply songs_loop_spec in Hread as [_ Hsongs].
  intros k song Hk.
  destruct (Hsongs k song Hk) as [Hk0|(row & _ & _ & Hbuild & _)];
    [by rewrite lookup_empty in Hk0|].
  apply build_song_dict_inr in Hbuild as (_ & _ & Hgl & Hver & _).
  split; eexists; done.
Qed.

Lemma extend_list_has_list key key' extra song :
  has_list key' song → has_list key' (extend_list key extra song).
Proof.
  intros [l Hl]. unfold extend_list.
  destruct (Dict.get key song) as [[]|] eqn:E; try by exists l.
  destruct (decide (key = key')) as [<-|Hne].
  - eexists. apply dict_get_set_eq.
  - exists l. by rewrite dict_get_set_ne.
Qed.

Lemma read_versions_has_lists ws songs0 songs1 :
  map_Forall (fun _ song => has_list "versions" song ∧ has_list "glossary" song)
             songs0 →
  read_versions ws songs0 = inr songs1 →
  map_Forall (fun _ song => has_list "glossary" song) songs1 ∧
  ∀ k, is_Some (songs1 !! k) ↔ is_Some (songs0 !! k).
Proof.
  intros Hok Hread. pose proof Hread as Hread'. unfold read_versions in Hread'.
  apply bind_inr in Hread' as (hv & Hhv & _).
  destruct (read_versions_inr _ _ _ hv Hread Hhv) as (st & Hloop & Heq).
  rewrite Heq. clear Heq.
  pose proof (versions_loop_spec _ _ _ _ _ Hloop) as Hs. simpl in Hs. split.
  - intros k song Hk. rewrite Hs in Hk.
    destruct (songs0 !! k) as [song0|] eqn:Hk0; [|done]. injection Hk as <-.
    apply extend_list_has_list. by destruct (Hok _ _ Hk0).
  - intros k. rewrite Hs. by rewrite fmap_is_Some.
Qed.

(** X4: a versions sheet with a header row is accepted, for the songs of an
    accepted songs sheet, exactly when the header names [songId] and [id],
    every non-blank data row has a non-empty songId and id and its songId is
    the id of a song, and no version id comes twice for the same song.  The
    same version id under two songs is accepted. *)
Theorem versions_sheet_accepted (ws_s ws_v : sheet) (songs0 : gmap string pydict)
    (hv : gmap string nat) :
  read_songs ws_s = inr songs0 →
  sheet_headers ws_v = inr hv →
  ((∃ songs1, read_versions ws_v songs0 = inr songs1) ↔
   is_Some (hv !! "songId") ∧ is_Some (hv !! "id") ∧
   Forall (version_row_valid hv songs0) (iter_rows 2 ws_v) ∧
   ∀ k, NoDup (version_row_ids hv k (iter_rows 2 ws_v))).
Proof.
  intros Hsongs Hhv.
  assert (map_Forall (fun _ song => has_list "versions" song) songs0) as Hok.
  { intros k song Hk. by destruct (read_songs_has_lists _ _ Hsongs k song Hk). }
  pose proof (versions_loop_accepts hv (iter_rows 2 ws_v) 2
                {| vs_songs := songs0; version_ids_per_song := ∅ |} Hok) as Hloop.
  simpl in Hloop. unfold read_versions. rewrite Hhv. simpl. split.
  - intros [songs1 Hread].
    apply bind_inr in Hread as (u & Hcols & Hread).
    apply bind_inr in Hread as (st & Hrun & _).
    destruct (hv !! "songId"); [|done]. destruct (hv !! "id"); [|done].
    destruct (proj1 Hloop (ex_intro _ st Hrun)) as [Hvalid Hids].
    repeat split; [eauto..|done|]. intros k. by destruct (Hids k).
  - intros ([? ->] & [? ->] & Hvalid & Hids). simpl.
    destruct (proj2 Hloop) as [st ->]; [|simpl; eauto].
    split; [done|]. intros k. split; [done|]. intros v _.
    rewrite lookup_empty. simpl. apply not_elem_of_empty.
Qed.

Lemma versions_sheet_accepted_witness :
  (∃ songs1,
     read_versions (versions_header :: demo_versions)
       (songs_by_id (catalog_or_empty
          (read_catalog (H := table_runtime [])
             (book 3 "" demo_songs [] [])))) = inr songs1) ↔
  is_Some (headers_of 0 versions_header ∅ !! "songId") ∧
  is_Some (headers_of 0 versions_header ∅ !! "id") ∧
  Forall (version_row_valid (headers_of 0 versions_header ∅)
            (songs_by_id (catalog_or_empty
               (read_catalog (H := table_runtime [])
                  (book 3 "" demo_songs [] [])))))
         (iter_rows 2 (versions_header :: demo_versions)) ∧
  ∀ k, NoDup (version_row_ids (headers_of 0 versions_header ∅) k
                (iter_rows 2 (versions_header :: demo_versions))).
Proof.
  apply (versions_sheet_accepted (songs_header :: demo_songs));
    vm_compute; reflexivity.
Defined.

(** X5: a glossary sheet with a header row is accepted, after the songs and
    the versions sheet, exactly when the header names [songId], [term] and
    [definition], every non-blank data row has the three fields non-empty
    and its songId is the id of a song, and no term comes twice for the same
    song once terms are trimmed and lower-cased. *)
Theorem glossary_sheet_accepted `{PyRuntime} (ws_s ws_v ws_g : sheet)
    (songs0 songs1 : gmap string pydict) (hg : gmap string nat) :
  read_songs ws_s = inr songs0 →
  read_versions ws_v songs0 = inr songs1 →
  sheet_headers ws_g = inr hg →
  ((∃ st, read_glossary ws_g songs1 = inr st) ↔
   is_Some (hg !! "songId") ∧ is_Some (hg !! "term") ∧
   is_Some (hg !! "definition") ∧
   Forall (glossary_row_valid hg songs0) (iter_rows 2 ws_g) ∧
   ∀ k, NoDup (glossary_row_terms hg k (iter_rows 2 ws_g))).
Proof.
  intros Hsongs Hversions Hhg.
  destruct (read_versions_has_lists ws_v songs0 songs1
              (read_songs_has_lists _ _ Hsongs) Hversions) as [Hok Hdom].
  pose proof (glossary_loop_accepts hg (iter_rows 2 ws_g) 2
                {| gs_songs := songs1; terms_per_song := ∅;
                   term_defs_global := [] |} Hok) as Hloop.
  simpl in Hloop.
  assert (Forall (glossary_row_valid hg songs1) (iter_rows 2 ws_g) ↔
          Forall (glossary_row_valid hg songs0) (iter_rows 2 ws_g)) as Hsame.
  { split; intros HF; (eapply Forall_impl; [exact HF|]); intros row Hrow Hnb;
      destruct (Hrow Hnb) as (? & ? & ? & ?); repeat split; try done;
      by apply Hdom. }
  unfold read_glossary. rewrite Hhg. simpl. unfold check_column. split.
  - intros [st Hread].
    apply bind_inr in Hread as (u & Hcols & Hread).
    destruct (hg !! "songId"); [|done]. destruct (hg !! "term"); [|done].
    destruct (hg !! "definition"); [|done].
    destruct (proj1 Hloop (ex_intro _ st Hread)) as [Hvalid Hids].
    repeat split; [eauto..|by apply Hsame|]. intros k. by destruct (Hids k).
  - intros ([? ->] & [? ->] & [? ->] & Hvalid & Hids). simpl.
    apply Hloop. split; [by apply Hsame|]. intros k. split; [done|]. intros v _.
    rewrite lookup_empty. simpl. apply not_elem_of_empty.
Qed.

Lemma glossary_sheet_accepted_witness :
  let RT := table_runtime [] in
  let songs0 := songs_by_id (catalog_or_empty
                  (read_catalog (book 3 "" demo_songs [] []))) in
  let songs1 := songs_by_id (catalog_or_empty
                  (read_catalog (book 3 "" demo_songs demo_versions []))) in
  let hg := headers_of 0 glossary_header ∅ in
  (∃ st, read_glossary (glossary_header :: demo_glossary) songs1 = inr st) ↔
  is_Some (hg !! "songId") ∧ is_Some (hg !! "term") ∧
  is_Some (hg !! "definition") ∧
  Forall (glossary_row_valid hg songs0)
         (iter_rows 2 (glossary_header :: demo_glossary)) ∧
  ∀ k, NoDup (glossary_row_terms hg k
                (iter_rows 2 (glossary_header :: demo_glossary))).
Proof.
  intros RT songs0 songs1 hg.
  apply (glossary_sheet_accepted (H := RT) (songs_header :: demo_songs)
           (versions_header :: demo_versions));
    vm_compute; reflexivity.
Defined.

Lemma song_row_ids_length hs rows :
  List.length (song_row_ids hs rows)
  = List.length (filter (fun row => blank_row row = false) rows).
Proof.
  unfold song_row_ids. induction rows as [|row rows IH]; [done|].
  rewrite filter_cons. simpl.
  destruct (blank_row row); case_decide; try done; simpl;
    first [exact IH | f_equal; exact IH].
Qed.

(** X6: the song list of a catalog that reads has one song for each
    non-blank row of the songs sheet, no more and no fewer, and is not
    empty. *)
Theorem one_song_per_row `{PyRuntime} (wb : workbook) (cat : catalog)
    (ws_s : sheet) (hs : gmap string nat) :
  read_catalog wb = inr cat →
  get_sheet wb "songs" = inr ws_s → sheet_headers ws_s = inr hs →
  List.length (songs_list (songs_by_id cat))
  = List.length (filter (fun row => blank_row row = false) (iter_rows 2 ws_s)) ∧
  songs_list (songs_by_id cat) ≠ [].
Proof.
  intros Hread Hs Hhs.
  destruct (read_catalog_headers wb cat Hread)
    as (ws_s' & ws_v & ws_g & hs' & hv & hg & Hs' & Hhs' & Hv & Hhv & Hg & Hhg).
  assert (ws_s' = ws_s) as -> by congruence.
  assert (hs' = hs) as -> by congruence.
  destruct (catalog_songs wb cat ws_s ws_v ws_g hs hv hg) as [Hkeys _];
    try done.
  assert (List.length (songs_list (songs_by_id cat))
          = List.length (song_row_ids hs (iter_rows 2 ws_s))) as Hlen.
  { rewrite (Forall2_length _ _ _ (songs_list_keys (songs_by_id cat))).
    unfold sorted_keys. by rewrite sorted_perm, Hkeys. }
  pose proof (song_row_ids_length hs (iter_rows 2 ws_s)) as Hcount.
  split; [congruence|].
  apply read_catalog_inr in Hread
    as (ws_s' & _ & _ & songs0 & _ & _ & Hs'' & _ & _ & Hsongs & _).
  assert (ws_s' = ws_s) as -> by congruence.
  pose proof (read_songs_ids_nonempty ws_s hs songs0 Hsongs Hhs) as Hne.
  intros Hnil. rewrite Hnil in Hlen. simpl in Hlen.
  destruct (song_row_ids hs (iter_rows 2 ws_s)); done.
Qed.

Lemma one_song_per_row_witness :
  let RT := table_runtime [] in
  let wb := demo_book 3 "https://m/" in
  let cat := catalog_or_empty (read_catalog wb) in
  List.length (songs_list (songs_by_id cat))
  = List.length (filter (fun row => blank_row row = false)
                   (iter_rows 2 (songs_header :: demo_songs))) ∧
  songs_list (songs_by_id cat) ≠ [].
Proof.
  intros RT wb cat.
  apply (one_song_per_row (H := RT) wb cat (songs_header :: demo_songs)
           (headers_of 0 songs_header ∅));
    vm_compute; reflexivity.
Defined.

(** ** What [main] raises *)

Lemma fail_is_fail {A} msg e : @_fail A msg = inl e → is_fail e.
Proof. intros [= <-]. by exists msg. Qed.

Lemma for_each_inr {A} (f : A → res unit) l u :
  for_each f l = inr u → ∀ x, x ∈ l → f x = inr tt.
Proof.
  induction l as [|x l IH]; simpl; intros Hrun y Hy.
  - by apply elem_of_nil in Hy.
  - apply bind_inr in Hrun as ([] & Hx & Hl).
    apply elem_of_cons in Hy as [->|Hy]; [done | by apply IH].
Qed.

Lemma has_sheet_get wb name :
  has_sheet wb name = true → ∃ ws, get_sheet wb name = inr ws.
Proof.
  unfold has_sheet. intros Hin%bool_decide_eq_true.
  induction wb as [|[n ws] wb IH]; simpl in *.
  - by apply elem_of_nil in Hin.
  - destruct (String.eqb_spec n name) as [->|Hne]; [eauto|].
    apply elem_of_cons in Hin as [->|Hin]; [done | by apply IH].
Qed.

Lemma checked_sheet wb name u :
  for_each (check_sheet wb) ["meta"; "songs"; "versions"; "glossary"] = inr u →
  name ∈ ["meta"; "songs"; "versions"; "glossary"] →
  ∃ ws, get_sheet wb name = inr ws.
Proof.
  intros Hall Hname. pose proof (for_each_inr _ _ _ Hall name Hname) as Hc.
  unfold check_sheet in Hc. apply has_sheet_get.
  by destruct (has_sheet wb name).
Qed.

Lemma sheet_headers_inl ws e :
  sheet_headers ws = inl e → e = StopIteration ∧ ws = [].
Proof.
  unfold sheet_headers, iter_rows. simpl. rewrite drop_0.
  destruct ws; [by intros [= <-] | done].
Qed.

Lemma check_column_inl sheet h col e :
  check_column sheet h col = inl e → is_fail e.
Proof. unfold check_column. destruct (h !! col); [done | apply fail_is_fail]. Qed.

Lemma song_step_inl hs i row m e : song_step hs i row m = inl e → is_fail e.
Proof.
  unfold song_step. intros [Hbuild|(song & Hbuild & Hstep)]%bind_inl.
  - apply build_song_dict_inl in Hbuild as [[_ ->]|[_ (f & _ & ->)]];
      eexists; reflexivity.
  - rewrite (build_song_dict_id _ _ _ Hbuild) in Hstep. simpl in Hstep.
    destruct (m !! _); [by eapply fail_is_fail | done].
Qed.

Lemma version_step_inl hv i row st e :
  map_Forall (fun _ song => has_list "versions" song) (vs_songs st) →
  version_step hv i row st = inl e → is_fail e.
Proof.
  intros Hok. unfold version_step.
  intros [Hbuild|([sid ver] & Hbuild & Hstep)]%bind_inl.
  - apply build_version_dict_inl in Hbuild as [[_ ->]|[_ ->]];
      eexists; reflexivity.
  - simpl in Hstep. rewrite (build_version_dict_id _ _ _ _ Hbuild) in Hstep.
    destruct (vs_songs st !! sid) as [song|] eqn:Hsong;
      [|by eapply fail_is_fail].
    simpl in Hstep. case_bool_decide; [by eapply fail_is_fail|].
    destruct (has_list_append "versions" song (JObj ver) (Hok _ _ Hsong))
      as [song' Happ].
    by rewrite Happ in Hstep.
Qed.

Lemma glossary_step_inl `{PyRuntime} hg i row st e :
  map_Forall (fun _ song => has_list "glossary" song) (gs_songs st) →
  glossary_step hg i row st = inl e → is_fail e.
Proof.
  intros Hok. unfold glossary_step.
  intros [Hbuild|([sid item] & Hbuild & Hstep)]%bind_inl.
  - apply build_glossary_item_inl in Hbuild
      as [[_ ->]|[(_ & _ & ->)|(_ & _ & ->)]]; eexists; reflexivity.
  - simpl in Hstep.
    pose proof (build_glossary_item_fields _ _ _ _ Hbuild) as (Hsid & Hterm & Hdef).
    rewrite (build_glossary_item_total _ _ Hsid Hterm Hdef) in Hbuild.
    injection Hbuild as <- <-.
    destruct (gs_songs st !! _) as [song|] eqn:Hsong;
      [|by eapply fail_is_fail].
    simpl in Hstep. case_bool_decide; [by eapply fail_is_fail|].
    destruct (has_list_append "glossary" song
                (JObj [("term", JStr (_s (get_cell row hg "term")));
                       ("definition", JStr (_s (get_cell row hg "definition")))])
                (Hok _ _ Hsong)) as [song' Happ].
    by rewrite Happ in Hstep.
Qed.

Lemma read_meta_inl ws e : read_meta ws = inl e → e = IndexError ∧ [] ∈ ws.
Proof.
  unfold read_meta, iter_rows. simpl. rewrite drop_0. apply read_meta_rows_inl.
Qed.

Lemma read_songs_inl ws e :
  read_songs ws = inl e → is_fail e ∨ (e = StopIteration ∧ ws = []).
Proof.
  unfold read_songs. intros [Hh|(hs & _ & Hrest)]%bind_inl.
  - right. by apply sheet_headers_inl.
  - left. apply bind_inl in Hrest as [Hcols|(u & _ & Hrest)].
    + apply for_each_inl in Hcols as (col & _ & Hcol).
      by eapply check_column_inl.
    + apply bind_inl in Hrest as [Hloop|(m & _ & Hrest)].
      * apply for_rows_inl in Hloop as (? & ? & ? & ? & _ & _ & _ & Hstep).
        by eapply song_step_inl.
      * case_bool_decide; [by eapply fail_is_fail | done].
Qed.

Lemma read_versions_inl ws songs0 e :
  map_Forall (fun _ song => has_list "versions" song) songs0 →
  read_versions ws songs0 = inl e → is_fail e ∨ (e = StopIteration ∧ ws = []).
Proof.
  intros Hok. unfold read_versions. intros [Hh|(hv & _ & Hrest)]%bind_inl.
  - right. by apply sheet_headers_inl.
  - left. apply bind_inl in Hrest as [Hcols|(u & _ & Hrest)].
    + destruct (hv !! "songId"), (hv !! "id"); try done; by eapply fail_is_fail.
    + apply bind_inl in Hrest as [Hloop|(st & _ & Hrest)]; [|done].
      apply for_rows_inl in Hloop as (pre & row & post & st' & _ & Hpre & _ & Hstep).
      eapply version_step_inl; [|done].
      pose proof (versions_loop_spec _ _ _ _ _ Hpre) as Hs. simpl in Hs.
      intros k song Hk. rewrite Hs in Hk.
      destruct (songs0 !! k) as [song0|] eqn:Hk0; [|done]. injection Hk as <-.
      apply extend_list_has_list. by eapply Hok.
Qed.

Lemma read_glossary_inl `{PyRuntime} ws songs1 e :
  map_Forall (fun _ song => has_list "glossary" song) songs1 →
  read_glossary ws songs1 = inl e → is_fail e ∨ (e = StopIteration ∧ ws = []).
Proof.
  intros Hok. unfold read_glossary. intros [Hh|(hg & _ & Hrest)]%bind_inl.
  - right. by apply sheet_headers_inl.
  - left. apply bind_inl in Hrest as [Hcols|(u & _ & Hloop)].
    + apply for_each_inl in Hcols as (col & _ & Hcol).
      by eapply check_column_inl.
    + apply for_rows_inl in Hloop as (pre & row & post & st' & _ & Hpre & _ & Hstep).
      eapply glossary_step_inl; [|done].
      pose proof (glossary_loop_spec _ _ _ _ _ Hpre) as Hs. simpl in Hs.
      intros k song Hk. rewrite Hs in Hk.
      destruct (songs1 !! k) as [song0|] eqn:Hk0; [|done]. injection Hk as <-.
      apply extend_list_has_list. by eapply Hok.
Qed.

Lemma read_catalog_inl `{PyRuntime} wb e :
  read_catalog wb = inl e →
  is_fail e ∨
  (e = StopIteration ∧
   ∃ name, name ∈ ["songs"; "versions"; "glossary"] ∧ get_sheet wb name = inr []) ∨
  (e = IndexError ∧ ∃ ws, get_sheet wb "meta" = inr ws ∧ [] ∈ ws).
Proof.
  unfold read_catalog. intros [Hsheets|(u & Hsheets & Hrest)]%bind_inl.
  { left. apply for_each_inl in Hsheets as (name & _ & Hname).
    unfold check_sheet in Hname. destruct (has_sheet wb name); [done|].
    by eapply fail_is_fail. }
  destruct (checked_sheet wb "meta" u Hsheets) as [ws_m Hm]; [compute_done|].
  destruct (checked_sheet wb "songs" u Hsheets) as [ws_s Hs]; [compute_done|].
  destruct (checked_sheet wb "versions" u Hsheets) as [ws_v Hv]; [compute_done|].
  destruct (checked_sheet wb "glossary" u Hsheets) as [ws_g Hg]; [compute_done|].
  rewrite Hm in Hrest. simpl in Hrest.
  apply bind_inl in Hrest as [Hmeta|(meta & _ & Hrest)].
  { right. right. destruct (read_meta_inl ws_m e Hmeta) as [-> ?].
    eauto. }
  apply bind_inl in Hrest as [Hver|(version & _ & Hrest)].
  { left. unfold read_catalog_version in Hver.
    destruct (meta !! "catalogVersion") as [v|]; [|by eapply fail_is_fail].
    destruct (int_of_str v); [done | by eapply fail_is_fail]. }
  rewrite Hs in Hrest. simpl in Hrest.
  apply bind_inl in Hrest as [Hsongs|(songs0 & Hsongs & Hrest)].
  { apply read_songs_inl in Hsongs as [?|[-> ->]]; [by left|].
    right. left. split; [done|]. exists "songs". split; [compute_done|done]. }
  pose proof (read_songs_has_lists _ _ Hsongs) as Hok0.
  rewrite Hv in Hrest. simpl in Hrest.
  apply bind_inl in Hrest as [Hversions|(songs1 & Hversions & Hrest)].
  { apply read_versions_inl in Hversions as [?|[-> ->]]; [by left| |].
    - right. left. split; [done|]. exists "versions". split; [compute_done|done].
    - intros k song Hk. by destruct (Hok0 k song Hk). }
  destruct (read_versions_has_lists _ _ _ Hok0 Hversions) as [Hok1 _].
  rewrite Hg in Hrest. simpl in Hrest.
  apply bind_inl in Hrest as [Hglossary|(st & _ & Hrest)]; [|done].
  apply read_glossary_inl in Hglossary as [?|[-> ->]]; [by left| |done].
  right. left. split; [done|]. exists "glossary". split; [compute_done|done].
Qed.

Lemma parse_old_manifest_inl `{PyRuntime} b e :
  parse_old_manifest b = inl e → is_fail e.
Proof.
  rewrite parse_old_manifest_cases.
  destruct (json_loads b) as [v|]; [|intros [= <-]; eexists; reflexivity].
  destruct v; try (intros [= <-]; eexists; reflexivity).
  destruct (py_int _); [intros [= <-]; eexists; reflexivity | done].
Qed.

Lemma songs_changed_of_inl `{PyRuntime} old new e :
  songs_changed_of old new = inl e → is_fail e.
Proof.
  unfold songs_changed_of, loads. destruct old as [b|]; [|done].
  destruct (json_loads b); [done|]. simpl. apply fail_is_fail.
Qed.

Lemma versioning_gate_inl `{PyRuntime} lb sb new version base e :
  versioning_gate lb sb new version base = inl e → is_fail e.
Proof.
  unfold versioning_gate. intros [Hparse|(old & _ & Hrest)]%bind_inl.
  - by eapply parse_old_manifest_inl.
  - apply bind_inl in Hrest as [Hsongs|(changed & _ & Hrest)].
    + by eapply songs_changed_of_inl.
    + destruct (_ && _); [by eapply fail_is_fail | done].
Qed.

Lemma rows_as_read_nil : rows_as_read [].
Proof. intros name ws. done. Qed.

Lemma rows_as_read_cons name ws wb :
  ws ≠ [] → [] ∉ ws → rows_as_read wb → rows_as_read ((name, ws) :: wb).
Proof.
  intros Hne Hrows Hwb name' ws'. simpl.
  destruct (String.eqb name name'); [by intros [= <-] | apply Hwb].
Qed.

(** X7: for a workbook with rows as the reader yields them, every exception
    raised by the checks of [main] on the workbook, from the sheet check to
    the last data sheet, is an exit through [_fail], with a message that
    starts with ERROR:, and so is every exception raised by the versioning
    gate on the bytes of the published files.  The dict and list accesses, the
    sheet lookups after the sheet check, the conversions and the library
    calls inside the gate let no other exception out.  Loading the workbook,
    reading the published files, printing and writing are not part of the
    statement. *)
Theorem checks_raise_only_fail `{PyRuntime} (wb : workbook) (e : pyexn) :
  rows_as_read wb →
  (read_catalog wb = inl e → is_fail e) ∧
  (∀ old_latest_bytes old_songs_bytes new_songs_json_bytes catalog_version
     base_media_url,
     versioning_gate old_latest_bytes old_songs_bytes new_songs_json_bytes
       catalog_version base_media_url = inl e →
     is_fail e).
Proof.
  intros Hshape. split.
  - intros [?|[[-> (name & _ & Hname)]|[-> (ws & Hws & Hin)]]]%read_catalog_inl.
    + done.
    + by destruct (Hshape name [] Hname) as [? _].
    + by destruct (Hshape "meta" ws Hws) as [_ ?].
  - intros lb sb new version base. apply versioning_gate_inl.
Qed.

(** A workbook whose only song has no title. *)
Lemma checks_raise_only_fail_witness :
  let RT := table_runtime [] in
  let wb := book 3 "" [[CStr "a"; CNone; CStr "don"; CStr "la la"]] [] [] in
  let e := SystemExit "ERROR: songs: empty title for id=a" in
  read_catalog wb = inl e ∧ is_fail e.
Proof.
  intros RT wb e. split; [vm_compute; reflexivity|].
  assert (rows_as_read wb) as Hshape.
  { unfold wb, book. repeat apply rows_as_read_cons; try done;
      try apply rows_as_read_nil;
      intros Hin; repeat (apply elem_of_cons in Hin as [Hin|Hin]; [done|]);
      by apply elem_of_nil in Hin. }
  apply (proj1 (checks_raise_only_fail (H := RT) wb e Hshape)).
  vm_compute. reflexivity.
Defined.

(** ** Runs that publish *)

(** The world after a run that passes the gate. *)
Lemma main_publishes `{PyRuntime} w wb cat :
  input_xlsx w = Some wb → read_catalog wb = inr cat →
  gate_of w cat = inr tt →
  ∃ out,
    main w =
    (inr tt,
     with_stdout
       (with_dirs
          (with_files w
             (published_files (files w)
                (songs_json_bytes (songs_list (songs_by_id cat)))
                (Json.dumps (JObj (manifest_of (catalog_version cat) (now_of w)
                                               (base_media_url cat))))))
          ({[DOCS_DIR]} ∪ ({[DIST_DIR]} ∪ dirs w)))
       out).
Proof.
  intros Hin Hread Hgate. rewrite (main_run w wb cat Hin Hread), Hgate.
  cbv zeta.
  destruct (publish_spec (songs_list (songs_by_id cat))
              (songs_json_bytes (songs_list (songs_by_id cat)))
              (catalog_version cat) (base_media_url cat)
              (with_stdout w (stdout w ++ (String.append "WARNING: "
                 <$> term_warnings (warning_table cat))))) as [out ->].
  by exists out.
Qed.

Lemma main_returns_world `{PyRuntime} w w' :
  main w = (inr tt, w') →
  ∃ wb cat out,
    input_xlsx w = Some wb ∧ read_catalog wb = inr cat ∧
    w' =
    with_stdout
      (with_dirs
         (with_files w
            (published_files (files w)
               (songs_json_bytes (songs_list (songs_by_id cat)))
               (Json.dumps (JObj (manifest_of (catalog_version cat) (now_of w)
                                              (base_media_url cat))))))
         ({[DOCS_DIR]} ∪ ({[DIST_DIR]} ∪ dirs w)))
      out.
Proof.
  intros Hmain.
  destruct (main_returns w w' Hmain) as (wb & cat & Hin & Hread & Hgate & _).
  destruct (main_publishes w wb cat Hin Hread Hgate) as [out Hpub].
  exists wb, cat, out. repeat split; [done..|]. congruence.
Qed.

(** X8: a run that returns leaves in [docs/] the same bytes as in [dist/],
    for both files, creates the two directories, and changes no other file
    and nothing of the workbook, the environment or the clock. *)
Theorem publish_frame `{PyRuntime} (w w' : world) :
  main w = (inr tt, w') →
  files w' !! "docs/songs.json" = files w' !! "dist/songs.json" ∧
  files w' !! "docs/latest.json" = files w' !! "dist/latest.json" ∧
  is_Some (files w' !! "docs/songs.json") ∧
  is_Some (files w' !! "docs/latest.json") ∧
  (∀ path,
     path ∉ ["dist/songs.json"; "dist/latest.json";
             "docs/songs.json"; "docs/latest.json"] →
     files w' !! path = files w !! path) ∧
  dirs w' = {["docs"]} ∪ ({["dist"]} ∪ dirs w) ∧
  input_xlsx w' = input_xlsx w ∧ environ w' = environ w ∧ clock w' = clock w.
Proof.
  intros (wb & cat & out & _ & _ & ->)%main_returns_world.
  cbn [files dirs input_xlsx environ clock with_stdout with_dirs with_files].
  unfold published_files.
  change (path_join DOCS_DIR LATEST_JSON_NAME) with "docs/latest.json".
  change (path_join DOCS_DIR SONGS_JSON_NAME) with "docs/songs.json".
  change (path_join DIST_DIR LATEST_JSON_NAME) with "dist/latest.json".
  change (path_join DIST_DIR SONGS_JSON_NAME) with "dist/songs.json".
  repeat split.
  - rewrite lookup_insert_ne by done. rewrite lookup_insert_eq.
    do 3 rewrite lookup_insert_ne by done. by rewrite lookup_insert_eq.
  - rewrite lookup_insert_eq. do 2 rewrite lookup_insert_ne by done.
    by rewrite lookup_insert_eq.
  - rewrite lookup_insert_ne by done. rewrite lookup_insert_eq. eauto.
  - rewrite lookup_insert_eq. eauto.
  - intros path Hpath.
    apply not_elem_of_cons in Hpath as [? Hpath].
    apply not_elem_of_cons in Hpath as [? Hpath].
    apply not_elem_of_cons in Hpath as [? Hpath].
    apply not_elem_of_cons in Hpath as [? _].
    by rewrite !lookup_insert_ne by done.
Qed.

Lemma publish_frame_witness :
  let RT := table_runtime [] in
  let w := world_of (Some (demo_book 3 "https://m/"))
             [("README.md", "istoki")] "" noon in
  let w' := snd (main w) in
  files w' !! "docs/songs.json" = files w' !! "dist/songs.json" ∧
  files w' !! "docs/latest.json" = files w' !! "dist/latest.json" ∧
  is_Some (files w' !! "docs/songs.json") ∧
  is_Some (files w' !! "docs/latest.json") ∧
  (∀ path,
     path ∉ ["dist/songs.json"; "dist/latest.json";
             "docs/songs.json"; "docs/latest.json"] →
     files w' !! path = files w !! path) ∧
  dirs w' = {["docs"]} ∪ ({["dist"]} ∪ dirs w) ∧
  input_xlsx w' = input_xlsx w ∧ environ w' = environ w ∧ clock w' = clock w.
Proof.
  intros RT w w'. apply (publish_frame (H := RT) w w').
  vm_compute. reflexivity.
Defined.

(** X9: when the strictness toggle is off, or no manifest has been published,
    a workbook that reads is always published: the published catalog is not
    read, however damaged it is, and the version is not compared. *)
Theorem permissive_run_publishes `{PyRuntime} (w : world) (wb : workbook)
    (cat : catalog) :
  input_xlsx w = Some wb → read_catalog wb = inr cat →
  is_strict (default "" (environ w !! "STRICT_VERSIONING")) = false ∨
  files w !! "docs/latest.json" = None →
  ∃ w', main w = (inr tt, w') ∧
        files w' !! "docs/songs.json"
        = Some (songs_json_bytes (songs_list (songs_by_id cat))).
Proof.
  intros Hin Hread Hoff. apply (main_gate_passes w wb cat Hin Hread).
  unfold gate_of.
  change (path_join DOCS_DIR LATEST_JSON_NAME) with "docs/latest.json".
  destruct Hoff as [-> | ->]; [done|]. by destruct (is_strict _).
Qed.

Lemma permissive_run_publishes_witness :
  let RT := table_runtime [] in
  let wb := demo_book 3 "https://m/" in
  let cat := catalog_or_empty (read_catalog wb) in
  let w := world_of (Some wb)
             [("docs/latest.json", "{broken"); ("docs/songs.json", "{broken")]
             "off" noon in
  ∃ w', main w = (inr tt, w') ∧
        files w' !! "docs/songs.json"
        = Some (songs_json_bytes (songs_list (songs_by_id cat))).
Proof.
  intros RT wb cat w.
  apply (permissive_run_publishes (H := RT) w wb cat);
    try (vm_compute; reflexivity).
  left. vm_compute. reflexivity.
Defined.

(** X10: in strict mode with a manifest that parses, a published catalog
    that does not decode stops the run with the cannot-parse error for
    [docs/songs.json], whatever the new version is, and nothing is written. *)
Theorem corrupt_catalog_stops `{PyRuntime} (w : world) (wb : workbook)
    (cat : catalog) (lb sb : string) (old_version : Z) (old_base : string) :
  input_xlsx w = Some wb → read_catalog wb = inr cat →
  is_strict (default "" (environ w !! "STRICT_VERSIONING")) = true →
  files w !! "docs/latest.json" = Some lb →
  parse_old_manifest lb = inr (old_version, old_base) →
  files w !! "docs/songs.json" = Some sb →
  json_loads sb = None →
  ∃ w',
    main w =
    (inl (SystemExit
       ("ERROR: STRICT_VERSIONING: cannot parse existing docs/songs.json: "
        +:+ exn_str (DecodeError sb))), w') ∧
    files w' = files w ∧ dirs w' = dirs w.
Proof.
  intros Hin Hread Hstrict Hlatest Hparse Hsongs Hloads.
  apply (main_gate_stops w wb cat _ Hin Hread).
  rewrite (gate_of_strict w cat lb Hstrict Hlatest).
  unfold versioning_gate. rewrite Hparse, Hsongs. simpl.
  unfold songs_changed_of, loads. by rewrite Hloads.
Qed.

Lemma corrupt_catalog_stops_witness :
  let old_manifest := JObj (manifest_of 3 "2026-01-01T00:00:00Z" "https://m/") in
  let RT := table_runtime [old_manifest] in
  let w := world_of (Some (demo_book 99 "https://m/"))
             [("docs/latest.json", Json.dumps old_manifest);
              ("docs/songs.json", "{broken")] "1" noon in
  ∃ w',
    main w =
    (inl (SystemExit
       ("ERROR: STRICT_VERSIONING: cannot parse existing docs/songs.json: "
        +:+ exn_str (DecodeError "{broken"))), w') ∧
    files w' = files w ∧ dirs w' = dirs w.
Proof.
  intros old_manifest RT w.
  apply (corrupt_catalog_stops (H := RT) w (demo_book 99 "https://m/")
           (catalog_or_empty (read_catalog (demo_book 99 "https://m/")))
           (Json.dumps old_manifest) "{broken" 3 "https://m/");
    vm_compute; reflexivity.
Defined.



(** X12: a second run over the same workbook after a run that published
    passes the gate again under the same version, in strict mode too,
    provided the decoder reads the two published files back as the documents
    that were written. *)
Theorem rerun_passes_gate `{PyRuntime} (w w' w2 : world) (wb : workbook)
    (cat : catalog) :
  input_xlsx w = Some wb → read_catalog wb = inr cat →
  main w = (inr tt, w') →
  input_xlsx w2 = Some wb →
  files w2 !! "docs/songs.json" = files w' !! "docs/songs.json" →
  files w2 !! "docs/latest.json" = files w' !! "docs/latest.json" →
  json_loads (songs_json_bytes (songs_list (songs_by_id cat)))
  = Some (JArr (JObj <$> songs_list (songs_by_id cat))) →
  json_loads (Json.dumps (JObj (manifest_of (catalog_version cat) (now_of w)
                                            (base_media_url cat))))
  = Some (JObj (manifest_of (catalog_version cat) (now_of w) (base_media_url cat))) →
  ∃ w2', main w2 = (inr tt, w2') ∧
         files w2' !! "docs/songs.json" = files w' !! "docs/songs.json".
Proof.
  intros Hin Hread Hmain Hin2 Hsongs Hlatest Hdec_songs Hdec_latest.
  destruct (main_returns w w' Hmain) as (wb' & cat' & Hin' & Hread' & _ & Hfiles).
  assert (wb' = wb) as -> by congruence.
  assert (cat' = cat) as -> by congruence.
  assert (files w' !! "docs/songs.json"
          = Some (songs_json_bytes (songs_list (songs_by_id cat)))) as Hs'.
  { rewrite Hfiles. unfold published_files.
    change (path_join DOCS_DIR LATEST_JSON_NAME) with "docs/latest.json".
    change (path_join DOCS_DIR SONGS_JSON_NAME) with "docs/songs.json".
    rewrite lookup_insert_ne by done. apply lookup_insert_eq. }
  assert (files w' !! "docs/latest.json"
          = Some (Json.dumps (JObj (manifest_of (catalog_version cat) (now_of w)
                                                (base_media_url cat))))) as Hl'.
  { rewrite Hfiles. unfold published_files.
    change (path_join DOCS_DIR LATEST_JSON_NAME) with "docs/latest.json".
    apply lookup_insert_eq. }
  rewrite Hs' in Hsongs |- *. rewrite Hl' in Hlatest.
  apply (main_gate_passes w2 wb cat Hin2 Hread).
  destruct (is_strict (default "" (environ w2 !! "STRICT_VERSIONING"))) eqn:Hstrict.
  - rewrite (gate_of_strict w2 cat _ Hstrict Hlatest), Hsongs.
    unfold versioning_gate. rewrite parse_old_manifest_cases, Hdec_latest.
    simpl. unfold songs_changed_of, loads, _sha256_bytes. rewrite Hdec_songs.
    simpl. fold (songs_json_bytes (songs_list (songs_by_id cat))).
    by rewrite !String.eqb_refl.
  - unfold gate_of. by rewrite Hstrict.
Qed.

Lemma rerun_passes_gate_witness :
  let wb := demo_book 3 "https://m/" in
  let docs :=
    [ JArr (JObj <$> songs_list (songs_by_id
         (catalog_or_empty (read_catalog (H := table_runtime []) wb))));
      JObj (manifest_of 3 "2026-02-09T12:34:56Z" "https://m/") ] in
  let RT := table_runtime docs in
  let w := world_of (Some wb) [] "1" noon in
  let w' := snd (main w) in
  let w2 := world_of (Some wb)
              [("docs/songs.json", Json.dumps (JArr (JObj <$> songs_list (songs_by_id
                   (catalog_or_empty (read_catalog (H := table_runtime []) wb))))));
               ("docs/latest.json",
                Json.dumps (JObj (manifest_of 3 "2026-02-09T12:34:56Z" "https://m/")))]
              "1" midnight in
  ∃ w2', main w2 = (inr tt, w2') ∧
         files w2' !! "docs/songs.json" = files w' !! "docs/songs.json".
Proof.
  intros wb docs RT w w' w2.
  apply (rerun_passes_gate (H := RT) w w' w2 wb
           (catalog_or_empty (read_catalog wb)));
    vm_compute; reflexivity.
Defined.

(** X13: with the four sheets present and a meta sheet whose rows all have a
    cell, the run stops before reading any song when the meta sheet has no
    [catalogVersion] key, and when [int] refuses the value under that key,
    taken from the last such row; the message quotes the value. *)
Theorem catalog_version_required `{PyRuntime} (w : world) (wb : workbook)
    (ws : sheet) (meta : gmap string string) :
  input_xlsx w = Some wb →
  for_each (check_sheet wb) ["meta"; "songs"; "versions"; "glossary"] = inr tt →
  get_sheet wb "meta" = inr ws → read_meta ws = inr meta →
  (meta !! "catalogVersion" = None →
   main w = (inl (SystemExit "ERROR: meta: missing catalogVersion"), w)) ∧
  (∀ v, meta !! "catalogVersion" = Some v → int_of_str v = None →
     main w = (inl (SystemExit ("ERROR: meta: catalogVersion is not int: " +:+ v)),
               w)).
Proof.
  intros Hin Hsheets Hm Hmeta. split.
  - intros Hnone. apply (main_read_fails w wb); [done|].
    unfold read_catalog. rewrite Hsheets. simpl. rewrite Hm. simpl.
    rewrite Hmeta. simpl. unfold read_catalog_version. by rewrite Hnone.
  - intros v Hv Hint. apply (main_read_fails w wb); [done|].
    unfold read_catalog. rewrite Hsheets. simpl. rewrite Hm. simpl.
    rewrite Hmeta. simpl. unfold read_catalog_version. by rewrite Hv, Hint.
Qed.

Lemma catalog_version_required_witness :
  let RT := table_runtime [] in
  let ws := [[CStr "catalogVersion"; CInt 3]; [CStr "catalogVersion"; CStr "3.0"]] in
  let wb := [("meta", ws); ("songs", songs_header :: demo_songs);
             ("versions", versions_header :: demo_versions);
             ("glossary", glossary_header :: demo_glossary)] in
  let w := world_of (Some wb) [] "" noon in
  main w = (inl (SystemExit "ERROR: meta: catalogVersion is not int: 3.0"), w).
Proof.
  intros RT ws wb w.
  refine (proj2 (catalog_version_required (H := RT) w wb ws
                   {["catalogVersion" := "3.0"]} _ _ _ _) "3.0" _ _);
    vm_compute; reflexivity.
Defined.

(** ** Lists in a cell *)

Lemma chars_rev_app s1 : ∀ s2,
  list_ascii_of_string (String.rev_app s1 s2)
  = rev (list_ascii_of_string s1) ++ list_ascii_of_string s2.
Proof.
  induction s1 as [|a s1 IH]; intros s2; simpl; [done|].
  rewrite IH. simpl. by rewrite <- app_assoc.
Qed.

Lemma chars_rev s : list_ascii_of_string (String.rev s) = rev (list_ascii_of_string s).
Proof. unfold String.rev. rewrite chars_rev_app. simpl. by rewrite app_nil_r. Qed.

Lemma lstrip_chars_le n : ∀ s c,
  (String.length s ≤ n)%nat →
  c ∈ list_ascii_of_string (Str.lstrip s) → c ∈ list_ascii_of_string s.
Proof.
  induction n as [|n IH]; intros s c Hlen.
  - destruct s; [done | simpl in Hlen; lia].
  - destruct s as [|a [|b [|d s3]]]; simpl in *; try done.
    + destruct (Str.space1 a); [by intros ?%elem_of_nil | done].
    + destruct (Str.space1 a).
      * intros Hc. apply list_elem_of_further. apply (IH (String b "")); [simpl; lia|done].
      * destruct (Str.space2 a b); [by intros ?%elem_of_nil | done].
    + destruct (Str.space1 a).
      * intros Hc. apply list_elem_of_further.
        apply (IH (String b (String d s3))); [simpl; lia|done].
      * destruct (Str.space2 a b).
        -- intros Hc. do 2 apply list_elem_of_further.
           apply (IH (String d s3)); [simpl; lia|done].
        -- destruct (Str.space3 a b d); [|done].
           intros Hc. do 3 apply list_elem_of_further.
           apply (IH s3); [lia|done].
Qed.

Lemma lstrip_rev_chars_le n : ∀ s c,
  (String.length s ≤ n)%nat →
  c ∈ list_ascii_of_string (Str.lstrip_rev s) → c ∈ list_ascii_of_string s.
Proof.
  induction n as [|n IH]; intros s c Hlen.
  - destruct s; [done | simpl in Hlen; lia].
  - destruct s as [|a [|b [|d s3]]]; simpl in *; try done.
    + destruct (Str.space1 a); [by intros ?%elem_of_nil | done].
    + destruct (Str.space1 a).
      * intros Hc. apply list_elem_of_further. apply (IH (String b "")); [simpl; lia|done].
      * destruct (Str.space2 b a); [by intros ?%elem_of_nil | done].
    + destruct (Str.space1 a).
      * intros Hc. apply list_elem_of_further.
        apply (IH (String b (String d s3))); [simpl; lia|done].
      * destruct (Str.space2 b a).
        -- intros Hc. do 2 apply list_elem_of_further.
           apply (IH (String d s3)); [simpl; lia|done].
        -- destruct (Str.space3 d b a); [|done].
           intros Hc. do 3 apply list_elem_of_further.
           apply (IH s3); [lia|done].
Qed.

Lemma elem_of_rev {A} (l : list A) x : x ∈ rev l ↔ x ∈ l.
Proof. rewrite !list_elem_of_In. symmetry. apply in_rev. Qed.

(** Trimming only removes bytes. *)
Lemma strip_chars s c :
  c ∈ list_ascii_of_string (Str.strip s) → c ∈ list_ascii_of_string s.
Proof.
  unfold Str.strip, Str.rstrip. rewrite chars_rev, elem_of_rev. intros Hc.
  apply (lstrip_rev_chars_le _ _ _ (le_n _)) in Hc.
  rewrite chars_rev, elem_of_rev in Hc.
  by apply (lstrip_chars_le _ _ _ (le_n _)).
Qed.

Lemma split_no_sep sep s p :
  p ∈ Str.split sep s → sep ∉ list_ascii_of_string p.
Proof.
  revert p. induction s as [|a s IH]; intros p; simpl.
  - intros ->%list_elem_of_singleton. apply not_elem_of_nil.
  - destruct (Ascii.eqb_spec a sep) as [->|Hne].
    + intros [->|Hp]%elem_of_cons; [apply not_elem_of_nil | by apply IH].
    + destruct (Str.split sep s) as [|q qs] eqn:Hsplit.
      * intros ->%list_elem_of_singleton. simpl.
        intros [?|?%elem_of_nil]%elem_of_cons; [congruence | done].
      * intros [->|Hp]%elem_of_cons.
        -- simpl. intros [?|Hq]%elem_of_cons; [congruence|].
           by apply (IH q); [apply list_elem_of_here|].
        -- apply IH. by apply list_elem_of_further.
Qed.

(** X14: the items [_split_list] returns are never empty and never hold a
    semicolon, each is the trimmed text of one semicolon-separated part of
    the trimmed cell, and a blank cell gives the empty list. *)
Theorem split_list_items (c : cell) :
  (_s c = "" → _split_list c = []) ∧
  ∀ item, item ∈ _split_list c →
    item ≠ "" ∧ (";"%char ∉ list_ascii_of_string item) ∧
    ∃ part, part ∈ Str.split ";" (_s c) ∧ item = Str.strip part.
Proof.
  unfold _split_list. split.
  - by intros ->.
  - intros item. destruct (Str.nonempty (_s c)); simpl;
      [|by intros ?%elem_of_nil].
    intros [Hne (part & -> & Hpart)%list_elem_of_fmap]%list_elem_of_filter.
    split; [by apply nonempty_true|]. split; [|eauto].
    intros Hin%strip_chars. by apply (split_no_sep _ _ _ Hpart).
Qed.

Lemma split_list_items_witness :
  ("x" ≠ "" ∧ (";"%char ∉ list_ascii_of_string "x") ∧
   ∃ part, part ∈ Str.split ";" (_s (CStr " x ; ;y;")) ∧ "x" = Str.strip part).
Proof.
  apply (proj2 (split_list_items (CStr " x ; ;y;")) "x").
  vm_compute. apply list_elem_of_here.
Defined.

(** ** The warning table *)

Lemma alist_get_update_eq {V} k (dflt : V) f d :
  alist_get k (setdefault_update k dflt f d)
  = Some (f (default dflt (alist_get k d))).
Proof.
  induction d as [|[k' v] d IH]; simpl.
  - by rewrite String.eqb_refl.
  - destruct (String.eqb k' k) eqn:E; simpl; rewrite E; done.
Qed.

Lemma alist_get_update_ne {V} k k' (dflt : V) f d :
  k ≠ k' → alist_get k' (setdefault_update k dflt f d) = alist_get k' d.
Proof.
  intros Hne. induction d as [|[k0 v] d IH]; simpl.
  - by rewrite eqb_false_ne.
  - destruct (String.eqb_spec k0 k) as [->|Hne0]; simpl.
    + by rewrite eqb_false_ne.
    + by rewrite IH.
Qed.

Lemma alist_get_None {V} k (d : list (string * V)) :
  alist_get k d = None ↔ k ∉ d.*1.
Proof.
  induction d as [|[k0 v] d IH]; simpl.
  - split; [intros _; apply not_elem_of_nil | done].
  - rewrite not_elem_of_cons. destruct (String.eqb_spec k0 k) as [->|Hne].
    + split; [done | intros [? _]; done].
    + rewrite IH. split; [intros ?; split; [congruence|done] | intros [_ ?]; done].
Qed.

Lemma alist_get_Some_keys {V} k (d : list (string * V)) :
  is_Some (alist_get k d) ↔ k ∈ d.*1.
Proof.
  rewrite <- not_eq_None_Some, alist_get_None. split; [apply dec_stable | auto].
Qed.

Lemma alist_get_elem_of {V} k (v : V) d :
  NoDup d.*1 → (k, v) ∈ d ↔ alist_get k d = Some v.
Proof.
  induction d as [|[k0 v0] d IH]; simpl; intros Hnd.
  - split; [by intros ?%elem_of_nil | done].
  - apply NoDup_cons in Hnd as [Hk0 Hnd]. rewrite elem_of_cons, (IH Hnd).
    destruct (String.eqb_spec k0 k) as [->|Hne].
    + split.
      * intros [[= ->]|Hget]; [done|]. exfalso. apply Hk0.
        apply alist_get_Some_keys. eauto.
      * intros [= ->]. by left.
    + split; [intros [[= ? ?]|?]; [congruence|done] | by right].
Qed.

Lemma update_keys {V} k (dflt : V) f d :
  (setdefault_update k dflt f d).*1 = if decide (k ∈ d.*1) then d.*1 else d.*1 ++ [k].
Proof.
  induction d as [|[k0 v] d IH]; [done|].
  cbn [setdefault_update].
  destruct (String.eqb_spec k0 k) as [->|Hne]; rewrite !fmap_cons; cbn [fst].
  - rewrite decide_True; [done | apply list_elem_of_here].
  - rewrite IH. destruct (decide (k ∈ d.*1)) as [Hin|Hnotin].
    + rewrite decide_True; [done | by apply list_elem_of_further].
    + rewrite decide_False; [done|]. by intros [?|?]%elem_of_cons.
Qed.

Lemma update_keys_NoDup {V} k (dflt : V) f d :
  NoDup d.*1 → NoDup (setdefault_update k dflt f d).*1.
Proof.
  intros Hnd. rewrite update_keys. case_decide; [done|].
  apply NoDup_app. split; [done|]. split; [|apply NoDup_singleton].
  by intros x Hx ->%list_elem_of_singleton.
Qed.

Lemma update_keys_elem {V} k k' (dflt : V) f d :
  k' ∈ (setdefault_update k dflt f d).*1 ↔ k' = k ∨ k' ∈ d.*1.
Proof.
  rewrite update_keys. case_decide as Hin.
  - split; [by right | intros [->|?]; done].
  - rewrite elem_of_app, list_elem_of_singleton. tauto.
Qed.

(** The table after the loop is the table before it with the triples of the
    rows added in sheet order. *)
Lemma glossary_loop_table `{PyRuntime} hg rows : ∀ i st0 st,
  for_rows (glossary_step hg) i rows st0 = inr st →
  term_defs_global st
  = fold_left table_add (glossary_triples hg rows) (term_defs_global st0).
Proof.
  induction rows as [|row rows IH]; intros i st0 st Hrun.
  - by injection Hrun as <-.
  - rewrite for_rows_cons in Hrun. unfold glossary_triples. simpl.
    fold (glossary_triples hg rows).
    destruct (blank_row row) eqn:Hnb; simpl in Hrun; [by eapply IH|].
    apply bind_inr in Hrun as (st1 & Hstep & Hrun).
    rewrite (IH _ _ _ Hrun). simpl. f_equal. clear IH Hrun.
    unfold glossary_step in Hstep.
    apply bind_inr in Hstep as ([sid item] & Hbuild & Hstep). simpl in Hstep.
    pose proof (build_glossary_item_fields _ _ _ _ Hbuild) as (Hsid & Hterm & Hdef).
    rewrite (build_glossary_item_total _ _ Hsid Hterm Hdef) in Hbuild.
    injection Hbuild as <- <-.
    destruct (gs_songs st0 !! _); [|done]. simpl in Hstep.
    case_bool_decide; [done|].
    by apply bind_inr in Hstep as (song' & _ & [= <-]).
Qed.

Lemma table_add_holds tbl seen x :
  table_holds tbl seen → table_holds (table_add tbl x) (seen ++ [x]).
Proof.
  destruct x as [[t d] s]. intros (Hnd & Hsome & Hdefs). unfold table_add. simpl.
  split; [by apply update_keys_NoDup|]. split.
  - intros t' d' s' [Hin|[= -> -> ->]%list_elem_of_singleton]%elem_of_app.
    + destruct (decide (t = t')) as [<-|Hne].
      * rewrite alist_get_update_eq. eauto.
      * rewrite alist_get_update_ne by done. eauto.
    + rewrite alist_get_update_eq. eauto.
  - intros t' defs'. destruct (decide (t = t')) as [<-|Hne].
    + rewrite alist_get_update_eq. intros [= <-].
      destruct (alist_get t tbl) as [defs|] eqn:Hget; simpl.
      * destruct (Hdefs t defs Hget) as [Hnd' Hkeys]. split;
          [by apply update_keys_NoDup|].
        intros d'. rewrite update_keys_elem, Hkeys. split.
        -- intros [->|[s' Hs']]; [exists s|exists s'];
             apply elem_of_app; [right; apply list_elem_of_here | by left].
        -- intros [s' [Hs'|[= -> ->]%list_elem_of_singleton]%elem_of_app];
             [right; eauto | by left].
      * split; [apply NoDup_singleton|]. intros d'.
        rewrite list_elem_of_singleton. split.
        -- intros ->. exists s. apply elem_of_app. right. apply list_elem_of_here.
        -- intros [s' [Hs'|[= -> ->]%list_elem_of_singleton]%elem_of_app]; [|done].
           destruct (Hsome _ _ _ Hs') as [? ?]. congruence.
    + rewrite alist_get_update_ne by done. intros Hget.
      destruct (Hdefs t' defs' Hget) as [Hnd' Hkeys]. split; [done|].
      intros d'. rewrite Hkeys. split.
      * intros [s' Hs']. exists s'. apply elem_of_app. by left.
      * intros [s' [Hs'|[= ? ? ?]%list_elem_of_singleton]%elem_of_app];
          [eauto | congruence].
Qed.

Lemma fold_table_holds ts : ∀ tbl seen,
  table_holds tbl seen → table_holds (fold_left table_add ts tbl) (seen ++ ts).
Proof.
  induction ts as [|x ts IH]; intros tbl seen Hholds; simpl.
  - by rewrite app_nil_r.
  - rewrite (cons_middle x seen ts), app_assoc. apply IH.
    by apply table_add_holds.
Qed.

Lemma two_keys {V} (d : list (string * V)) :
  NoDup d.*1 →
  (1 < List.length d)%nat ↔ ∃ k1 k2, k1 ≠ k2 ∧ k1 ∈ d.*1 ∧ k2 ∈ d.*1.
Proof.
  intros Hnd. split.
  - destruct d as [|[k1 v1] [|[k2 v2] d]]; simpl; try lia. intros _.
    exists k1, k2. apply NoDup_cons in Hnd as [Hk1 _]. split.
    + intros ->. apply Hk1. apply list_elem_of_here.
    + split; [apply list_elem_of_here|].
      apply list_elem_of_further, list_elem_of_here.
  - intros (k1 & k2 & Hne & H1 & H2).
    destruct d as [|[a va] [|[b vb] d]]; simpl in *; [| |lia].
    + by apply elem_of_nil in H1.
    + apply list_elem_of_singleton in H1, H2. congruence.
Qed.

(** X15: after the glossary loop the warning table has one entry for each
    normalised term, and the entry of a term holds more than one definition,
    the test that prints the warning block of the term, exactly when two
    non-blank rows with that term have different trimmed definitions. *)
Theorem warning_blocks `{PyRuntime} (ws : sheet) (songs1 : gmap string pydict)
    (st : glossary_state) (hg : gmap string nat) :
  read_glossary ws songs1 = inr st →
  sheet_headers ws = inr hg →
  NoDup (term_defs_global st).*1 ∧
  ∀ t,
    (∃ defs, (t, defs) ∈ term_defs_global st ∧ (1 < List.length defs)%nat) ↔
    (∃ d1 d2 s1 s2,
       d1 ≠ d2 ∧
       (t, d1, s1) ∈ glossary_triples hg (iter_rows 2 ws) ∧
       (t, d2, s2) ∈ glossary_triples hg (iter_rows 2 ws)).
Proof.
  intros Hread Hhg. apply (read_glossary_inr _ _ _ hg) in Hread; [|done].
  apply glossary_loop_table in Hread. simpl in Hread.
  destruct (fold_table_holds (glossary_triples hg (iter_rows 2 ws)) [] [])
    as (Hnd & Hsome & Hdefs).
  { split; [constructor|]. split; [by intros ? ? ? ?%elem_of_nil | done]. }
  simpl in *. rewrite <- Hread in *. split; [done|]. intros t. split.
  - intros (defs & Hin & Hlen). apply alist_get_elem_of in Hin; [|done].
    destruct (Hdefs t defs Hin) as [Hnd' Hkeys].
    apply two_keys in Hlen as (d1 & d2 & Hne & H1 & H2); [|done].
    apply Hkeys in H1 as [s1 H1]. apply Hkeys in H2 as [s2 H2].
    by exists d1, d2, s1, s2.
  - intros (d1 & d2 & s1 & s2 & Hne & H1 & H2).
    destruct (Hsome _ _ _ H1) as [defs Hget].
    destruct (Hdefs t defs Hget) as [Hnd' Hkeys].
    exists defs. split; [by apply alist_get_elem_of|].
    apply two_keys; [done|]. exists d1, d2. split; [done|].
    split; apply Hkeys; eauto.
Qed.

Lemma warning_blocks_witness :
  let RT := table_runtime [] in
  let songs1 := songs_by_id (catalog_or_empty
                  (read_catalog (book 3 "" demo_songs demo_versions []))) in
  let ws := glossary_header :: demo_glossary in
  let tbl := match read_glossary ws songs1 with
             | inr st => term_defs_global st
             | inl _ => []
             end in
  ∃ defs, ("kuren", defs) ∈ tbl ∧ (1 < List.length defs)%nat.
Proof.
  intros RT songs1 ws tbl.
  destruct (read_glossary ws songs1) as [e|st] eqn:Hread;
    [by vm_compute in Hread|].
  apply (proj2 (warning_blocks (H := RT) ws songs1 st
                  (headers_of 0 glossary_header ∅) Hread eq_refl)).
  exists "d1", "d2", "b", "a". split; [done|].
  split; vm_compute.
  - apply list_elem_of_here.
  - apply list_elem_of_further, list_elem_of_here.
Defined.

(** ** Missing sheets and columns *)

Lemma check_sheets_first wb names :
  for_each (check_sheet wb) names =
  match first_missing (has_sheet wb) names with
  | Some name => _fail ("Missing sheet '" +:+ name +:+ "' in " +:+ INPUT_XLSX)
  | None => ret tt
  end.
Proof.
  unfold first_missing. induction names as [|name names IH]; simpl; [done|].
  unfold check_sheet at 1. destruct (has_sheet wb name); simpl; [done|done].
Qed.

Lemma check_columns_first sheet h cols :
  for_each (check_column sheet h) cols =
  match first_missing (has_column h) cols with
  | Some col => _fail (sheet +:+ ": missing required column '" +:+ col +:+ "'")
  | None => ret tt
  end.
Proof.
  unfold first_missing.
  induction cols as [|col cols IH]; [done|].
  cbn [for_each List.find]. unfold check_column at 1, has_column at 1.
  destruct (h !! col) eqn:E.
  - rewrite bool_decide_eq_true_2 by eauto. exact IH.
  - rewrite bool_decide_eq_false_2; [done|]. by intros [? ?].
Qed.

(** X16: when one of the four sheets is missing, the run stops at once with
    the name of the first missing one in the order meta, songs, versions,
    glossary, whatever the other sheets hold. *)
Theorem missing_sheet_stops `{PyRuntime} (w : world) (wb : workbook)
    (name : string) :
  input_xlsx w = Some wb →
  first_missing (has_sheet wb) ["meta"; "songs"; "versions"; "glossary"]
  = Some name →
  main w =
  (inl (SystemExit ("ERROR: Missing sheet '" +:+ name +:+ "' in input/istoki.xlsx")),
   w).
Proof.
  intros Hin Hmissing. apply (main_read_fails w wb); [done|].
  unfold read_catalog. rewrite check_sheets_first, Hmissing. done.
Qed.

Lemma missing_sheet_stops_witness :
  let RT := table_runtime [] in
  let wb := [("meta", [[CStr "catalogVersion"; CStr "x"]]);
             ("songs", songs_header :: demo_songs);
             ("versions", versions_header :: demo_versions)] in
  let w := world_of (Some wb) [] "" noon in
  main w =
  (inl (SystemExit ("ERROR: Missing sheet '" +:+ "glossary"
                    +:+ "' in input/istoki.xlsx")), w).
Proof.
  intros RT wb w. apply (missing_sheet_stops (H := RT) w wb "glossary");
    reflexivity.
Defined.

(** X17: a data sheet whose header lacks a required column is refused before
    any of its rows is read: the songs and the glossary sheet with the name
    of the first missing column in the order of the check, the versions
    sheet with its fixed message. *)
Theorem missing_column_stops `{PyRuntime} (ws : sheet) (h : gmap string nat)
    (songs : gmap string pydict) :
  sheet_headers ws = inr h →
  (∀ col, first_missing (has_column h) ["id"; "title"; "hub"; "lyrics"] = Some col →
     read_songs ws
     = inl (SystemExit ("ERROR: songs: missing required column '" +:+ col +:+ "'"))) ∧
  (has_column h "songId" && has_column h "id" = false →
     read_versions ws songs
     = inl (SystemExit "ERROR: versions: required columns are 'songId' and 'id'")) ∧
  (∀ col, first_missing (has_column h) ["songId"; "term"; "definition"] = Some col →
     read_glossary ws songs
     = inl (SystemExit ("ERROR: glossary: missing required column '" +:+ col
                        +:+ "'"))).
Proof.
  intros Hh. split; [|split].
  - intros col Hcol. unfold read_songs. rewrite Hh. cbn [bind].
    rewrite (check_columns_first "songs" h), Hcol. done.
  - unfold has_column. intros Hcols. unfold read_versions. rewrite Hh.
    cbn [bind].
    destruct (h !! "songId") as [i|]; [|done].
    destruct (h !! "id") as [j|]; [|done].
    rewrite !bool_decide_eq_true_2 in Hcols by eauto. done.
  - intros col Hcol. unfold read_glossary. rewrite Hh. cbn [bind].
    rewrite (check_columns_first "glossary" h), Hcol. done.
Qed.

Lemma missing_column_stops_witness :
  let RT := table_runtime [] in
  let ws := [[CStr "id"; CStr "title"; CStr "lyrics"]; [CStr "s1"]] in
  let h := headers_of 0 [CStr "id"; CStr "title"; CStr "lyrics"] ∅ in
  read_songs ws
  = inl (SystemExit ("ERROR: songs: missing required column '" +:+ "hub" +:+ "'")).
Proof.
  intros RT ws h.
  apply (proj1 (missing_column_stops (H := RT) ws h ∅ eq_refl) "hub").
  vm_compute. reflexivity.
Defined.

(** ** From the meta sheet to the manifest *)

Lemma read_catalog_meta `{PyRuntime} wb cat ws meta :
  read_catalog wb = inr cat →
  get_sheet wb "meta" = inr ws → read_meta ws = inr meta →
  (∃ v, meta !! "catalogVersion" = Some v ∧
        int_of_str v = Some (catalog_version cat)) ∧
  base_media_url cat = Str.strip (default "" (meta !! "baseMediaUrl")).
Proof.
  unfold read_catalog. intros Hread Hws Hmeta.
  apply bind_inr in Hread as (u & _ & Hread).
  rewrite Hws in Hread. cbn [bind] in Hread.
  rewrite Hmeta in Hread. cbn [bind] in Hread.
  apply bind_inr in Hread as (version & Hversion & Hread).
  apply bind_inr in Hread as (ws_s & Hs & Hread).
  apply bind_inr in Hread as (songs0 & Hsongs & Hread).
  apply bind_inr in Hread as (ws_v & Hv & Hread).
  apply bind_inr in Hread as (songs1 & Hversions & Hread).
  apply bind_inr in Hread as (ws_g & Hg & Hread).
  apply bind_inr in Hread as (st & Hglossary & [= <-]).
  cbn [catalog_version base_media_url]. split; [|done].
  unfold read_catalog_version in Hversion.
  destruct (meta !! "catalogVersion") as [v|]; [|done].
  exists v. split; [done|].
  destruct (int_of_str v) as [n|]; [|done]. by injection Hversion as ->.
Qed.

(** The text of a number holds no plus sign. *)
Lemma pretty_N_go_no_plus x : ∀ s,
  "+"%char ∉ list_ascii_of_string s →
  "+"%char ∉ list_ascii_of_string (pretty_N_go x s).
Proof.
  induction (N.lt_wf_0 x) as [x _ IH]; intros s Hs.
  assert (x = 0 ∨ 0 < x)%N as [->|Hpos] by lia.
  - by rewrite pretty_N_go_0.
  - rewrite pretty_N_go_step by done. apply IH; [by apply N.div_lt|].
    simpl. apply not_elem_of_cons. split; [|done].
    unfold pretty_N_char. by repeat case_match.
Qed.

Lemma of_Z_no_plus n : "+"%char ∉ list_ascii_of_string (Str.of_Z n).
Proof.
  assert (∀ p, "+"%char ∉ list_ascii_of_string (pretty (N.pos p))) as Hpos.
  { intros p. unfold pretty, pretty_N. rewrite decide_False by done.
    apply pretty_N_go_no_plus, not_elem_of_nil. }
  unfold Str.of_Z, pretty, pretty_Z. destruct n as [|p|p].
  - by intros [?|?%elem_of_nil]%elem_of_cons.
  - apply Hpos.
  - simpl. apply not_elem_of_cons. split; [done | apply Hpos].
Qed.

Lemma chars_app s1 s2 :
  list_ascii_of_string (s1 +:+ s2)
  = list_ascii_of_string s1 ++ list_ascii_of_string s2.
Proof. induction s1 as [|a s1 IH]; simpl; [done | by rewrite IH]. Qed.

Lemma zero_pad_no_plus w n : "+"%char ∉ list_ascii_of_string (Str.zero_pad w n).
Proof.
  unfold Str.zero_pad. rewrite chars_app, elem_of_app.
  intros [Hpad|Hn]; [|by apply (of_Z_no_plus n)].
  induction (w - String.length (Str.of_Z n))%nat as [|k IH]; simpl in Hpad.
  - by apply elem_of_nil in Hpad.
  - destruct k; simpl in *.
    + by apply elem_of_cons in Hpad as [?|?%elem_of_nil].
    + apply elem_of_cons in Hpad as [?|Hpad]; [done | by apply IH].
Qed.

(** [replace] copies the text in front of the first plus sign. *)
Lemma replace_timezone_skip p rest :
  "+"%char ∉ list_ascii_of_string p →
  Str.replace_go "+00:00" "Z" 0 (p +:+ rest)
  = p +:+ Str.replace_go "+00:00" "Z" 0 rest.
Proof.
  induction p as [|c p IH]; [done|].
  cbn [list_ascii_of_string].
  intros [Hc Hp]%not_elem_of_cons.
  change (String c p +:+ rest) with (String c (p +:+ rest)).
  change (String c p +:+ Str.replace_go "+00:00" "Z" 0 rest)
    with (String c (p +:+ Str.replace_go "+00:00" "Z" 0 rest)).
  cbn [Str.replace_go String.prefix].
  destruct (ascii_dec "+" c) as [<-|Hne]; [done|]. by rewrite IH.
Qed.

(** The time stamp of the manifest: date and time in fixed width, and Z in
    the place of the offset. *)
Lemma now_of_format w :
  now_of w =
  Str.zero_pad 4 (year (clock w)) +:+ "-" +:+ Str.zero_pad 2 (month (clock w))
  +:+ "-" +:+ Str.zero_pad 2 (day (clock w)) +:+ "T"
  +:+ Str.zero_pad 2 (hour (clock w)) +:+ ":" +:+ Str.zero_pad 2 (minute (clock w))
  +:+ ":" +:+ Str.zero_pad 2 (second (clock w)) +:+ "Z".
Proof.
  assert (∀ sep rest, sep ∈ ["-"; "T"; ":"] →
            Str.replace_go "+00:00" "Z" 0 (sep +:+ rest)
            = sep +:+ Str.replace_go "+00:00" "Z" 0 rest) as Hsep.
  { intros sep rest Hin. apply replace_timezone_skip.
    repeat (apply elem_of_cons in Hin as [->|Hin];
            [by intros [?|?%elem_of_nil]%elem_of_cons|]).
    by apply elem_of_nil in Hin. }
  unfold now_of, isoformat, Str.replace.
  repeat first
    [ rewrite (replace_timezone_skip (Str.zero_pad _ _)) by apply zero_pad_no_plus
    | rewrite Hsep by compute_done ].
  done.
Qed.

(** X18: the manifest a returning run publishes, in docs and in dist, is the
    canonical text of four fields in this order: the integer [int] reads from
    the meta value of catalogVersion; the time of the run as year, month,
    day, hour, minute and second in fixed width, closed by the letter Z; the
    fixed songs address; and the trimmed meta value of baseMediaUrl, the
    empty string when the key is missing. *)
Theorem manifest_from_meta `{PyRuntime} (w w' : world) (wb : workbook)
    (ws : sheet) (meta : gmap string string) :
  main w = (inr tt, w') →
  input_xlsx w = Some wb →
  get_sheet wb "meta" = inr ws → read_meta ws = inr meta →
  ∃ v n,
    meta !! "catalogVersion" = Some v ∧ int_of_str v = Some n ∧
    let now := clock w in
    let published_at :=
      Str.zero_pad 4 (year now) +:+ "-" +:+ Str.zero_pad 2 (month now) +:+ "-"
      +:+ Str.zero_pad 2 (day now) +:+ "T" +:+ Str.zero_pad 2 (hour now) +:+ ":"
      +:+ Str.zero_pad 2 (minute now) +:+ ":" +:+ Str.zero_pad 2 (second now)
      +:+ "Z" in
    let latest :=
      Json.dumps
        (JObj [("catalogVersion", JInt n);
               ("publishedAt", JStr published_at);
               ("songsUrl", JStr "https://aleyakim.github.io/istoki-catalog/songs.json");
               ("baseMediaUrl",
                JStr (Str.strip (default "" (meta !! "baseMediaUrl"))))]) in
    files w' !! "docs/latest.json" = Some latest ∧
    files w' !! "dist/latest.json" = Some latest.
Proof.
  intros Hmain Hin Hws Hmeta.
  apply main_returns in Hmain as (wb' & cat & Hin' & Hread & _ & Hfiles).
  assert (wb' = wb) as -> by congruence.
  destruct (read_catalog_meta wb cat ws meta Hread Hws Hmeta)
    as [(v & Hv & Hn) Hbase].
  exists v, (catalog_version cat). split; [done|]. split; [done|].
  cbv zeta. rewrite Hfiles, <- Hbase, <- now_of_format. unfold published_files.
  split.
  - by rewrite lookup_insert_eq.
  - rewrite lookup_insert_ne by done. rewrite lookup_insert_ne by done.
    by rewrite lookup_insert_eq.
Qed.

(** The demo workbook at noon of 9 February 2026. *)
Lemma manifest_from_meta_witness :
  let RT := table_runtime [] in
  let wb := demo_book 3 " https://m/ " in
  let w := world_of (Some wb) [] "" noon in
  let latest :=
    Json.dumps
      (JObj [("catalogVersion", JInt 3);
             ("publishedAt", JStr "2026-02-09T12:34:56Z");
             ("songsUrl", JStr "https://aleyakim.github.io/istoki-catalog/songs.json");
             ("baseMediaUrl", JStr "https://m/")]) in
  files (main w).2 !! "docs/latest.json" = Some latest ∧
  files (main w).2 !! "dist/latest.json" = Some latest.
Proof.
  intros RT wb w latest.
  destruct (manifest_from_meta (H := RT) w (main w).2 wb
              [[CStr "catalogVersion"; CInt 3];
               [CStr "baseMediaUrl"; CStr " https://m/ "]]
              (list_to_map [("catalogVersion", "3"); ("baseMediaUrl", "https://m/")]))
    as (v & n & Hv & Hn & Hdocs & Hdist); try (vm_compute; reflexivity).
  vm_compute in Hv. injection Hv as <-.
  vm_compute in Hn. injection Hn as <-.
  split; [rewrite Hdocs | rewrite Hdist]; vm_compute; reflexivity.
Defined.
